(** * Edulife voice pipeline: a shallow embedding and its properties

    The development follows three source files of the front end:

    - [QuizModal] (the quiz component with its voice command router),
    - [useVoiceChat.js] (the speech capture / playback hook),
    - [ChatInterface.jsx] (the streamed reply consumer of [handleVoiceInput]).

    JavaScript strings are modelled by [string]: one [ascii] per code unit,
    which covers the code units below 256.  The host functions the code
    calls ([trim], [toLowerCase], [includes], [split], the regular
    expressions of [speak]) are written out as recursive functions. *)

From Stdlib Require Import String Ascii List Bool Arith ZArith QArith Lia.
From Stdlib Require Import DecimalString.
Import ListNotations.

Open Scope string_scope.
Open Scope nat_scope.

(* ===================================================================== *)
(** * JavaScript string primitives *)
(* ===================================================================== *)

Module Js.

(** White space and line terminators as [String.prototype.trim] and the
    regular expression class [\s] see them (code units below 256). *)
Definition is_ws (c : ascii) : bool :=
  let n := nat_of_ascii c in
  (n =? 9) || (n =? 10) || (n =? 11) || (n =? 12) || (n =? 13)
  || (n =? 32) || (n =? 160).

(** Line terminators: the characters the regular expression [.] refuses. *)
Definition is_line_terminator (c : ascii) : bool :=
  let n := nat_of_ascii c in (n =? 10) || (n =? 13).

Definition is_empty (s : string) : bool :=
  match s with EmptyString => true | String _ _ => false end.

Fixpoint trimStart (s : string) : string :=
  match s with
  | EmptyString => EmptyString
  | String c s' => if is_ws c then trimStart s' else s
  end.

Fixpoint trimEnd (s : string) : string :=
  match s with
  | EmptyString => EmptyString
  | String c s' =>
      let r := trimEnd s' in
      if is_ws c && is_empty r then EmptyString else String c r
  end.

(** [s.trim()] *)
Definition trim (s : string) : string := trimEnd (trimStart s).

Definition lower_char (c : ascii) : ascii :=
  let n := nat_of_ascii c in
  if ((65 <=? n) && (n <=? 90))
     || ((192 <=? n) && (n <=? 222) && negb (n =? 215))
  then ascii_of_nat (n + 32) else c.

(** [s.toLowerCase()] *)
Fixpoint toLowerCase (s : string) : string :=
  match s with
  | EmptyString => EmptyString
  | String c s' => String (lower_char c) (toLowerCase s')
  end.

(** [s.includes(needle)] *)
Fixpoint includes (s needle : string) : bool :=
  prefix needle s
  || match s with
     | EmptyString => false
     | String _ s' => includes s' needle
     end.

(** [s.split(sep)] for a one-character separator. *)
Fixpoint split (sep : ascii) (s : string) : list string :=
  match s with
  | EmptyString => [EmptyString]
  | String c s' =>
      if Ascii.eqb c sep then EmptyString :: split sep s'
      else match split sep s' with
           | w :: ws => String c w :: ws
           | [] => [String c EmptyString]
           end
  end.

(** [s.substring(n)] *)
Fixpoint substring_from (n : nat) (s : string) : string :=
  match n, s with
  | 0, _ => s
  | S n', String _ s' => substring_from n' s'
  | S _, EmptyString => EmptyString
  end.

(** [s[0]]: the first character as a string, [None] for [undefined]. *)
Definition first_char (s : string) : option string :=
  match s with
  | EmptyString => None
  | String c _ => Some (String c EmptyString)
  end.

(** [s.charAt(i) !== t.charAt(j)]; out of range [charAt] gives the empty
    string, which [get] renders as [None]. *)
Definition charAt_neq (s : string) (i : nat) (t : string) (j : nat) : bool :=
  match get i s, get j t with
  | Some a, Some b => negb (Ascii.eqb a b)
  | None, None => false
  | _, _ => true
  end.

(** Membership of a string in an array of strings, [arr.includes(x)]. *)
Definition array_includes (arr : list string) (x : string) : bool :=
  existsb (String.eqb x) arr.

(** Decimal rendering of a number inside a template literal. *)
Definition of_nat (n : nat) : string :=
  NilEmpty.string_of_uint (Nat.to_uint n).

(** [arr[i] = v] on an array: in range the slot is overwritten, past the
    end the array grows (the holes in between are filled with [d]). *)
Definition array_set {A : Type} (d : A) (i : nat) (v : A) (arr : list A)
  : list A :=
  if i <? List.length arr
  then firstn i arr ++ v :: skipn (S i) arr
  else arr ++ repeat d (i - List.length arr) ++ [v].

End Js.

(* ===================================================================== *)
(** * The quiz component and its voice command router (QuizModal) *)
(* ===================================================================== *)

Module QuizModal.

Import Js.

(** The double quote character, for the feedback texts that contain it. *)
Definition dq : string := String (ascii_of_nat 34) EmptyString.

Record Question := mkQuestion {
  question : string;       (* q.question *)
  type : string;           (* q.type *)
  options : list string    (* q.options *)
}.

(** The component: its props, its React state, its ref, and the calls it
    has made to the two callbacks it receives. *)
Record Quiz := mkQuiz {
  questions : list Question;       (* prop *)
  hasSpeak : bool;                 (* the [speak] prop is given *)
  answers : list string;           (* useState *)
  currentQuestion : nat;           (* useState *)
  voiceFeedback : string;          (* useState *)
  hasSpokenRef : bool;             (* useRef *)
  spoken : list string;            (* speak(text) calls, oldest first *)
  submitted : list (list string)   (* onSubmit(answers) calls, oldest first *)
}.

Definition setAnswers (f : list string -> list string) (st : Quiz) : Quiz :=
  mkQuiz (questions st) (hasSpeak st) (f (answers st)) (currentQuestion st)
         (voiceFeedback st) (hasSpokenRef st) (spoken st) (submitted st).

Definition setCurrentQuestion (f : nat -> nat) (st : Quiz) : Quiz :=
  mkQuiz (questions st) (hasSpeak st) (answers st) (f (currentQuestion st))
         (voiceFeedback st) (hasSpokenRef st) (spoken st) (submitted st).

Definition setVoiceFeedback (v : string) (st : Quiz) : Quiz :=
  mkQuiz (questions st) (hasSpeak st) (answers st) (currentQuestion st)
         v (hasSpokenRef st) (spoken st) (submitted st).

Definition setHasSpoken (b : bool) (st : Quiz) : Quiz :=
  mkQuiz (questions st) (hasSpeak st) (answers st) (currentQuestion st)
         (voiceFeedback st) b (spoken st) (submitted st).

Definition call_speak (text : string) (st : Quiz) : Quiz :=
  mkQuiz (questions st) (hasSpeak st) (answers st) (currentQuestion st)
         (voiceFeedback st) (hasSpokenRef st) (spoken st ++ [text])
         (submitted st).

Definition call_onSubmit (a : list string) (st : Quiz) : Quiz :=
  mkQuiz (questions st) (hasSpeak st) (answers st) (currentQuestion st)
         (voiceFeedback st) (hasSpokenRef st) (spoken st)
         (submitted st ++ [a]).

(** [useState(Array(questions.length).fill(''))] and the other initial
    values. *)
Definition initial (qs : list Question) (speak : bool) : Quiz :=
  mkQuiz qs speak (repeat EmptyString (List.length qs)) 0 EmptyString false
         [] [].

(** [handleAnswerChange(index, value)] *)
Definition handleAnswerChange (index : nat) (value : string) (st : Quiz)
  : Quiz :=
  setAnswers (array_set EmptyString index value) st.

(** [handleNext]: [currentQuestion < questions.length - 1] is an integer
    comparison ([questions.length - 1] is -1 for an empty quiz). *)
Definition handleNext (st : Quiz) : Quiz :=
  if (Z.of_nat (currentQuestion st)
      <? Z.of_nat (List.length (questions st)) - 1)%Z
  then setHasSpoken false
         (setVoiceFeedback EmptyString (setCurrentQuestion S st))
  else st.

(** [handlePrevious] *)
Definition handlePrevious (st : Quiz) : Quiz :=
  if 0 <? currentQuestion st
  then setHasSpoken false
         (setVoiceFeedback EmptyString (setCurrentQuestion Nat.pred st))
  else st.

(** [answers.findIndex(a => !a.trim())]; [None] stands for -1. *)
Fixpoint findIndex_blank (l : list string) : option nat :=
  match l with
  | [] => None
  | a :: l' =>
      if is_empty (trim a) then Some 0
      else option_map S (findIndex_blank l')
  end.

(** [handleSubmit] *)
Definition handleSubmit (st : Quiz) : Quiz :=
  match findIndex_blank (answers st) with
  | Some unanswered =>
      setHasSpoken false
        (setCurrentQuestion (fun _ => unanswered)
           (setVoiceFeedback
              ("Please answer question " ++ of_nat (unanswered + 1)
               ++ " first.") st))
  | None => call_onSubmit (answers st) st
  end.

(** ** calculateSimilarity *)

(** [costs[j]] for reading; every read of the algorithm is in range. *)
Definition cost_at (costs : list nat) (j : nat) : nat := nth j costs 0.

(** One pass of the inner loop [for (j = 0; j <= shorter.length; j++)],
    started at [j] with [steps] iterations left; it threads [costs] and
    [lastValue]. *)
Fixpoint inner_loop (longer shorter : string) (i steps j : nat)
  (costs : list nat) (lastValue : nat) : list nat * nat :=
  match steps with
  | 0 => (costs, lastValue)
  | S steps' =>
      let '(costs', lastValue') :=
        if i =? 0 then (array_set 0 j j costs, lastValue)
        else if 0 <? j then
          let newValue := cost_at costs (j - 1) in
          let newValue :=
            if charAt_neq longer (i - 1) shorter (j - 1)
            then Nat.min (Nat.min newValue lastValue) (cost_at costs j) + 1
            else newValue in
          (array_set 0 (j - 1) lastValue costs, newValue)
        else (costs, lastValue) in
      inner_loop longer shorter i steps' (S j) costs' lastValue'
  end.

(** The outer loop [for (i = 0; i <= longer.length; i++)]. *)
Fixpoint outer_loop (longer shorter : string) (steps i : nat)
  (costs : list nat) : list nat :=
  match steps with
  | 0 => costs
  | S steps' =>
      let '(costs1, lastValue) :=
        inner_loop longer shorter i (S (String.length shorter)) 0 costs i in
      let costs2 :=
        if 0 <? i then array_set 0 (String.length shorter) lastValue costs1
        else costs1 in
      outer_loop longer shorter steps' (S i) costs2
  end.

(** The edit distance the loops leave in [costs[shorter.length]]. *)
Definition editDistance (longer shorter : string) : nat :=
  cost_at (outer_loop longer shorter (S (String.length longer)) 0 [])
          (String.length shorter).

(** [calculateSimilarity(s1, s2)].  The result is a quotient of two small
    integers; it is kept as an exact rational, on which the comparisons
    [score > bestScore] and [bestScore > 0.6] agree with the ones on
    doubles. *)
Definition calculateSimilarity (s1 s2 : string) : Q :=
  let longer := if String.length s2 <? String.length s1 then s1 else s2 in
  let shorter := if String.length s2 <? String.length s1 then s2 else s1 in
  let longerLength := String.length longer in
  if longerLength =? 0 then 1%Q
  else
    Qmake (Z.of_nat longerLength - Z.of_nat (editDistance longer shorter))
          (Pos.of_nat longerLength).

(** [a > b] on scores. *)
Definition Qgtb (a b : Q) : bool :=
  match Qcompare a b with Gt => true | _ => false end.

(** ** processVoiceCommand *)

(** [.replace(/[.,!?;:]/g, '')] *)
Definition is_punct (c : ascii) : bool :=
  existsb (Ascii.eqb c) (list_ascii_of_string ".,!?;:").

Fixpoint remove_punct (s : string) : string :=
  match s with
  | EmptyString => EmptyString
  | String c s' =>
      if is_punct c then remove_punct s' else String c (remove_punct s')
  end.

(** [transcript.toLowerCase().replace(/[.,!?;:]/g, '').trim()] *)
Definition normalize (transcript : string) : string :=
  trim (remove_punct (toLowerCase transcript)).

(** [question.options[k]?.[0]] *)
Definition option_letter (opts : list string) (k : nat) : option string :=
  match nth_error opts k with
  | Some opt => first_char opt
  | None => None
  end.

(** 1. Direct Option Check (A, B, C, D) *)
Definition direct_option (lower : string) (opts : list string)
  : option string :=
  let words := split " " lower in
  if String.eqb lower "option a" || String.eqb lower "a"
     || array_includes words "a" then option_letter opts 0
  else if String.eqb lower "option b" || String.eqb lower "b"
     || array_includes words "b" then option_letter opts 1
  else if String.eqb lower "option c" || String.eqb lower "c"
     || array_includes words "c" then option_letter opts 2
  else if String.eqb lower "option d" || String.eqb lower "d"
     || array_includes words "d" then option_letter opts 3
  else None.

(** The text of an option, ["A) Cat" => "cat"]. *)
Definition optionText (opt : string) : string :=
  trim (remove_punct (toLowerCase (substring_from 3 opt))).

(** The body of [question.options.forEach(opt => ...)], on the pair
    [(bestScore, bestMatch)]. *)
Definition fuzzy_step (lower : string) (best : Q * option string)
  (opt : string) : Q * option string :=
  let '(bestScore, bestMatch) := best in
  let score := calculateSimilarity lower (optionText opt) in
  let '(bestScore, bestMatch) :=
    if Qgtb score bestScore then (score, first_char opt)
    else (bestScore, bestMatch) in
  if includes lower (optionText opt)
     && (2 <? String.length (optionText opt))
  then (1%Q, first_char opt)
  else (bestScore, bestMatch).

(** 2. Fuzzy Content Matching: the loop and the threshold. *)
Definition fuzzy_best (lower : string) (opts : list string)
  : Q * option string :=
  fold_left (fuzzy_step lower) opts (0%Q, None).

Definition fuzzy_match (lower : string) (opts : list string)
  : option string :=
  let '(bestScore, bestMatch) := fuzzy_best lower opts in
  if Qgtb bestScore (6 # 10) then bestMatch else None.

(** A value of [detectedAnswer] counts as found when it is truthy. *)
Definition truthy (a : option string) : bool :=
  match a with
  | Some s => negb (is_empty s)
  | None => false
  end.

Definition detect_multiple_choice (lower : string) (opts : list string)
  : option string :=
  let detectedAnswer := direct_option lower opts in
  if truthy detectedAnswer then detectedAnswer
  else fuzzy_match lower opts.

Definition detect_true_false (lower : string) : option string :=
  if includes lower "true" || includes lower "yes" then Some "True"
  else if includes lower "false" || includes lower "no" then Some "False"
  else None.

(** The text read aloud on "repeat". *)
Definition repeat_text (q : Question) : string :=
  let textToRead := question q ++ "." in
  if String.eqb (type q) "multiple_choice"
  then fold_left (fun acc opt => acc ++ opt ++ ".") (options q)
                 (textToRead ++ "Options are: ")
  else textToRead.

Definition unrecognized_feedback : string :=
  "Didn't catch that. Say " ++ dq ++ "A" ++ dq ++ ", " ++ dq ++ "B" ++ dq
  ++ ", or the answer.".

(** The end of [processVoiceCommand]: [if (detectedAnswer) ... else if
    (question.type !== 'short_answer') ...]. *)
Definition report (q : Question) (detectedAnswer : option string)
  (st : Quiz) : Quiz :=
  match detectedAnswer with
  | Some a =>
      if truthy detectedAnswer
      then setVoiceFeedback ("Selected: " ++ a ++ " ")
             (handleAnswerChange (currentQuestion st) a st)
      else if negb (String.eqb (type q) "short_answer")
      then setVoiceFeedback unrecognized_feedback st
      else st
  | None =>
      if negb (String.eqb (type q) "short_answer")
      then setVoiceFeedback unrecognized_feedback st
      else st
  end.

(** [processVoiceCommand(transcript)].  [None] is the [TypeError] of
    [question.type] when there is no current question. *)
Definition processVoiceCommand (transcript : string) (st : Quiz)
  : option Quiz :=
  let lower := normalize transcript in
  (* NAVIGATION *)
  if String.eqb lower "next" || includes lower "next question"
     || includes lower "go forward"
  then Some (handleNext st)
  else if String.eqb lower "previous" || String.eqb lower "back"
     || includes lower "go back"
  then Some (handlePrevious st)
  else if String.eqb lower "submit" || includes lower "submit quiz"
     || includes lower "finish" || includes lower "done"
  then Some (handleSubmit st)
  (* CONTROL *)
  else if includes lower "repeat" || includes lower "read again"
     || String.eqb lower "read"
  then
    let st := setHasSpoken false st in
    match nth_error (questions st) (currentQuestion st) with
    | Some q => Some (if hasSpeak st then call_speak (repeat_text q) st
                      else st)
    | None => Some st
    end
  (* ANSWERS *)
  else
    match nth_error (questions st) (currentQuestion st) with
    | None => None
    | Some q =>
        if String.eqb (type q) "multiple_choice"
        then Some (report q (detect_multiple_choice lower (options q)) st)
        else if String.eqb (type q) "true_false"
        then Some (report q (detect_true_false lower) st)
        else if String.eqb (type q) "short_answer"
        then Some (setVoiceFeedback ("Typed: " ++ dq ++ transcript ++ dq)
                     (handleAnswerChange (currentQuestion st) transcript st))
        else Some (report q None st)
    end.

(** The buttons of the footer, one per question: [setCurrentQuestion(idx)]
    and the reset of the spoken flag. *)
Definition jumpTo (idx : nat) (st : Quiz) : Quiz :=
  setHasSpoken false (setCurrentQuestion (fun _ => idx) st).

(** The body of the effect on [voiceInput]; [None] is the prop when it is
    [null]. *)
Definition voiceInput_effect (voiceInput : option (string * bool))
  (st : Quiz) : option Quiz :=
  match voiceInput with
  | Some (text, isFinal) =>
      if isFinal then processVoiceCommand text st
      else Some (setVoiceFeedback ("... " ++ text) st)
  | None => Some st
  end.

(** The text the auto-read effect builds for question [q] at index
    [current]. *)
Definition read_text (current : nat) (q : Question) : string :=
  let textToRead :=
    "Question " ++ of_nat (current + 1) ++ ". " ++ question q ++ ". " in
  if String.eqb (type q) "multiple_choice"
  then fold_left (fun acc opt => acc ++ opt ++ ". ") (options q)
                 (textToRead ++ "Options are: ")
  else if String.eqb (type q) "true_false"
  then textToRead ++ "Is it True or False?"
  else textToRead.

(** The body of the auto-read effect. *)
Definition autoRead (st : Quiz) : Quiz :=
  if negb (hasSpokenRef st) then
    match nth_error (questions st) (currentQuestion st) with
    | Some q =>
        setHasSpoken true
          (if hasSpeak st
           then call_speak (read_text (currentQuestion st) q) st
           else st)
    | None => st
    end
  else st.

(** What happens to the component: the clicks on its buttons (the footer
    has one button per question), a change of the input of the question
    on screen, and a run of one of its two effects. *)
Inductive QuizEvent :=
| ClickNext
| ClickPrevious
| ClickSubmit
| ClickQuestion (idx : nat)
| Change (value : string)
| VoiceInputEffect (text : string) (isFinal : bool)
| AutoReadEffect.

(** [None]: the handler threw. *)
Definition quiz_step (e : QuizEvent) (st : Quiz) : option Quiz :=
  match e with
  | ClickNext => Some (handleNext st)
  | ClickPrevious => Some (handlePrevious st)
  | ClickSubmit => Some (handleSubmit st)
  | ClickQuestion idx =>
      if idx <? List.length (questions st) then Some (jumpTo idx st)
      else Some st
  | Change value => Some (handleAnswerChange (currentQuestion st) value st)
  | VoiceInputEffect text isFinal =>
      voiceInput_effect (Some (text, isFinal)) st
  | AutoReadEffect => Some (autoRead st)
  end.

Fixpoint quiz_run (es : list QuizEvent) (st : Quiz) : option Quiz :=
  match es with
  | [] => Some st
  | e :: es' =>
      match quiz_step e st with
      | Some st' => quiz_run es' st'
      | None => None
      end
  end.

End QuizModal.

(* ===================================================================== *)
(** * The voice chat hook (useVoiceChat.js) *)
(* ===================================================================== *)

Module VoiceChat.

Import Js.

(** ** The text that is spoken: the replacements of [speak] *)

(** [s.replace(re, ...)] with a global regular expression whose matches
    are never empty.  [m s] is the match of [re] anchored at the start of
    [s]: the text that replaces it and its length.  The scan takes the
    leftmost match, copies the characters no match starts at, and goes on
    after the match ([skip] counts the characters of a match still to be
    passed over). *)
Fixpoint replace_from (m : string -> option (string * nat)) (skip : nat)
  (s : string) : string :=
  match s with
  | EmptyString => EmptyString
  | String c s' =>
      match skip with
      | S k => replace_from m k s'
      | 0 =>
          match m s with
          | Some (r, len) => r ++ replace_from m (len - 1) s'
          | None => String c (replace_from m 0 s')
          end
      end
  end.

Definition replace_all (m : string -> option (string * nat)) (s : string)
  : string := replace_from m 0 s.

(** Two characters that the flag [i] identifies. *)
Definition ci_eqb (a b : ascii) : bool :=
  Ascii.eqb (lower_char a) (lower_char b).

Fixpoint prefix_ci (p s : string) : bool :=
  match p, s with
  | EmptyString, _ => true
  | String a p', String b s' => ci_eqb a b && prefix_ci p' s'
  | String _ _, EmptyString => false
  end.

(** [(.*?)close]: the shortest run of characters other than line
    terminators after which [close] follows. *)
Fixpoint lazy_capture (close s : string) : option string :=
  if prefix_ci close s then Some EmptyString
  else match s with
       | EmptyString => None
       | String c s' =>
           if is_line_terminator c then None
           else option_map (String c) (lazy_capture close s')
       end.

(** The number of leading characters of [s] that satisfy [p]: a greedy
    [[...]*]. *)
Fixpoint span (p : ascii -> bool) (s : string) : nat :=
  match s with
  | EmptyString => 0
  | String c s' => if p c then S (span p s') else 0
  end.

Definition is_not (x : ascii) (c : ascii) : bool := negb (Ascii.eqb c x).

(** [/<sup>(.*?)<\/sup>/gi] and [/<sub>(.*?)<\/sub>/gi], with the phrase
    put before [$1]. *)
Definition match_element (open close phrase : string) (s : string)
  : option (string * nat) :=
  if prefix_ci open s then
    match lazy_capture close (substring_from (String.length open) s) with
    | Some cap =>
        Some (phrase ++ cap ++ " ",
              String.length open + String.length cap + String.length close)
    | None => None
    end
  else None.

Definition match_sup : string -> option (string * nat) :=
  match_element "<sup>" "</sup>" " raised to the power of ".

Definition match_sub : string -> option (string * nat) :=
  match_element "<sub>" "</sub>" " base ".

(** The markdown image expression of [speak]: an exclamation mark, an
    opening bracket, the longest run without a closing bracket, the two
    characters that close the alt text and open the url, a non-empty
    longest run without a closing parenthesis, and that parenthesis.  The
    match is replaced by the empty string. *)
Definition match_image (s : string) : option (string * nat) :=
  if prefix "![" s then
    let s1 := substring_from 2 s in
    let n := span (is_not "]") s1 in
    let s2 := substring_from n s1 in
    if prefix "](" s2 then
      let s3 := substring_from 2 s2 in
      let k := span (is_not ")") s3 in
      if (0 <? k) && prefix ")" (substring_from k s3)
      then Some (EmptyString, 2 + n + 2 + k + 1)
      else None
    else None
  else None.

(** [/https?:\/\/\S+/g], replaced by the empty string. *)
Definition match_url (s : string) : option (string * nat) :=
  let scheme :=
    if prefix "https://" s then Some 8
    else if prefix "http://" s then Some 7
    else None in
  match scheme with
  | Some n =>
      let k := span (fun c => negb (is_ws c)) (substring_from n s) in
      if 0 <? k then Some (EmptyString, n + k) else None
  | None => None
  end.

(** [/<[^>]*>/g], replaced by one space. *)
Definition match_tag (s : string) : option (string * nat) :=
  match s with
  | String "<" s' =>
      let n := span (is_not ">") s' in
      if prefix ">" (substring_from n s') then Some (" ", 1 + n + 1)
      else None
  | _ => None
  end.

(** [/\s+/g], replaced by one space. *)
Definition match_spaces (s : string) : option (string * nat) :=
  let k := span is_ws s in
  if 0 <? k then Some (" ", k) else None.

(** [speakText] as [speak] computes it from [text]. *)
Definition sanitize (text : string) : string :=
  let speakText := replace_all match_sup text in
  let speakText := replace_all match_sub speakText in
  let speakText := replace_all match_image speakText in
  let speakText := replace_all match_url speakText in
  let speakText := replace_all match_tag speakText in
  trim (replace_all match_spaces speakText).

(** ** The host: recognition objects, utterances, timers *)

(** A recognition object is idle, capturing, or aborted with its [end]
    event still to come. *)
Inductive RecState := RecIdle | RecActive | RecStopping.

(** A recognition object with the two variables its handlers close over. *)
Record Recognition := mkRecognition {
  rstate : RecState;
  currentTranscript : string;
  silenceTimer : option nat       (* the timer id the variable holds *)
}.

Record Utterance := mkUtterance {
  utext : string;                 (* the text given to the constructor *)
  hasBoundary : bool;             (* [onBoundary] was passed to [speak] *)
  terminated : bool               (* its [end] or [error] event has fired *)
}.

Inductive TimerAction :=
| ResumeLater                     (* [() => resumeListening()], 100 ms *)
| SilenceElapsed (r : nat).       (* the silence callback of object [r] *)

Record Timer := mkTimer { tid : nat; due : nat; action : TimerAction }.

(** What the hook calls: host methods and the callbacks it was given. *)
Inductive Effect :=
| RecognitionStart (r : nat)        (* [start()] returned *)
| RecognitionStartThrew (r : nat)   (* [start()] threw: not idle *)
| RecognitionAbort (r : nat)        (* [abort()] *)
| SynthCancel                       (* [speechSynthesis.cancel()] *)
| SynthSpeak (u : nat) (text : string)  (* [speechSynthesis.speak(u)] *)
| OnTranscript (text : string) (isFinal : bool)
| OnBoundary (u : nat) (charIndex : Z)
| SpeakingEnded (u : nat).          (* [setIsSpeaking(false)] of a terminal
                                       handler of utterance [u] *)

Record Hook := mkHook {
  isEnabled : bool                 (* the prop, as last rendered *);
  isListening : bool               (* useState *);
  isSpeaking : bool                (* useState *);
  error : option string            (* useState *);
  isSupported : bool               (* useState *);
  recognitionRef : option nat      (* useRef: the recognition object in use *);
  synthRef : bool                  (* useRef: speechSynthesis is there *);
  isUnmountedRef : bool            (* useRef *);
  isEnabledRef : bool              (* useRef *);
  isSpeakingRef : bool             (* useRef *);
  recognitions : list Recognition  (* every recognition object created *);
  utterances : list Utterance      (* every utterance created *);
  synthQueue : list nat            (* utterances speechSynthesis holds *);
  pendingInit : nat                (* initializeVoiceMode calls awaiting getUserMedia *);
  now : nat                        (* the clock, in milliseconds *);
  timers : list Timer              (* pending setTimeout callbacks *);
  nextTimer : nat                  (* the next timer id *);
  log : list (nat * Effect)        (* calls made, with their time, oldest first *)
}.

Definition set_isEnabled (v : bool) (s : Hook) : Hook :=
  mkHook v (isListening s) (isSpeaking s) (error s) (isSupported s)
    (recognitionRef s) (synthRef s) (isUnmountedRef s) (isEnabledRef s)
    (isSpeakingRef s) (recognitions s) (utterances s) (synthQueue s)
    (pendingInit s) (now s) (timers s) (nextTimer s) (log s).

Definition set_isListening (v : bool) (s : Hook) : Hook :=
  mkHook (isEnabled s) v (isSpeaking s) (error s) (isSupported s)
    (recognitionRef s) (synthRef s) (isUnmountedRef s) (isEnabledRef s)
    (isSpeakingRef s) (recognitions s) (utterances s) (synthQueue s)
    (pendingInit s) (now s) (timers s) (nextTimer s) (log s).

Definition set_isSpeaking (v : bool) (s : Hook) : Hook :=
  mkHook (isEnabled s) (isListening s) v (error s) (isSupported s)
    (recognitionRef s) (synthRef s) (isUnmountedRef s) (isEnabledRef s)
    (isSpeakingRef s) (recognitions s) (utterances s) (synthQueue s)
    (pendingInit s) (now s) (timers s) (nextTimer s) (log s).

Definition set_error (v : option string) (s : Hook) : Hook :=
  mkHook (isEnabled s) (isListening s) (isSpeaking s) v (isSupported s)
    (recognitionRef s) (synthRef s) (isUnmountedRef s) (isEnabledRef s)
    (isSpeakingRef s) (recognitions s) (utterances s) (synthQueue s)
    (pendingInit s) (now s) (timers s) (nextTimer s) (log s).

Definition set_isSupported (v : bool) (s : Hook) : Hook :=
  mkHook (isEnabled s) (isListening s) (isSpeaking s) (error s) v
    (recognitionRef s) (synthRef s) (isUnmountedRef s) (isEnabledRef s)
    (isSpeakingRef s) (recognitions s) (utterances s) (synthQueue s)
    (pendingInit s) (now s) (timers s) (nextTimer s) (log s).

Definition set_recognitionRef (v : option nat) (s : Hook) : Hook :=
  mkHook (isEnabled s) (isListening s) (isSpeaking s) (error s) (isSupported
    s) v (synthRef s) (isUnmountedRef s) (isEnabledRef s) (isSpeakingRef s)
    (recognitions s) (utterances s) (synthQueue s) (pendingInit s) (now s)
    (timers s) (nextTimer s) (log s).

Definition set_synthRef (v : bool) (s : Hook) : Hook :=
  mkHook (isEnabled s) (isListening s) (isSpeaking s) (error s) (isSupported
    s) (recognitionRef s) v (isUnmountedRef s) (isEnabledRef s)
    (isSpeakingRef s) (recognitions s) (utterances s) (synthQueue s)
    (pendingInit s) (now s) (timers s) (nextTimer s) (log s).

Definition set_isUnmountedRef (v : bool) (s : Hook) : Hook :=
  mkHook (isEnabled s) (isListening s) (isSpeaking s) (error s) (isSupported
    s) (recognitionRef s) (synthRef s) v (isEnabledRef s) (isSpeakingRef s)
    (recognitions s) (utterances s) (synthQueue s) (pendingInit s) (now s)
    (timers s) (nextTimer s) (log s).

Definition set_isEnabledRef (v : bool) (s : Hook) : Hook :=
  mkHook (isEnabled s) (isListening s) (isSpeaking s) (error s) (isSupported
    s) (recognitionRef s) (synthRef s) (isUnmountedRef s) v (isSpeakingRef
    s) (recognitions s) (utterances s) (synthQueue s) (pendingInit s) (now
    s) (timers s) (nextTimer s) (log s).

Definition set_isSpeakingRef (v : bool) (s : Hook) : Hook :=
  mkHook (isEnabled s) (isListening s) (isSpeaking s) (error s) (isSupported
    s) (recognitionRef s) (synthRef s) (isUnmountedRef s) (isEnabledRef s) v
    (recognitions s) (utterances s) (synthQueue s) (pendingInit s) (now s)
    (timers s) (nextTimer s) (log s).

Definition set_recognitions (v : list Recognition) (s : Hook) : Hook :=
  mkHook (isEnabled s) (isListening s) (isSpeaking s) (error s) (isSupported
    s) (recognitionRef s) (synthRef s) (isUnmountedRef s) (isEnabledRef s)
    (isSpeakingRef s) v (utterances s) (synthQueue s) (pendingInit s) (now
    s) (timers s) (nextTimer s) (log s).

Definition set_utterances (v : list Utterance) (s : Hook) : Hook :=
  mkHook (isEnabled s) (isListening s) (isSpeaking s) (error s) (isSupported
    s) (recognitionRef s) (synthRef s) (isUnmountedRef s) (isEnabledRef s)
    (isSpeakingRef s) (recognitions s) v (synthQueue s) (pendingInit s) (now
    s) (timers s) (nextTimer s) (log s).

Definition set_synthQueue (v : list nat) (s : Hook) : Hook :=
  mkHook (isEnabled s) (isListening s) (isSpeaking s) (error s) (isSupported
    s) (recognitionRef s) (synthRef s) (isUnmountedRef s) (isEnabledRef s)
    (isSpeakingRef s) (recognitions s) (utterances s) v (pendingInit s) (now
    s) (timers s) (nextTimer s) (log s).

Definition set_pendingInit (v : nat) (s : Hook) : Hook :=
  mkHook (isEnabled s) (isListening s) (isSpeaking s) (error s) (isSupported
    s) (recognitionRef s) (synthRef s) (isUnmountedRef s) (isEnabledRef s)
    (isSpeakingRef s) (recognitions s) (utterances s) (synthQueue s) v (now
    s) (timers s) (nextTimer s) (log s).

Definition set_now (v : nat) (s : Hook) : Hook :=
  mkHook (isEnabled s) (isListening s) (isSpeaking s) (error s) (isSupported
    s) (recognitionRef s) (synthRef s) (isUnmountedRef s) (isEnabledRef s)
    (isSpeakingRef s) (recognitions s) (utterances s) (synthQueue s)
    (pendingInit s) v (timers s) (nextTimer s) (log s).

Definition set_timers (v : list Timer) (s : Hook) : Hook :=
  mkHook (isEnabled s) (isListening s) (isSpeaking s) (error s) (isSupported
    s) (recognitionRef s) (synthRef s) (isUnmountedRef s) (isEnabledRef s)
    (isSpeakingRef s) (recognitions s) (utterances s) (synthQueue s)
    (pendingInit s) (now s) v (nextTimer s) (log s).

Definition set_nextTimer (v : nat) (s : Hook) : Hook :=
  mkHook (isEnabled s) (isListening s) (isSpeaking s) (error s) (isSupported
    s) (recognitionRef s) (synthRef s) (isUnmountedRef s) (isEnabledRef s)
    (isSpeakingRef s) (recognitions s) (utterances s) (synthQueue s)
    (pendingInit s) (now s) (timers s) v (log s).

Definition set_log (v : list (nat * Effect)) (s : Hook) : Hook :=
  mkHook (isEnabled s) (isListening s) (isSpeaking s) (error s) (isSupported
    s) (recognitionRef s) (synthRef s) (isUnmountedRef s) (isEnabledRef s)
    (isSpeakingRef s) (recognitions s) (utterances s) (synthQueue s)
    (pendingInit s) (now s) (timers s) (nextTimer s) v.

Definition set_rstate (v : RecState) (rec : Recognition) : Recognition :=
  mkRecognition v (currentTranscript rec) (silenceTimer rec).

Definition set_currentTranscript (v : string) (rec : Recognition)
  : Recognition :=
  mkRecognition (rstate rec) v (silenceTimer rec).

Definition set_silenceTimer (v : option nat) (rec : Recognition)
  : Recognition :=
  mkRecognition (rstate rec) (currentTranscript rec) v.

Definition set_terminated (v : bool) (u : Utterance) : Utterance :=
  mkUtterance (utext u) (hasBoundary u) v.

(** Statements in sequence: [s |> f |> g] runs [f], then [g]. *)
Local Notation "s |> f" := (f s) (at level 45, left associativity,
                                  only parsing).

Fixpoint update_nth {A : Type} (i : nat) (f : A -> A) (l : list A)
  : list A :=
  match l, i with
  | [], _ => []
  | x :: l', 0 => f x :: l'
  | x :: l', S i' => x :: update_nth i' f l'
  end.

Definition update_rec (r : nat) (f : Recognition -> Recognition)
  (s : Hook) : Hook :=
  set_recognitions (update_nth r f (recognitions s)) s.

Definition update_utt (u : nat) (f : Utterance -> Utterance) (s : Hook)
  : Hook :=
  set_utterances (update_nth u f (utterances s)) s.

Definition emit (e : Effect) (s : Hook) : Hook :=
  set_log (log s ++ [(now s, e)]) s.

(** [recognition.start()] inside [try]: an idle object starts capturing;
    any other object throws, and the [catch] only logs. *)
Definition recognition_start (r : nat) (s : Hook) : Hook :=
  match nth_error (recognitions s) r with
  | Some rec =>
      match rstate rec with
      | RecIdle =>
          s |> update_rec r (set_rstate RecActive)
            |> emit (RecognitionStart r)
      | _ => s |> emit (RecognitionStartThrew r)
      end
  | None => s
  end.

(** [recognition.abort()]: capture stops at once, the [end] event comes
    later. *)
Definition recognition_abort (r : nat) (s : Hook) : Hook :=
  s |> update_rec r (fun rec =>
         match rstate rec with
         | RecActive => set_rstate RecStopping rec
         | _ => rec
         end)
    |> emit (RecognitionAbort r).

(** [speechSynthesis.cancel()] empties the queue of the synthesizer. *)
Definition synth_cancel (s : Hook) : Hook :=
  s |> set_synthQueue [] |> emit SynthCancel.

(** [speechSynthesis.speak(utterance)] *)
Definition synth_speak (u : nat) (text : string) (s : Hook) : Hook :=
  s |> set_synthQueue (synthQueue s ++ [u]) |> emit (SynthSpeak u text).

(** [setTimeout(callback, delay)]: the new state and the timer id. *)
Definition setTimeout (a : TimerAction) (delay : nat) (s : Hook)
  : Hook * nat :=
  let id := nextTimer s in
  (s |> set_timers (timers s ++ [mkTimer id (now s + delay) a])
     |> set_nextTimer (S id), id).

(** [clearTimeout(id)] *)
Definition clearTimeout (id : nat) (s : Hook) : Hook :=
  set_timers (filter (fun t => negb (tid t =? id)) (timers s)) s.

(** ** The hook *)

(** [initializeVoiceMode] up to its [await]. *)
Definition initializeVoiceMode (s : Hook) : Hook :=
  if negb (isSupported s) then s
  else if negb (isEnabledRef s) || isUnmountedRef s then s
  else set_pendingInit (S (pendingInit s)) s.

(** [initializeVoiceMode] after [getUserMedia] resolved: the recognition
    object is created, stored and started. *)
Definition permissionGranted (s : Hook) : Hook :=
  match pendingInit s with
  | 0 => s
  | S n =>
      let r := List.length (recognitions s) in
      s |> set_pendingInit n
        |> set_recognitions
             (recognitions s ++ [mkRecognition RecIdle EmptyString None])
        |> set_recognitionRef (Some r)
        |> recognition_start r
  end.

(** The [catch] of [initializeVoiceMode]. *)
Definition permissionDenied (message : string) (s : Hook) : Hook :=
  match pendingInit s with
  | 0 => s
  | S n =>
      s |> set_pendingInit n
        |> set_error (Some ("Failed to start: " ++ message))
        |> set_isListening false
  end.

(** [recognition.onstart] *)
Definition onstart (s : Hook) : Hook :=
  s |> set_isListening true |> set_error None.

(** The loop of [recognition.onresult] over [event.results] from
    [event.resultIndex] on: the pair [(interimTranscript,
    finalTranscript)]. *)
Fixpoint collect (results : list (string * bool)) (acc : string * string)
  : string * string :=
  match results with
  | [] => acc
  | (transcript, isFinal) :: rest =>
      let '(interimTranscript, finalTranscript) := acc in
      if isFinal
      then collect rest (interimTranscript,
                         finalTranscript ++ transcript ++ " ")
      else collect rest (interimTranscript ++ transcript, finalTranscript)
  end.

(** [recognition.onresult] of object [r], whose variables are in [rec]. *)
Definition onresult (r : nat) (rec : Recognition)
  (results : list (string * bool)) (s : Hook) : Hook :=
  let '(interimTranscript, finalTranscript) :=
    collect results (EmptyString, EmptyString) in
  let current :=
    if negb (is_empty finalTranscript)
    then currentTranscript rec ++ finalTranscript
    else currentTranscript rec in
  let s := update_rec r (set_currentTranscript current) s in
  let displayTranscript := current ++ interimTranscript in
  let s :=
    if negb (is_empty (trim displayTranscript))
    then emit (OnTranscript (trim displayTranscript) false) s
    else s in
  let s :=
    match silenceTimer rec with
    | Some id => clearTimeout id s
    | None => s
    end in
  if negb (is_empty (trim current))
  then
    let '(s, id) := setTimeout (SilenceElapsed r) 1200 s in
    update_rec r (set_silenceTimer (Some id)) s
  else s.

(** The callback given to [setTimeout] in [onresult]. *)
Definition silence_callback (r : nat) (s : Hook) : Hook :=
  match nth_error (recognitions s) r with
  | Some rec =>
      s |> emit (OnTranscript (trim (currentTranscript rec)) true)
        |> update_rec r (set_currentTranscript EmptyString)
  | None => s
  end.

(** [recognition.onerror] *)
Definition onerror (err : string) (s : Hook) : Hook :=
  if String.eqb err "no-speech" || String.eqb err "aborted" then s
  else if String.eqb err "not-allowed"
  then s |> set_error (Some "Microphone access denied.")
         |> set_isListening false
  else s.

(** [recognition.onend] of object [r], whose variables are in [rec]. *)
Definition onend (r : nat) (rec : Recognition) (s : Hook) : Hook :=
  let s :=
    match silenceTimer rec with
    | Some id => clearTimeout id s
    | None => s
    end in
  if negb (isSpeakingRef s) && isEnabledRef s && negb (isUnmountedRef s)
  then recognition_start r s
  else set_isListening false s.

(** [pauseListening] *)
Definition pauseListening (s : Hook) : Hook :=
  match recognitionRef s with
  | Some r => recognition_abort r s
  | None => s
  end.

(** [resumeListening] *)
Definition resumeListening (s : Hook) : Hook :=
  match recognitionRef s with
  | Some r =>
      if negb (isSpeakingRef s) && isEnabledRef s
      then recognition_start r s
      else s
  | None => s
  end.

(** [speak(text, onBoundary)] *)
Definition speak (text : string) (onBoundary : bool) (s : Hook) : Hook :=
  if negb (synthRef s) || is_empty text then s
  else
    let speakText := sanitize text in
    let u := List.length (utterances s) in
    s |> set_isSpeakingRef true
      |> set_isSpeaking true
      |> pauseListening
      |> synth_cancel
      |> set_utterances (utterances s ++ [mkUtterance speakText onBoundary false])
      |> synth_speak u speakText.

(** [utterance.onboundary] *)
Definition onboundary (u : nat) (ut : Utterance) (name : string)
  (charIndex : nat) (s : Hook) : Hook :=
  if hasBoundary ut && String.eqb name "word"
  then emit (OnBoundary u (Z.of_nat charIndex)) s
  else s.

(** The statements [utterance.onend] and [utterance.onerror] share. *)
Definition speech_over (u : nat) (ut : Utterance) (s : Hook) : Hook :=
  let s := s |> set_isSpeakingRef false
             |> set_isSpeaking false
             |> emit (SpeakingEnded u) in
  if hasBoundary ut then emit (OnBoundary u (-1)) s else s.

(** [utterance.onend] *)
Definition utterance_onend (u : nat) (ut : Utterance) (s : Hook) : Hook :=
  fst (setTimeout ResumeLater 100 (speech_over u ut s)).

(** [utterance.onerror] *)
Definition utterance_onerror (u : nat) (ut : Utterance) (s : Hook)
  : Hook :=
  resumeListening (speech_over u ut s).

(** The cleanup of the effect on [isEnabled], in a render where
    [isEnabled] was false. *)
Definition teardown (s : Hook) : Hook :=
  let s := match recognitionRef s with
           | Some r => recognition_abort r s
           | None => s
           end in
  let s := if synthRef s then synth_cancel s else s in
  s |> set_isListening false
    |> set_isSpeaking false
    |> set_isSpeakingRef false.

(** A render with a new value of the prop [isEnabled]: the cleanup of the
    previous effect runs with the value of [isEnabled] it closed over,
    then the effects of the new render run in order. *)
Definition setEnabled (b : bool) (s : Hook) : Hook :=
  if Bool.eqb b (isEnabled s) then s
  else
    let old := isEnabled s in
    let s := set_isEnabled b s in
    let s := if negb old then teardown s else s in
    let s := set_isEnabledRef b s in
    let s := set_isUnmountedRef false s in
    if b && isSupported s then initializeVoiceMode s else s.

(** Unmounting: the cleanup of the effect on [isEnabled], then the
    cleanup of the unmount effect. *)
Definition unmount (s : Hook) : Hook :=
  let s := if negb (isEnabled s) then teardown s else s in
  let s := set_isUnmountedRef true s in
  let s := match recognitionRef s with
           | Some r => recognition_abort r s
           | None => s
           end in
  if synthRef s then synth_cancel s else s.

(** [stopSpeaking] *)
Definition stopSpeaking (s : Hook) : Hook :=
  let s := if synthRef s then synth_cancel s else s in
  s |> set_isSpeakingRef false |> set_isSpeaking false.

(** [stopListening] *)
Definition stopListening (s : Hook) : Hook :=
  let s := match recognitionRef s with
           | Some r => recognition_abort r s
           | None => s
           end in
  set_isListening false s.

Definition unsupported_message : string :=
  "Voice chat is not supported in this browser. Please use Chrome or Edge.".

(** The hook after it has mounted: the first render and its effects,
    then, in a browser with speech support, the render that follows
    [setIsSupported(true)]. *)
Definition mount (supported enabled : bool) : Hook :=
  let s := mkHook enabled false false None false None false false enabled
                  false [] [] [] 0 0 [] 0 [] in
  if supported then
    let s := s |> set_isSupported true |> set_synthRef true in
    let s := if negb enabled then teardown s else s in
    if enabled then initializeVoiceMode s else s
  else set_error (Some unsupported_message) s.

(** ** Events and the event loop *)

Inductive Event :=
| SetEnabled (b : bool)                 (* the prop changes *)
| PermissionGranted                     (* getUserMedia resolves *)
| PermissionDenied (message : string)   (* getUserMedia rejects *)
| Speak (text : string) (onBoundary : bool)
| StopSpeaking
| PauseListening
| ResumeListening
| StartListening
| StopListening
| Unmount
| RecOnStart (r : nat)
| RecOnResult (r : nat) (results : list (string * bool))
| RecOnError (r : nat) (err : string)
| RecOnEnd (r : nat)
| UttOnBoundary (u : nat) (name : string) (charIndex : nat)
| UttOnEnd (u : nat)
| UttOnError (u : nat)
| Elapse (d : nat).                     (* [d] milliseconds pass *)

(** The earliest pending timer that is due by [target]; among timers
    due at the same time the one set first. *)
Definition before (a b : Timer) : bool :=
  (due a <? due b) || ((due a =? due b) && (tid a <=? tid b)).

Fixpoint next_due (target : nat) (ts : list Timer) : option Timer :=
  match ts with
  | [] => None
  | t :: ts' =>
      match next_due target ts' with
      | Some t' =>
          if (due t <=? target) && before t t' then Some t else Some t'
      | None => if due t <=? target then Some t else None
      end
  end.

(** A timer fires: the clock is at its due time and its callback runs. *)
Definition fire (t : Timer) (s : Hook) : Hook :=
  let s := s |> clearTimeout (tid t) |> set_now (due t) in
  match action t with
  | ResumeLater => resumeListening s
  | SilenceElapsed r => silence_callback r s
  end.

Fixpoint run_timers (fuel target : nat) (s : Hook) : Hook :=
  match fuel with
  | 0 => s
  | S fuel' =>
      match next_due target (timers s) with
      | Some t => run_timers fuel' target (fire t s)
      | None => s
      end
  end.

(** [d] milliseconds pass: the timers due in that time fire in order (no
    callback of the hook sets a timer, so one round per pending timer is
    enough). *)
Definition elapse (d : nat) (s : Hook) : Hook :=
  let target := now s + d in
  set_now target (run_timers (List.length (timers s)) target s).

(** The events of the host reach a handler only in the situations the
    host raises them in: [start] and [result] on a capturing object,
    [end] on an object that is not idle (it is idle when the handler
    runs), the events of an utterance before its terminal event, which
    also takes it out of the queue of the synthesizer. *)
Definition step (e : Event) (s : Hook) : Hook :=
  match e with
  | SetEnabled b => setEnabled b s
  | PermissionGranted => permissionGranted s
  | PermissionDenied message => permissionDenied message s
  | Speak text onBoundary => speak text onBoundary s
  | StopSpeaking => stopSpeaking s
  | PauseListening => pauseListening s
  | ResumeListening => resumeListening s
  | StartListening => initializeVoiceMode s
  | StopListening => stopListening s
  | Unmount => unmount s
  | RecOnStart r =>
      match nth_error (recognitions s) r with
      | Some rec =>
          match rstate rec with RecActive => onstart s | _ => s end
      | None => s
      end
  | RecOnResult r results =>
      match nth_error (recognitions s) r with
      | Some rec =>
          match rstate rec with
          | RecActive => onresult r rec results s
          | _ => s
          end
      | None => s
      end
  | RecOnError r err =>
      match nth_error (recognitions s) r with
      | Some _ => onerror err s
      | None => s
      end
  | RecOnEnd r =>
      match nth_error (recognitions s) r with
      | Some rec =>
          match rstate rec with
          | RecIdle => s
          | _ => onend r rec (update_rec r (set_rstate RecIdle) s)
          end
      | None => s
      end
  | UttOnBoundary u name charIndex =>
      match nth_error (utterances s) u with
      | Some ut =>
          if terminated ut then s else onboundary u ut name charIndex s
      | None => s
      end
  | UttOnEnd u =>
      match nth_error (utterances s) u with
      | Some ut =>
          if terminated ut then s
          else s |> update_utt u (set_terminated true)
                 |> set_synthQueue
                      (filter (fun v => negb (v =? u)) (synthQueue s))
                 |> utterance_onend u ut
      | None => s
      end
  | UttOnError u =>
      match nth_error (utterances s) u with
      | Some ut =>
          if terminated ut then s
          else s |> update_utt u (set_terminated true)
                 |> set_synthQueue
                      (filter (fun v => negb (v =? u)) (synthQueue s))
                 |> utterance_onerror u ut
      | None => s
      end
  | Elapse d => elapse d s
  end.

(** The state after a sequence of events. *)
Definition run (es : list Event) (s : Hook) : Hook :=
  fold_left (fun st e => step e st) es s.

(** The states visited by a sequence of events, the first one included. *)
Fixpoint visited (es : list Event) (s : Hook) : list Hook :=
  match es with
  | [] => [s]
  | e :: es' => s :: visited es' (step e s)
  end.

(** ** The voice button of ChatInterface.jsx

    The click handler calls [setVoiceEnabled(!voiceEnabled)], then
    [stopSpeaking()] and [stopListening()] when voice was on, or
    [startListening()] when it was off; the component then renders with
    the new value of [voiceEnabled], which is the [isEnabled] of the
    hook. *)
Definition voice_button (voiceEnabled : bool) : list Event :=
  if voiceEnabled
  then [StopSpeaking; StopListening; SetEnabled false]
  else [StartListening; SetEnabled true].

Definition toggleVoice (s : Hook) : Hook := run (voice_button (isEnabled s)) s.

End VoiceChat.

(* ===================================================================== *)
(** * The streamed reply consumer (ChatInterface.jsx, handleVoiceInput) *)
(* ===================================================================== *)

Module ChatInterface.

Import Js.

Record Message := mkMessage {
  role : string;
  content : string;
  isVoice : bool
}.

(** The [data] member of a control event, with the fields the handler
    reads. *)
Record ControlData := mkControlData {
  quiz : option (list QuizModal.Question);   (* newData.quiz.questions *)
  schedule_msg : option string;              (* newData.schedule_msg *)
  new_badges : list string                   (* newData.new_badges *)
}.

(** What [JSON.parse(line)] gives, seen through the fields the handler
    reads; these fields have the types of the streaming endpoint
    (strings, where they are present). *)
Inductive StreamData :=
| SessionInfo (session_id : option string)   (* type 'session_info' *)
| Response (content : string)                (* type 'response' *)
| Control (data : option ControlData)        (* type 'control' *)
| OtherValue                                 (* a value no branch handles *)
| NullValue.                                 (* null: reading [data.type]
                                                throws *)

(** How the request ends. *)
Inductive Ending :=
| Closed                                     (* [read()] gives [done] *)
| Broken.                                    (* [read()] rejects *)

Inductive Reply :=
| NetworkError                               (* [fetch] rejects *)
| HttpError (errorText : string)             (* [!response.ok] *)
| Body (chunks : list string) (ending : Ending).

(** The state of the component that [handleVoiceInput] touches, and what
    it has written to the console. *)
Record Chat := mkChat {
  messages : list Message;                   (* useState *)
  sessionId : option string;                 (* useState, and its ref *)
  loading : bool;                            (* useState *)
  interimTranscript : string;                (* useState *)
  currentCharIndex : Z;                      (* useState *)
  showQuiz : bool;                           (* useState *)
  quizVoiceInput : option (string * bool);   (* useState *)
  responseToSpeak : option string;           (* useState *)
  speakRequests : list string;               (* setResponseToSpeak(text)
                                                calls, oldest first *)
  quizTimers : list (list QuizModal.Question); (* setTimeout(..., 1000) *)
  warnings : nat;                            (* console.warn calls *)
  errors : nat                               (* console.error calls *)
}.

Definition setMessages (f : list Message -> list Message) (st : Chat)
  : Chat :=
  mkChat (f (messages st)) (sessionId st) (loading st)
    (interimTranscript st) (currentCharIndex st) (showQuiz st)
    (quizVoiceInput st) (responseToSpeak st) (speakRequests st)
    (quizTimers st) (warnings st) (errors st).

Definition setSessionId (v : option string) (st : Chat) : Chat :=
  mkChat (messages st) v (loading st)
    (interimTranscript st) (currentCharIndex st) (showQuiz st)
    (quizVoiceInput st) (responseToSpeak st) (speakRequests st)
    (quizTimers st) (warnings st) (errors st).

Definition setLoading (v : bool) (st : Chat) : Chat :=
  mkChat (messages st) (sessionId st) v
    (interimTranscript st) (currentCharIndex st) (showQuiz st)
    (quizVoiceInput st) (responseToSpeak st) (speakRequests st)
    (quizTimers st) (warnings st) (errors st).

Definition setInterimTranscript (v : string) (st : Chat) : Chat :=
  mkChat (messages st) (sessionId st) (loading st)
    v (currentCharIndex st) (showQuiz st)
    (quizVoiceInput st) (responseToSpeak st) (speakRequests st)
    (quizTimers st) (warnings st) (errors st).

Definition setCurrentCharIndex (v : Z) (st : Chat) : Chat :=
  mkChat (messages st) (sessionId st) (loading st)
    (interimTranscript st) v (showQuiz st)
    (quizVoiceInput st) (responseToSpeak st) (speakRequests st)
    (quizTimers st) (warnings st) (errors st).

Definition setQuizVoiceInput (v : option (string * bool)) (st : Chat)
  : Chat :=
  mkChat (messages st) (sessionId st) (loading st)
    (interimTranscript st) (currentCharIndex st) (showQuiz st)
    v (responseToSpeak st) (speakRequests st)
    (quizTimers st) (warnings st) (errors st).

Definition setResponseToSpeak (text : string) (st : Chat) : Chat :=
  mkChat (messages st) (sessionId st) (loading st)
    (interimTranscript st) (currentCharIndex st) (showQuiz st)
    (quizVoiceInput st) (Some text) (speakRequests st ++ [text])
    (quizTimers st) (warnings st) (errors st).

Definition setQuizTimer (qs : list QuizModal.Question) (st : Chat) : Chat :=
  mkChat (messages st) (sessionId st) (loading st)
    (interimTranscript st) (currentCharIndex st) (showQuiz st)
    (quizVoiceInput st) (responseToSpeak st) (speakRequests st)
    (quizTimers st ++ [qs]) (warnings st) (errors st).

Definition console_warn (st : Chat) : Chat :=
  mkChat (messages st) (sessionId st) (loading st)
    (interimTranscript st) (currentCharIndex st) (showQuiz st)
    (quizVoiceInput st) (responseToSpeak st) (speakRequests st)
    (quizTimers st) (S (warnings st)) (errors st).

Definition console_error (st : Chat) : Chat :=
  mkChat (messages st) (sessionId st) (loading st)
    (interimTranscript st) (currentCharIndex st) (showQuiz st)
    (quizVoiceInput st) (responseToSpeak st) (speakRequests st)
    (quizTimers st) (warnings st) (S (errors st)).

(** A string is truthy when it is there and not empty. *)
Definition truthy (v : option string) : bool :=
  match v with
  | Some s => negb (is_empty s)
  | None => false
  end.

(** The update of [setMessages] for a schedule message: it is appended
    to the last message when that one is from the assistant. *)
Definition append_schedule (msg : string) (prev : list Message)
  : list Message :=
  match List.rev prev with
  | last :: before =>
      if String.eqb (role last) "assistant"
      then (List.rev before
            ++ [mkMessage (role last) (content last ++ msg) (isVoice last)])
           %list
      else prev
  | [] => prev
  end.

(** The branches on [data.type], inside the [try] of one line.  [None]:
    a read threw. *)
Definition handle_data (currentSessionId : option string)
  (data : StreamData) (st : Chat) : option Chat :=
  match data with
  | NullValue => None
  | OtherValue => Some st
  | SessionInfo session_id =>
      if truthy session_id && negb (truthy currentSessionId)
      then Some (setSessionId session_id st)
      else Some st
  | Response aiResponseText =>
      Some (setResponseToSpeak aiResponseText
              (setMessages
                 (fun prev =>
                    (prev ++ [mkMessage "assistant" aiResponseText true])%list)
                 st))
  | Control None => None
  | Control (Some newData) =>
      let st := match quiz newData with
                | Some questions => setQuizTimer questions st
                | None => st
                end in
      let st := match schedule_msg newData with
                | Some msg =>
                    if negb (is_empty msg)
                    then setMessages (append_schedule msg) st
                    else st
                | None => st
                end in
      Some st
  end.

Definition fallback : string :=
  "Sorry, I couldn't process that. Please try again!".

(** The error branch of the update in the [catch]. *)
Definition append_fallback (st : Chat) : Chat :=
  setMessages
    (fun prev => (prev ++ [mkMessage "assistant" fallback false])%list)
    (setResponseToSpeak fallback st).

(** The [catch] of [handleVoiceInput]. *)
Definition on_failure (st : Chat) : Chat :=
  let st := console_error st in
  match List.rev (messages st) with
  | lastMsg :: _ =>
      if String.eqb (role lastMsg) "assistant"
         && (0 <? String.length (content lastMsg))
      then st
      else append_fallback st
  | [] => append_fallback st
  end.

Section Consumer.

(** [JSON.parse], the host function: [None] when it throws. *)
Variable JSON_parse : string -> option StreamData.

(** The body of [for (const line of lines)]. *)
Definition handle_line (currentSessionId : option string) (line : string)
  (st : Chat) : Chat :=
  if is_empty (trim line) then st
  else
    match JSON_parse line with
    | Some data =>
        match handle_data currentSessionId data st with
        | Some st' => st'
        | None => console_warn st
        end
    | None => console_warn st
    end.

(** One round of [while (true)]: a chunk is split into lines, which are
    handled in order. *)
Definition handle_chunk (currentSessionId : option string) (chunk : string)
  (st : Chat) : Chat :=
  fold_left (fun acc line => handle_line currentSessionId line acc)
            (split "010" chunk) st.

Definition read_loop (currentSessionId : option string)
  (chunks : list string) (st : Chat) : Chat :=
  fold_left (fun acc chunk => handle_chunk currentSessionId chunk acc)
            chunks st.

(** [handleVoiceInput(transcript, isFinal)], with the reply the request
    gets. *)
Definition handleVoiceInput (transcript : string) (isFinal : bool)
  (reply : Reply) (st : Chat) : Chat :=
  if showQuiz st then setQuizVoiceInput (Some (transcript, isFinal)) st
  else if negb isFinal then setInterimTranscript transcript st
  else
    let st := setInterimTranscript EmptyString st in
    let st := setLoading true st in
    let st := setMessages
                (fun prev =>
                   (prev ++ [mkMessage "user" transcript false])%list)
                st in
    let st := setCurrentCharIndex (-1) st in
    let currentSessionId := sessionId st in
    let st :=
      match reply with
      | NetworkError => on_failure st
      | HttpError _ => on_failure st
      | Body chunks Closed => read_loop currentSessionId chunks st
      | Body chunks Broken =>
          on_failure (read_loop currentSessionId chunks st)
      end in
    setLoading false st.

End Consumer.

(** ** A reader for the lines of the examples

    It reads one flat JSON object whose members are strings without
    escapes, [{"type":"response","content":"..."}], and refuses any other
    text. *)






End ChatInterface.

(* ===================================================================== *)
(** * Properties of the quiz component *)
(* ===================================================================== *)

Import Js.
Import QuizModal.

(** ** Submitting *)

Definition answered (a : string) : Prop := is_empty (trim a) = false.

Definition unanswered (a : string) : Prop := is_empty (trim a) = true.

(** [i] is the position of the first entry of [l] that is empty after
    trimming. *)
Definition first_unanswered (l : list string) (i : nat) : Prop :=
  (exists a, nth_error l i = Some a /\ unanswered a)
  /\ forall j b, j < i -> nth_error l j = Some b -> answered b.

Lemma findIndex_blank_None (l : list string) :
  findIndex_blank l = None <-> Forall answered l.
Proof.
  induction l as [|a l IH]; simpl.
  - split; intros; [constructor | reflexivity].
  - destruct (is_empty (trim a)) eqn:E.
    + split; [discriminate |].
      intros H. inversion H; subst. unfold answered in *. congruence.
    + destruct (findIndex_blank l) as [i|]; simpl.
      * split; [discriminate |].
        intros H. inversion H; subst.
        destruct IH as [_ IH]. specialize (IH H3). discriminate.
      * split; [| reflexivity].
        intros _. constructor; [exact E | now apply IH].
Qed.

Lemma findIndex_blank_Some (l : list string) (i : nat) :
  findIndex_blank l = Some i -> first_unanswered l i.
Proof.
  revert i. induction l as [|a l IH]; simpl; intros i H; [discriminate |].
  destruct (is_empty (trim a)) eqn:E.
  - inversion H; subst. split.
    + exists a. split; [reflexivity | exact E].
    + intros j b Hj. lia.
  - destruct (findIndex_blank l) as [k|]; simpl in H; [| discriminate].
    inversion H; subst. destruct (IH k eq_refl) as [[b [Hb Ub]] Hlt].
    split.
    + exists b. split; [exact Hb | exact Ub].
    + intros j c Hj Hc. destruct j as [|j]; simpl in Hc.
      * inversion Hc; subst. exact E.
      * apply (Hlt j c); [lia | exact Hc].
Qed.

(** C10.  [handleSubmit] calls [onSubmit], with the answers, exactly when
    every entry of [answers] is non-empty after trimming; when some entry
    is empty it does not call [onSubmit], leaves [answers] as they are and
    sets the current question to the first unanswered one. *)
Theorem handleSubmit_calls_onSubmit_iff_all_answered (st : Quiz) :
  (submitted (handleSubmit st) = (submitted st ++ [answers st])%list
   <-> Forall answered (answers st))
  /\ (submitted (handleSubmit st) = submitted st
      <-> Exists unanswered (answers st))
  /\ answers (handleSubmit st) = answers st
  /\ (Exists unanswered (answers st) ->
      first_unanswered (answers st) (currentQuestion (handleSubmit st))).
Proof.
  unfold handleSubmit.
  destruct (findIndex_blank (answers st)) as [i|] eqn:E.
  - pose proof (findIndex_blank_Some _ _ E) as Hfirst.
    assert (Hex : Exists unanswered (answers st)).
    { destruct Hfirst as [[a [Ha Ua]] _]. apply Exists_exists.
      exists a. split; [eapply nth_error_In; eassumption | exact Ua]. }
    assert (Hnot : ~ Forall answered (answers st)).
    { intros HF. apply findIndex_blank_None in HF. congruence. }
    simpl. split; [| split; [| split]].
    + split; [| intros H; contradiction].
      intros H. exfalso.
      assert (L : List.length (submitted st)
                  = List.length (submitted st ++ [answers st])%list)
        by (rewrite <- H; reflexivity).
      rewrite length_app in L. simpl in L. lia.
    + split; auto.
    + reflexivity.
    + intros _. exact Hfirst.
  - pose proof (proj1 (findIndex_blank_None _) E) as HF.
    assert (Hnot : ~ Exists unanswered (answers st)).
    { intros Hex. apply Exists_exists in Hex.
      destruct Hex as [a [Hin Ua]].
      rewrite Forall_forall in HF. specialize (HF a Hin).
      unfold answered, unanswered in *. congruence. }
    simpl. split; [| split; [| split]].
    + split; auto.
    + split; [| intros H; contradiction].
      intros H. exfalso.
      assert (L : List.length (submitted st ++ [answers st])%list
                  = List.length (submitted st))
        by (rewrite H; reflexivity).
      rewrite length_app in L. simpl in L. lia.
    + reflexivity.
    + intros H. contradiction.
Qed.

(** ** Navigation by voice *)

(** The condition of the first branch of [processVoiceCommand]. *)
Definition forward_command (lower : string) : bool :=
  String.eqb lower "next" || includes lower "next question"
  || includes lower "go forward".

(** One step forward, stopping at the last question. *)
Definition next_index (n current : nat) : nat :=
  if S current <? n then S current else current.

Lemma handleNext_index (st : Quiz) :
  currentQuestion (handleNext st)
  = next_index (List.length (questions st)) (currentQuestion st).
Proof.
  unfold handleNext, next_index.
  destruct (Z.ltb_spec (Z.of_nat (currentQuestion st))
                       (Z.of_nat (List.length (questions st)) - 1)) as [H|H];
    destruct (Nat.ltb_spec (S (currentQuestion st))
                           (List.length (questions st))) as [G|G];
    simpl; try reflexivity; lia.
Qed.

Lemma handleNext_answers (st : Quiz) : answers (handleNext st) = answers st.
Proof.
  unfold handleNext.
  destruct (_ <? _)%Z; reflexivity.
Qed.

(** A quiz of three questions, the second one on screen. *)
Definition capitals : Question :=
  mkQuestion "What is the capital of France?" "multiple_choice"
    ["A) Paris"; "B) London"; "C) Berlin"; "D) Madrid"].

Definition mid_quiz : Quiz :=
  setCurrentQuestion (fun _ => 1) (initial [capitals; capitals; capitals] true).

(** C8, as the spec states it, fails: ["next please"] is none of the
    navigation commands.  In a quiz of three questions with the second one
    on screen the transcript leaves the index at 1 (a step forward would
    give 2) and is reported as not understood. *)
Lemma next_please_is_not_a_command :
  forward_command (normalize "next please") = false
  /\ next_index 3 1 = 2
  /\ option_map currentQuestion (processVoiceCommand "next please" mid_quiz)
     = Some 1
  /\ processVoiceCommand "next please" mid_quiz
     = Some (setVoiceFeedback unrecognized_feedback mid_quiz).
Proof. repeat split; vm_compute; reflexivity. Qed.

(** C8, amended.  A transcript that is ["next"] once lower-cased, stripped
    of punctuation and trimmed, or that contains ["next question"] or
    ["go forward"], is the forward command: the router runs [handleNext],
    which moves the current question one step forward, stays on the last
    question, and leaves the answers alone. *)
Theorem next_command_moves_one_step (transcript : string) (st : Quiz) :
  forward_command (normalize transcript) = true ->
  processVoiceCommand transcript st = Some (handleNext st)
  /\ currentQuestion (handleNext st)
     = next_index (List.length (questions st)) (currentQuestion st)
  /\ answers (handleNext st) = answers st.
Proof.
  intros H. split; [| split].
  - unfold processVoiceCommand. unfold forward_command in H.
    rewrite H. reflexivity.
  - apply handleNext_index.
  - apply handleNext_answers.
Qed.

Lemma next_command_moves_one_step_witness :
  forward_command (normalize "Next!") = true
  /\ option_map currentQuestion (processVoiceCommand "Next!" mid_quiz)
     = Some 2.
Proof.
  split; [reflexivity |].
  destruct (next_command_moves_one_step "Next!" mid_quiz eq_refl)
    as [H [I _]].
  rewrite H. unfold option_map. rewrite I. reflexivity.
Defined.

(** ** Answers by voice *)

Definition select (letter : string) (st : Quiz) : Quiz :=
  setVoiceFeedback ("Selected: " ++ letter ++ " ")
    (handleAnswerChange (currentQuestion st) letter st).

Lemma answer_branch (transcript : string) (st : Quiz) (q : Question) :
  forward_command (normalize transcript) = false ->
  (String.eqb (normalize transcript) "previous"
   || String.eqb (normalize transcript) "back"
   || includes (normalize transcript) "go back") = false ->
  (String.eqb (normalize transcript) "submit"
   || includes (normalize transcript) "submit quiz"
   || includes (normalize transcript) "finish"
   || includes (normalize transcript) "done") = false ->
  (includes (normalize transcript) "repeat"
   || includes (normalize transcript) "read again"
   || String.eqb (normalize transcript) "read") = false ->
  nth_error (questions st) (currentQuestion st) = Some q ->
  type q = "multiple_choice" ->
  processVoiceCommand transcript st
  = Some (report q (detect_multiple_choice (normalize transcript) (options q))
            st).
Proof.
  intros H1 H2 H3 H4 Hq Ht. unfold processVoiceCommand.
  unfold forward_command in H1. rewrite H1, H2, H3, H4, Hq, Ht.
  reflexivity.
Qed.

(** C6.  With the options ["A) Paris"], ["B) London"], ["C) Berlin"],
    ["D) Madrid"] of a multiple choice question on screen, ["I think it's
    paris"] selects the answer A, ["option b"] selects the answer B, and
    ["purple monkey dishwasher"] sets no answer and asks to say it again. *)
Theorem capitals_voice_answers (st : Quiz) (q : Question) :
  nth_error (questions st) (currentQuestion st) = Some q ->
  type q = "multiple_choice" ->
  options q = ["A) Paris"; "B) London"; "C) Berlin"; "D) Madrid"] ->
  processVoiceCommand "I think it's paris" st = Some (select "A" st)
  /\ processVoiceCommand "option b" st = Some (select "B" st)
  /\ processVoiceCommand "purple monkey dishwasher" st
     = Some (setVoiceFeedback unrecognized_feedback st)
  /\ answers (setVoiceFeedback unrecognized_feedback st) = answers st.
Proof.
  intros Hq Ht Ho. repeat split.
  - rewrite (answer_branch _ st q) by (try reflexivity; assumption).
    rewrite Ho. unfold report. rewrite Ht. reflexivity.
  - rewrite (answer_branch _ st q) by (try reflexivity; assumption).
    rewrite Ho. unfold report. rewrite Ht. reflexivity.
  - rewrite (answer_branch _ st q) by (try reflexivity; assumption).
    rewrite Ho. unfold report. rewrite Ht. reflexivity.
Qed.

Lemma capitals_voice_answers_witness :
  option_map answers (processVoiceCommand "I think it's paris" mid_quiz)
  = Some [EmptyString; "A"; EmptyString]
  /\ option_map answers (processVoiceCommand "option b" mid_quiz)
     = Some [EmptyString; "B"; EmptyString]
  /\ option_map answers
       (processVoiceCommand "purple monkey dishwasher" mid_quiz)
     = Some [EmptyString; EmptyString; EmptyString].
Proof.
  destruct (capitals_voice_answers mid_quiz capitals eq_refl eq_refl eq_refl)
    as [A [B [C _]]].
  rewrite A, B, C. repeat split.
Defined.

(** ** Fuzzy matching and its tie-break *)

(** The similarity of the transcript and the text of an option. *)
Definition score (lower opt : string) : Q :=
  calculateSimilarity lower (optionText opt).

(** The containment test of the loop. *)
Definition contained (lower opt : string) : bool :=
  includes lower (optionText opt) && (2 <? String.length (optionText opt)).

Lemma Qgtb_true (a b : Q) : Qgtb a b = true <-> (b < a)%Q.
Proof.
  unfold Qgtb. rewrite Qgt_alt.
  destruct (a ?= b)%Q; split; intros H; congruence.
Qed.

Lemma Qgtb_false (a b : Q) : Qgtb a b = false <-> (a <= b)%Q.
Proof.
  split; intros H.
  - apply Qnot_lt_le. intros L. apply Qgtb_true in L. congruence.
  - destruct (Qgtb a b) eqn:E; [| reflexivity].
    apply Qgtb_true in E. exfalso. exact (Qlt_not_le _ _ E H).
Qed.

Lemma calculateSimilarity_le_1 (s1 s2 : string) :
  (calculateSimilarity s1 s2 <= 1)%Q.
Proof.
  unfold calculateSimilarity.
  set (longer := if String.length s2 <? String.length s1 then s1 else s2).
  set (shorter := if String.length s2 <? String.length s1 then s2 else s1).
  destruct (Nat.eqb_spec (String.length longer) 0) as [E|E].
  - apply Qle_refl.
  - unfold Qle. simpl.
    rewrite Z.mul_1_r.
    assert (H : Z.pos (Pos.of_nat (String.length longer))
                = Z.of_nat (String.length longer)).
    { destruct (String.length longer) as [|n]; [congruence |].
      rewrite <- Pos.of_nat_succ, Zpos_P_of_succ_nat, Nat2Z.inj_succ.
      reflexivity. }
    rewrite H. lia.
Qed.

(** A step of the loop on an option the transcript does not contain. *)
Lemma fuzzy_step_plain (lower opt : string) (b : Q) (m : option string) :
  contained lower opt = false ->
  fuzzy_step lower (b, m) opt
  = if Qgtb (score lower opt) b then (score lower opt, first_char opt)
    else (b, m).
Proof.
  intros H. unfold fuzzy_step. fold (score lower opt).
  unfold contained in H.
  destruct (Qgtb (score lower opt) b); rewrite H; reflexivity.
Qed.

(** A step of the loop on an option the transcript contains. *)
Lemma fuzzy_step_contained (lower opt : string) (best : Q * option string) :
  contained lower opt = true ->
  fuzzy_step lower best opt = (1%Q, first_char opt).
Proof.
  intros H. unfold fuzzy_step. destruct best as [b m].
  fold (score lower opt). unfold contained in H.
  destruct (Qgtb (score lower opt) b); rewrite H; reflexivity.
Qed.

(** Options that do not beat the best so far leave it in place. *)
Lemma fuzzy_fold_keeps (lower : string) (post : list string) (b : Q)
  (m : option string) :
  (forall o, In o post -> contained lower o = false) ->
  (forall o, In o post -> (score lower o <= b)%Q) ->
  fold_left (fuzzy_step lower) post (b, m) = (b, m).
Proof.
  induction post as [|o post IH]; intros Hc Hs; [reflexivity |].
  cbn [fold_left]. rewrite fuzzy_step_plain by (apply Hc; now left).
  assert (E : Qgtb (score lower o) b = false)
    by (apply Qgtb_false, Hs; now left).
  rewrite E. apply IH; intros; [apply Hc | apply Hs]; now right.
Qed.

(** Options below a bound keep the best so far below that bound. *)
Lemma fuzzy_fold_below (lower : string) (pre : list string) (bound b : Q)
  (m : option string) :
  (forall o, In o pre -> contained lower o = false) ->
  (forall o, In o pre -> (score lower o < bound)%Q) ->
  (b < bound)%Q ->
  exists b' m', fold_left (fuzzy_step lower) pre (b, m) = (b', m')
                /\ (b' < bound)%Q.
Proof.
  revert b m. induction pre as [|o pre IH]; intros b m Hc Hs Hb.
  - exists b, m. split; [reflexivity | exact Hb].
  - cbn [fold_left]. rewrite fuzzy_step_plain by (apply Hc; now left).
    destruct (Qgtb (score lower o) b).
    + apply IH; [intros; apply Hc; now right
                | intros; apply Hs; now right | apply Hs; now left].
    + apply IH; [intros; apply Hc; now right
                | intros; apply Hs; now right | exact Hb].
Qed.

(** C7, as the spec states it, fails when the transcript contains the text
    of two options: the first one reaches the winning score 1 and is the
    best after its step, the later one does not exceed that score and
    replaces it all the same. *)
Lemma later_contained_option_wins_a_tie :
  fuzzy_step "cat and dog" (0%Q, None) "A) cat" = (1%Q, Some "A")
  /\ Qgtb (score "cat and dog" "B) dog") 1 = false
  /\ fuzzy_best "cat and dog" ["A) cat"; "B) dog"] = (1%Q, Some "B")
  /\ fuzzy_match "cat and dog" ["A) cat"; "B) dog"] = Some "B".
Proof. repeat split; vm_compute; reflexivity. Qed.

(** C7, amended.  Among options whose text the transcript does not contain
    (or whose text has at most two characters) the loop keeps the first
    option that reaches the highest similarity: a later option replaces
    the best one only when its similarity is strictly greater.  An option
    whose text the transcript contains becomes the best one with the score
    1 whatever the best score was, so of several contained options the
    last one is selected. *)
Theorem fuzzy_tie_break (lower : string) (pre post : list string)
  (opt : string) :
  (forall o, In o post -> contained lower o = false) ->
  ((forall o, In o pre -> contained lower o = false) ->
   contained lower opt = false ->
   (0 < score lower opt)%Q ->
   (forall o, In o pre -> (score lower o < score lower opt)%Q) ->
   (forall o, In o post -> (score lower o <= score lower opt)%Q) ->
   fuzzy_best lower (pre ++ opt :: post)
   = (score lower opt, first_char opt))
  /\ (contained lower opt = true ->
      fuzzy_best lower (pre ++ opt :: post) = (1%Q, first_char opt)).
Proof.
  intros Hpost. unfold fuzzy_best. split.
  - intros Hpre Hopt Hpos Hlt Hle.
    rewrite fold_left_app. cbn [fold_left].
    destruct (fuzzy_fold_below lower pre (score lower opt) 0%Q None
                Hpre Hlt Hpos) as [b' [m' [E Hb']]].
    rewrite E. rewrite fuzzy_step_plain by exact Hopt.
    apply Qgtb_true in Hb'. rewrite Hb'.
    apply fuzzy_fold_keeps; assumption.
  - intros Hopt. rewrite fold_left_app. cbn [fold_left].
    rewrite fuzzy_step_contained by exact Hopt.
    apply fuzzy_fold_keeps; [assumption |].
    intros o _. apply calculateSimilarity_le_1.
Qed.

Lemma no_option_in_nil (lower : string) :
  forall o : string, In o [] -> contained lower o = false.
Proof. intros o H. destruct H. Qed.

Lemma fuzzy_tie_break_witness :
  fuzzy_best "cat" ([] ++ "A) cab" :: ["B) cap"])
  = (score "cat" "A) cab", Some "A")
  /\ (score "cat" "B) cap" == score "cat" "A) cab")%Q
  /\ contained "paris or london" "B) London" = true
  /\ fuzzy_best "paris or london" (["A) Paris"] ++ "B) London" :: [])
     = (1%Q, Some "B").
Proof.
  split; [| split; [reflexivity | split; [reflexivity |]]].
  - apply (proj1 (fuzzy_tie_break "cat" [] ["B) cap"] "A) cab"
                    (fun o H => match H with
                                | or_introl E =>
                                    eq_ind "B) cap"
                                      (fun x => contained "cat" x = false)
                                      eq_refl o E
                                | or_intror F => match F with end
                                end))).
    + intros o [].
    + reflexivity.
    + reflexivity.
    + intros o [].
    + intros o [<- | []]. vm_compute. discriminate.
  - exact (proj2 (fuzzy_tie_break "paris or london" ["A) Paris"] []
                    "B) London" (no_option_in_nil _))
                 eq_refl).
Defined.

(* ===================================================================== *)
(** * Further properties of the quiz component *)
(* ===================================================================== *)

(** ** The array of answers *)

Lemma array_set_in_range {A : Type} (d : A) (i : nat) (v : A)
  (arr : list A) :
  i < List.length arr ->
  array_set d i v arr = (firstn i arr ++ v :: skipn (S i) arr)%list.
Proof.
  intros H. unfold array_set.
  destruct (Nat.ltb_spec i (List.length arr)); [reflexivity | lia].
Qed.

Lemma array_set_length {A : Type} (d : A) (i : nat) (v : A) (arr : list A) :
  i < List.length arr ->
  List.length (array_set d i v arr) = List.length arr.
Proof.
  intros H. rewrite array_set_in_range by exact H.
  rewrite length_app, length_firstn. cbn [List.length].
  rewrite length_skipn. lia.
Qed.

Lemma array_set_lookup {A : Type} (d : A) (i : nat) (v : A) (arr : list A) :
  i < List.length arr ->
  nth_error (array_set d i v arr) i = Some v.
Proof.
  intros H. rewrite array_set_in_range by exact H.
  rewrite nth_error_app2; rewrite length_firstn; [| lia].
  replace (i - Nat.min i (List.length arr)) with 0 by lia. reflexivity.
Qed.

Lemma array_set_other {A : Type} (d : A) (i j : nat) (v : A)
  (arr : list A) :
  i < List.length arr -> j <> i ->
  nth_error (array_set d i v arr) j = nth_error arr j.
Proof.
  intros H N. rewrite array_set_in_range by exact H.
  destruct (Nat.lt_ge_cases j i) as [L|G].
  - rewrite nth_error_app1 by (rewrite length_firstn; lia).
    rewrite nth_error_firstn.
    destruct (Nat.ltb_spec j i); [reflexivity | lia].
  - rewrite nth_error_app2 by (rewrite length_firstn; lia).
    rewrite length_firstn.
    replace (j - Nat.min i (List.length arr)) with (S (j - S i)) by lia.
    cbn [nth_error]. rewrite nth_error_skipn. f_equal. lia.
Qed.

Lemma array_set_twice {A : Type} (d : A) (i : nat) (v w : A)
  (arr : list A) :
  i < List.length arr ->
  array_set d i w (array_set d i v arr) = array_set d i w arr.
Proof.
  intros H.
  rewrite (array_set_in_range d i w (array_set d i v arr))
    by (rewrite array_set_length; exact H).
  rewrite !array_set_in_range by exact H.
  assert (L : List.length (firstn i arr) = i)
    by (rewrite length_firstn; lia).
  rewrite firstn_app, L, Nat.sub_diag, firstn_firstn, Nat.min_id.
  cbn [firstn]. rewrite app_nil_r. f_equal. f_equal.
  rewrite skipn_app, L.
  replace (S i - i) with 1 by lia.
  rewrite (skipn_all2 (firstn i arr)) by (rewrite L; lia).
  reflexivity.
Qed.

(** X1.  [handleAnswerChange] on a question of the quiz stores the value in
    the slot of that question, leaves the other slots and the number of
    slots as they are, touches nothing else of the component, and a later
    change of the same slot replaces the earlier one. *)
Theorem handleAnswerChange_sets_one_slot (index : nat) (value : string)
  (st : Quiz) :
  index < List.length (answers st) ->
  let st' := handleAnswerChange index value st in
  nth_error (answers st') index = Some value
  /\ (forall j, j <> index ->
                nth_error (answers st') j = nth_error (answers st) j)
  /\ List.length (answers st') = List.length (answers st)
  /\ (questions st', currentQuestion st', voiceFeedback st',
      hasSpokenRef st', spoken st', submitted st')
     = (questions st, currentQuestion st, voiceFeedback st,
        hasSpokenRef st, spoken st, submitted st)
  /\ forall later, handleAnswerChange index later st'
                   = handleAnswerChange index later st.
Proof.
  intros H. unfold handleAnswerChange, setAnswers. simpl.
  split; [apply array_set_lookup, H |].
  split; [intros j N; apply array_set_other; assumption |].
  split; [apply array_set_length, H |].
  split; [reflexivity |].
  intros later. rewrite array_set_twice by exact H. reflexivity.
Qed.

Lemma handleAnswerChange_sets_one_slot_witness :
  nth_error
    (answers (handleAnswerChange 1 "B" (initial [capitals; capitals] true)))
    1 = Some "B".
Proof.
  exact (proj1 (handleAnswerChange_sets_one_slot 1 "B"
                  (initial [capitals; capitals] true) (le_n 2))).
Defined.


(** ** Navigation *)

Lemma handleNext_questions (st : Quiz) :
  questions (handleNext st) = questions st.
Proof. unfold handleNext. destruct (_ <? _)%Z; reflexivity. Qed.

Lemma handlePrevious_index (st : Quiz) :
  currentQuestion (handlePrevious st) = Nat.pred (currentQuestion st).
Proof.
  unfold handlePrevious.
  destruct (Nat.ltb_spec 0 (currentQuestion st)) as [H|H]; simpl;
    [reflexivity | lia].
Qed.

Lemma handlePrevious_answers (st : Quiz) :
  answers (handlePrevious st) = answers st.
Proof. unfold handlePrevious. destruct (_ <? _); reflexivity. Qed.

Lemma handlePrevious_questions (st : Quiz) :
  questions (handlePrevious st) = questions st.
Proof. unfold handlePrevious. destruct (_ <? _); reflexivity. Qed.

Lemma iter_handleNext (n : nat) (st : Quiz) :
  questions (Nat.iter n handleNext st) = questions st
  /\ answers (Nat.iter n handleNext st) = answers st
  /\ (currentQuestion st < List.length (questions st) ->
      currentQuestion (Nat.iter n handleNext st)
      = Nat.min (currentQuestion st + n) (List.length (questions st) - 1)).
Proof.
  induction n as [|n [Q [A I]]]; simpl.
  - repeat split. intros H. lia.
  - rewrite handleNext_questions, handleNext_answers, handleNext_index.
    split; [exact Q |]. split; [exact A |].
    intros H. rewrite Q, (I H). unfold next_index.
    destruct (Nat.ltb_spec
                (S (Nat.min (currentQuestion st + n)
                      (List.length (questions st) - 1)))
                (List.length (questions st))); lia.
Qed.

Lemma iter_handlePrevious (n : nat) (st : Quiz) :
  questions (Nat.iter n handlePrevious st) = questions st
  /\ answers (Nat.iter n handlePrevious st) = answers st
  /\ currentQuestion (Nat.iter n handlePrevious st) = currentQuestion st - n.
Proof.
  induction n as [|n [Q [A I]]]; simpl.
  - repeat split. lia.
  - rewrite handlePrevious_questions, handlePrevious_answers,
      handlePrevious_index.
    split; [exact Q |]. split; [exact A |]. rewrite I. lia.
Qed.

(** X2.  [handleNext] and [handlePrevious] compose as steps on the index
    that stop at the two ends: [n] steps forward from a question of the quiz
    lead to question [min (current + n) (last)], [n] steps back to question
    [current - n] or to the first one, a step back undoes a step forward
    that moved, and none of them touches the answers. *)
Theorem navigation_stops_at_the_ends (n : nat) (st : Quiz) :
  currentQuestion st < List.length (questions st) ->
  currentQuestion (Nat.iter n handleNext st)
  = Nat.min (currentQuestion st + n) (List.length (questions st) - 1)
  /\ currentQuestion (Nat.iter n handlePrevious st) = currentQuestion st - n
  /\ (S (currentQuestion st) < List.length (questions st) ->
      currentQuestion (handlePrevious (handleNext st)) = currentQuestion st)
  /\ answers (Nat.iter n handleNext st) = answers st
  /\ answers (Nat.iter n handlePrevious st) = answers st.
Proof.
  intros H.
  destruct (iter_handleNext n st) as [_ [A I]].
  destruct (iter_handlePrevious n st) as [_ [A' I']].
  split; [exact (I H) |]. split; [exact I' |].
  split; [| split; [exact A | exact A']].
  intros L. rewrite handlePrevious_index, handleNext_index.
  unfold next_index.
  destruct (Nat.ltb_spec (S (currentQuestion st))
                         (List.length (questions st))); [reflexivity | lia].
Qed.

Lemma navigation_stops_at_the_ends_witness :
  currentQuestion (Nat.iter 5 handleNext mid_quiz) = 2
  /\ currentQuestion (Nat.iter 5 handlePrevious mid_quiz) = 0.
Proof.
  destruct (navigation_stops_at_the_ends 5 mid_quiz (le_S 2 2 (le_n 2)))
    as [F [B _]].
  split; [exact F | exact B].
Defined.

(** ** The index and the answers stay in step with the questions *)

(** The question on screen is one of the quiz, and there is one answer
    slot per question. *)
Definition in_step (st : Quiz) : Prop :=
  currentQuestion st < List.length (questions st)
  /\ List.length (answers st) = List.length (questions st).

Lemma findIndex_blank_lt (l : list string) (i : nat) :
  findIndex_blank l = Some i -> i < List.length l.
Proof.
  intros H. apply findIndex_blank_Some in H.
  destruct H as [[a [Ha _]] _].
  apply nth_error_Some. congruence.
Qed.

Lemma in_step_handleNext (st : Quiz) : in_step st -> in_step (handleNext st).
Proof.
  intros [I A]. unfold in_step.
  rewrite handleNext_index, handleNext_questions, handleNext_answers.
  split; [| exact A]. unfold next_index.
  destruct (Nat.ltb_spec (S (currentQuestion st))
                         (List.length (questions st))); lia.
Qed.

Lemma in_step_handlePrevious (st : Quiz) :
  in_step st -> in_step (handlePrevious st).
Proof.
  intros [I A]. unfold in_step.
  rewrite handlePrevious_index, handlePrevious_questions,
    handlePrevious_answers.
  split; [lia | exact A].
Qed.

Lemma in_step_handleSubmit (st : Quiz) :
  in_step st -> in_step (handleSubmit st).
Proof.
  intros [I A]. unfold in_step, handleSubmit.
  destruct (findIndex_blank (answers st)) as [i|] eqn:E; simpl.
  - apply findIndex_blank_lt in E. split; [lia | exact A].
  - split; assumption.
Qed.

Lemma in_step_handleAnswerChange (value : string) (st : Quiz) :
  in_step st -> in_step (handleAnswerChange (currentQuestion st) value st).
Proof.
  intros [I A]. unfold in_step, handleAnswerChange. simpl.
  rewrite array_set_length by lia. split; assumption.
Qed.

Lemma in_step_report (q : Question) (d : option string) (st : Quiz) :
  in_step st -> in_step (report q d st).
Proof.
  intros H. pose proof H as [I A]. unfold report.
  destruct d as [a|].
  - destruct (truthy (Some a)).
    + apply (in_step_handleAnswerChange a) in H. exact H.
    + destruct (negb (String.eqb (type q) "short_answer")); exact H.
  - destruct (negb (String.eqb (type q) "short_answer")); exact H.
Qed.

Lemma processVoiceCommand_in_step (transcript : string) (st : Quiz) :
  in_step st ->
  exists st', processVoiceCommand transcript st = Some st' /\ in_step st'.
Proof.
  intros H. pose proof H as [I A]. unfold processVoiceCommand.
  destruct (_ || _ || _);
    [eexists; split; [reflexivity | apply in_step_handleNext, H] |].
  destruct (_ || _ || _);
    [eexists; split; [reflexivity | apply in_step_handlePrevious, H] |].
  destruct (_ || _ || _ || _);
    [eexists; split; [reflexivity | apply in_step_handleSubmit, H] |].
  destruct (nth_error (questions st) (currentQuestion st)) as [q|] eqn:Q;
    [| apply nth_error_None in Q; lia].
  destruct (_ || _ || _).
  - simpl. rewrite Q. eexists. split; [reflexivity |].
    destruct (hasSpeak st); exact H.
  - destruct (String.eqb (type q) "multiple_choice");
      [eexists; split; [reflexivity | apply in_step_report, H] |].
    destruct (String.eqb (type q) "true_false");
      [eexists; split; [reflexivity | apply in_step_report, H] |].
    destruct (String.eqb (type q) "short_answer");
      [| eexists; split; [reflexivity | apply in_step_report, H]].
    eexists. split; [reflexivity |].
    apply (in_step_handleAnswerChange transcript) in H. exact H.
Qed.

Lemma quiz_step_in_step (e : QuizEvent) (st : Quiz) :
  in_step st -> exists st', quiz_step e st = Some st' /\ in_step st'.
Proof.
  intros H. pose proof H as [I A].
  destruct e as [| | |idx|value|text isFinal|]; simpl.
  - eexists; split; [reflexivity | apply in_step_handleNext, H].
  - eexists; split; [reflexivity | apply in_step_handlePrevious, H].
  - eexists; split; [reflexivity | apply in_step_handleSubmit, H].
  - destruct (Nat.ltb_spec idx (List.length (questions st))) as [L|L];
      eexists; (split; [reflexivity |]); [| exact H].
    split; [exact L | exact A].
  - eexists; split; [reflexivity | apply in_step_handleAnswerChange, H].
  - destruct isFinal; [apply processVoiceCommand_in_step, H |].
    eexists; split; [reflexivity | exact H].
  - eexists; split; [reflexivity |].
    unfold autoRead. destruct (negb (hasSpokenRef st)); [| exact H].
    destruct (nth_error (questions st) (currentQuestion st)); [| exact H].
    destruct (hasSpeak st); exact H.
Qed.

Lemma quiz_step_questions (e : QuizEvent) (st st' : Quiz) :
  quiz_step e st = Some st' -> questions st' = questions st.
Proof.
  destruct e as [| | |idx|value|text isFinal|]; simpl; intros H.
  - inversion H. apply handleNext_questions.
  - inversion H. apply handlePrevious_questions.
  - inversion H. unfold handleSubmit.
    destruct (findIndex_blank (answers st)); reflexivity.
  - destruct (idx <? _); inversion H; reflexivity.
  - inversion H. reflexivity.
  - destruct isFinal; [| inversion H; reflexivity].
    unfold processVoiceCommand in H.
    destruct (_ || _ || _);
      [inversion H; apply handleNext_questions |].
    destruct (_ || _ || _);
      [inversion H; apply handlePrevious_questions |].
    destruct (_ || _ || _ || _).
    { inversion H. unfold handleSubmit.
      destruct (findIndex_blank (answers st)); reflexivity. }
    destruct (_ || _ || _).
    { simpl in H.
      destruct (nth_error (questions st) (currentQuestion st));
        [destruct (hasSpeak st) |]; inversion H; reflexivity. }
    destruct (nth_error (questions st) (currentQuestion st)) as [q|];
      [| discriminate].
    assert (R : forall d, questions (report q d st) = questions st).
    { intros d. unfold report. destruct d as [a|];
        [destruct (truthy (Some a)); [reflexivity |] |];
        destruct (negb _); reflexivity. }
    destruct (String.eqb (type q) "multiple_choice");
      [injection H as <-; apply R |].
    destruct (String.eqb (type q) "true_false");
      [injection H as <-; apply R |].
    destruct (String.eqb (type q) "short_answer");
      injection H as <-; [reflexivity | exact (R None)].
  - inversion H. unfold autoRead.
    destruct (negb (hasSpokenRef st)); [| reflexivity].
    destruct (nth_error (questions st) (currentQuestion st));
      [| reflexivity].
    destruct (hasSpeak st); reflexivity.
Qed.

(** X3.  A quiz that has a question never leaves its questions: after any
    sequence of clicks, input changes and runs of the two effects, no
    handler has thrown, the questions are the ones given, the question on
    screen is one of them, and there is one answer slot per question. *)
Theorem quiz_stays_in_step (qs : list Question) (speak : bool)
  (es : list QuizEvent) :
  qs <> [] ->
  exists st,
    quiz_run es (initial qs speak) = Some st
    /\ questions st = qs
    /\ currentQuestion st < List.length qs
    /\ List.length (answers st) = List.length qs.
Proof.
  intros N.
  assert (G : forall st, in_step st ->
                exists st', quiz_run es st = Some st'
                            /\ questions st' = questions st
                            /\ in_step st').
  { induction es as [|e es IH]; intros st H; simpl.
    - exists st. repeat split; apply H.
    - destruct (quiz_step_in_step e st H) as [st1 [E H1]].
      rewrite E. destruct (IH st1 H1) as [st' [R [Q H']]].
      exists st'. split; [exact R |]. split; [| exact H'].
      rewrite Q. apply (quiz_step_questions e), E. }
  destruct (G (initial qs speak)) as [st [R [Q [I A]]]].
  - split; simpl; [| apply repeat_length].
    destruct qs; [contradiction | simpl; lia].
  - exists st. simpl in Q. rewrite Q in I, A. auto.
Qed.

Lemma quiz_stays_in_step_witness :
  exists st,
    quiz_run [VoiceInputEffect "Paris" true; ClickNext; ClickNext;
              VoiceInputEffect "submit" true; AutoReadEffect]
             (initial [capitals; capitals] true) = Some st
    /\ currentQuestion st < 2.
Proof.
  destruct (quiz_stays_in_step [capitals; capitals] true
              [VoiceInputEffect "Paris" true; ClickNext; ClickNext;
               VoiceInputEffect "submit" true; AutoReadEffect])
    as [st [R [_ [I _]]]]; [discriminate |].
  exists st. split; [exact R | exact I].
Defined.


(** ** What a voice command can change *)

Lemma handleSubmit_answers (st : Quiz) : answers (handleSubmit st) = answers st.
Proof.
  unfold handleSubmit. destruct (findIndex_blank (answers st)); reflexivity.
Qed.

Lemma handleSubmit_submitted (st : Quiz) :
  submitted (handleSubmit st) = submitted st
  \/ (submitted (handleSubmit st) = (submitted st ++ [answers st])%list
      /\ Forall answered (answers st)).
Proof.
  unfold handleSubmit.
  destruct (findIndex_blank (answers st)) eqn:E; simpl.
  - left. reflexivity.
  - right. split; [reflexivity | apply findIndex_blank_None, E].
Qed.

(** The end of [processVoiceCommand] either leaves the answers alone or
    stores the detected answer in the slot of the current question; it
    submits nothing. *)
Lemma report_cases (q : Question) (d : option string) (st : Quiz) :
  submitted (report q d st) = submitted st
  /\ (answers (report q d st) = answers st
      \/ exists a, d = Some a
                   /\ answers (report q d st)
                      = array_set EmptyString (currentQuestion st) a
                          (answers st)).
Proof.
  unfold report. destruct d as [a|].
  - destruct (QuizModal.truthy (Some a)).
    + split; [reflexivity |]. right. exists a. split; reflexivity.
    + destruct (negb _); split; try reflexivity; left; reflexivity.
  - destruct (negb _); split; try reflexivity; left; reflexivity.
Qed.

(** What [processVoiceCommand] does to the answers and to the
    submissions, branch by branch. *)
Lemma processVoiceCommand_cases (transcript : string) (st st' : Quiz) :
  processVoiceCommand transcript st = Some st' ->
  (answers st' = answers st
   /\ (submitted st' = submitted st
       \/ (submitted st' = (submitted st ++ [answers st])%list
           /\ Forall answered (answers st))))
  \/ (submitted st' = submitted st
      /\ exists q a,
           nth_error (questions st) (currentQuestion st) = Some q
           /\ answers st'
              = array_set EmptyString (currentQuestion st) a (answers st)
           /\ ((String.eqb (type q) "multiple_choice" = true
                /\ detect_multiple_choice (normalize transcript) (options q)
                   = Some a)
               \/ (String.eqb (type q) "multiple_choice" = false
                   /\ String.eqb (type q) "true_false" = true
                   /\ detect_true_false (normalize transcript) = Some a)
               \/ (String.eqb (type q) "multiple_choice" = false
                   /\ String.eqb (type q) "true_false" = false
                   /\ String.eqb (type q) "short_answer" = true
                   /\ a = transcript))).
Proof.
  unfold processVoiceCommand.
  destruct (_ || _ || _).
  { intros H. injection H as <-. left.
    split; [apply handleNext_answers |]. left.
    unfold handleNext. destruct (_ <? _)%Z; reflexivity. }
  destruct (_ || _ || _).
  { intros H. injection H as <-. left.
    split; [apply handlePrevious_answers |]. left.
    unfold handlePrevious. destruct (_ <? _); reflexivity. }
  destruct (_ || _ || _ || _).
  { intros H. injection H as <-. left.
    split; [apply handleSubmit_answers | apply handleSubmit_submitted]. }
  destruct (_ || _ || _).
  { simpl. intros H. left.
    destruct (nth_error (questions st) (currentQuestion st));
      [destruct (hasSpeak st) |]; injection H as <-;
      (split; [reflexivity | left; reflexivity]). }
  destruct (nth_error (questions st) (currentQuestion st)) as [q|];
    [| discriminate].
  destruct (String.eqb (type q) "multiple_choice") eqn:M.
  { intros H. injection H as <-.
    destruct (report_cases q
                (detect_multiple_choice (normalize transcript) (options q))
                st) as [S [A | [a [D A]]]].
    - left. split; [exact A | left; exact S].
    - right. split; [exact S |]. exists q, a.
      split; [reflexivity |]. split; [exact A |]. left. split; auto. }
  destruct (String.eqb (type q) "true_false") eqn:T.
  { intros H. injection H as <-.
    destruct (report_cases q (detect_true_false (normalize transcript)) st)
      as [S [A | [a [D A]]]].
    - left. split; [exact A | left; exact S].
    - right. split; [exact S |]. exists q, a.
      split; [reflexivity |]. split; [exact A |]. right. left. auto. }
  destruct (String.eqb (type q) "short_answer") eqn:SA.
  - intros H. injection H as <-. right. split; [reflexivity |].
    exists q, transcript. split; [reflexivity |].
    split; [reflexivity |]. right. right. auto.
  - intros H. injection H as <-.
    destruct (report_cases q None st) as [S [A | [a [D A]]]];
      [| discriminate].
    left. split; [exact A | left; exact S].
Qed.

(** X4.  A voice command changes at most the answer of the question on
    screen: every other slot and the number of slots stay as they are,
    whatever the transcript. The answers are handed to [onSubmit] at most
    once, unchanged, and only when every one of them is non-empty after
    trimming. *)
Theorem voice_command_changes_current_answer_only (transcript : string)
  (st st' : Quiz) :
  currentQuestion st < List.length (answers st) ->
  processVoiceCommand transcript st = Some st' ->
  (forall j, j <> currentQuestion st ->
             nth_error (answers st') j = nth_error (answers st) j)
  /\ List.length (answers st') = List.length (answers st)
  /\ (submitted st' = submitted st
      \/ (submitted st' = (submitted st ++ [answers st])%list
          /\ Forall answered (answers st)
          /\ answers st' = answers st)).
Proof.
  intros I H.
  destruct (processVoiceCommand_cases transcript st st' H)
    as [[A S] | [S [q [a [_ [A _]]]]]].
  - rewrite A. split; [reflexivity |]. split; [reflexivity |].
    destruct S as [S | [S F]]; [left; exact S | right; auto].
  - rewrite A. split; [| split; [| left; exact S]].
    + intros j N. apply array_set_other; assumption.
    + apply array_set_length, I.
Qed.

Lemma voice_command_changes_current_answer_only_witness :
  exists st',
    processVoiceCommand "London" mid_quiz = Some st'
    /\ nth_error (answers st') 0 = nth_error (answers mid_quiz) 0
    /\ nth_error (answers st') 2 = nth_error (answers mid_quiz) 2.
Proof.
  destruct (processVoiceCommand "London" mid_quiz) as [st'|] eqn:H;
    [| vm_compute in H; discriminate H].
  exists st'. split; [reflexivity |].
  destruct (voice_command_changes_current_answer_only "London" mid_quiz st'
              (le_S 2 2 (le_n 2)) H) as [F _].
  split; [apply (F 0) | apply (F 2)]; discriminate.
Defined.

(** ** Answers to a multiple-choice question *)

Definition option_letter_of (opts : list string) (a : string) : Prop :=
  exists opt, In opt opts /\ first_char opt = Some a.

Lemma option_letter_in (opts : list string) (k : nat) (a : string) :
  option_letter opts k = Some a -> option_letter_of opts a.
Proof.
  unfold option_letter.
  destruct (nth_error opts k) as [opt|] eqn:E; [| discriminate].
  intros H. exists opt. split; [eapply nth_error_In, E | exact H].
Qed.

Lemma direct_option_in (lower : string) (opts : list string) (a : string) :
  direct_option lower opts = Some a -> option_letter_of opts a.
Proof.
  unfold direct_option.
  repeat (destruct (_ || _ || _); [apply option_letter_in |]).
  discriminate.
Qed.

Lemma fuzzy_step_in (lower : string) (all : list string)
  (best : Q * option string) (opt : string) :
  In opt all ->
  (forall a, snd best = Some a -> option_letter_of all a) ->
  forall a, snd (fuzzy_step lower best opt) = Some a ->
            option_letter_of all a.
Proof.
  intros Hin Hbest a. destruct best as [b m]. unfold fuzzy_step.
  destruct (Qgtb _ b);
    destruct (includes lower (optionText opt) && _); simpl;
    try (intros H; exists opt; split; assumption).
  apply Hbest.
Qed.

Lemma fuzzy_fold_in (lower : string) (all opts : list string)
  (best : Q * option string) :
  incl opts all ->
  (forall a, snd best = Some a -> option_letter_of all a) ->
  forall a, snd (fold_left (fuzzy_step lower) opts best) = Some a ->
            option_letter_of all a.
Proof.
  revert best. induction opts as [|opt opts IH]; intros best Hincl Hbest;
    simpl; [exact Hbest |].
  apply IH.
  - intros x Hx. apply Hincl. right. exact Hx.
  - apply fuzzy_step_in; [apply Hincl; left; reflexivity | exact Hbest].
Qed.

Lemma detect_multiple_choice_in (lower : string) (opts : list string)
  (a : string) :
  detect_multiple_choice lower opts = Some a -> option_letter_of opts a.
Proof.
  unfold detect_multiple_choice.
  destruct (QuizModal.truthy (direct_option lower opts));
    [apply direct_option_in |].
  unfold fuzzy_match, fuzzy_best.
  destruct (fold_left (fuzzy_step lower) opts (0%Q, None)) as [b m] eqn:E.
  destruct (Qgtb b (6 # 10)); [| discriminate].
  intros H.
  apply (fuzzy_fold_in lower opts opts (0%Q, None)).
  - apply incl_refl.
  - simpl. discriminate.
  - rewrite E. exact H.
Qed.

(** X5.  On a multiple-choice question a voice command never stores anything
    but the first character of one of the options of that question: the
    answers stay as they are, or the slot of the question holds that
    character. *)
Theorem multiple_choice_answer_is_an_option_letter (transcript : string)
  (st st' : Quiz) (q : Question) :
  nth_error (questions st) (currentQuestion st) = Some q ->
  type q = "multiple_choice" ->
  currentQuestion st < List.length (answers st) ->
  processVoiceCommand transcript st = Some st' ->
  answers st' = answers st
  \/ exists opt a,
       In opt (options q) /\ first_char opt = Some a
       /\ nth_error (answers st') (currentQuestion st) = Some a.
Proof.
  intros Q T I H.
  destruct (processVoiceCommand_cases transcript st st' H)
    as [[A _] | [_ [q' [a [Q' [A D]]]]]]; [left; exact A |].
  right. rewrite Q in Q'. injection Q' as <-.
  rewrite T in D. simpl in D.
  destruct D as [[_ D] | [[D _] | [D _]]]; try discriminate.
  destruct (detect_multiple_choice_in _ _ _ D) as [opt [Hin F]].
  exists opt, a. split; [exact Hin |]. split; [exact F |].
  rewrite A. apply array_set_lookup, I.
Qed.

Lemma multiple_choice_answer_is_an_option_letter_witness :
  exists st',
    processVoiceCommand "I think it is Berlin" mid_quiz = Some st'
    /\ (answers st' = answers mid_quiz
        \/ exists opt a,
             In opt (options capitals) /\ first_char opt = Some a
             /\ nth_error (answers st') 1 = Some a).
Proof.
  destruct (processVoiceCommand "I think it is Berlin" mid_quiz)
    as [st'|] eqn:H; [| vm_compute in H; discriminate H].
  exists st'. split; [reflexivity |].
  exact (multiple_choice_answer_is_an_option_letter
           "I think it is Berlin" mid_quiz st' capitals
           eq_refl eq_refl (le_S 2 2 (le_n 2)) H).
Defined.

(** ** Reading the question aloud *)

Lemma autoRead_idempotent (st : Quiz) : autoRead (autoRead st) = autoRead st.
Proof.
  unfold autoRead.
  destruct (hasSpokenRef st) eqn:S;
    destruct (nth_error (questions st) (currentQuestion st)) as [q|] eqn:Q;
    destruct (hasSpeak st);
    simpl; rewrite ?S; simpl; rewrite ?Q; reflexivity.
Qed.

(** X6.  The auto-read effect follows the navigation. After a step forward
    that moves to a question, the effect speaks that question, with its
    number and, for a multiple-choice question, its options; running the
    effect again speaks nothing more. On the last question a step forward
    resets nothing, and the effect stays silent. *)
Theorem autoRead_follows_navigation (st : Quiz) :
  hasSpeak st = true ->
  hasSpokenRef st = true ->
  currentQuestion st < List.length (questions st) ->
  (forall q,
     nth_error (questions st) (S (currentQuestion st)) = Some q ->
     spoken (autoRead (handleNext st))
     = (spoken st ++ [read_text (S (currentQuestion st)) q])%list
     /\ autoRead (autoRead (handleNext st)) = autoRead (handleNext st))
  /\ (nth_error (questions st) (S (currentQuestion st)) = None ->
      autoRead (handleNext st) = st).
Proof.
  intros Sp Sk I. split.
  - intros q Q. split; [| apply autoRead_idempotent].
    assert (L : S (currentQuestion st) < List.length (questions st))
      by (apply nth_error_Some; congruence).
    unfold handleNext.
    destruct (Z.ltb_spec (Z.of_nat (currentQuestion st))
                (Z.of_nat (List.length (questions st)) - 1)); [| lia].
    unfold autoRead, setHasSpoken, setVoiceFeedback, setCurrentQuestion.
    cbn [hasSpokenRef questions currentQuestion hasSpeak negb].
    rewrite Q, Sp. reflexivity.
  - intros Q. apply nth_error_None in Q.
    unfold handleNext.
    destruct (Z.ltb_spec (Z.of_nat (currentQuestion st))
                (Z.of_nat (List.length (questions st)) - 1)); [lia |].
    unfold autoRead. rewrite Sk. reflexivity.
Qed.

Lemma autoRead_follows_navigation_witness :
  spoken (autoRead (handleNext (autoRead mid_quiz)))
  = (spoken (autoRead mid_quiz) ++ [read_text 2 capitals])%list.
Proof.
  exact (proj1 (proj1 (autoRead_follows_navigation (autoRead mid_quiz)
                         eq_refl eq_refl (le_S 2 2 (le_n 2)))
                  capitals eq_refl)).
Defined.


(** ** The similarity of two strings *)

(** The table of edit distances between the prefixes of two strings, by
    its recurrence: [distance_table longer shorter i j] is the distance
    between the first [i] characters of [longer] and the first [j]
    characters of [shorter]. *)
Fixpoint distance_table (longer shorter : string) (i : nat) {struct i}
  : nat -> nat :=
  match i with
  | 0 => fun j => j
  | S i' =>
      fix column (j : nat) : nat :=
        match j with
        | 0 => S i'
        | S j' =>
            if charAt_neq longer i' shorter j'
            then Nat.min (Nat.min (distance_table longer shorter i' j')
                                  (column j'))
                         (distance_table longer shorter i' (S j')) + 1
            else distance_table longer shorter i' j'
        end
  end.

Lemma distance_table_step (longer shorter : string) (i j : nat) :
  distance_table longer shorter (S i) (S j)
  = if charAt_neq longer i shorter j
    then Nat.min (Nat.min (distance_table longer shorter i j)
                          (distance_table longer shorter (S i) j))
                 (distance_table longer shorter i (S j)) + 1
    else distance_table longer shorter i j.
Proof. reflexivity. Qed.

Lemma array_set_end {A : Type} (d v : A) (arr : list A) :
  array_set d (List.length arr) v arr = (arr ++ [v])%list.
Proof.
  unfold array_set. rewrite Nat.ltb_irrefl, Nat.sub_diag. reflexivity.
Qed.

Lemma array_set_middle {A : Type} (d v x : A) (done rest : list A) :
  array_set d (List.length done) v (done ++ x :: rest)
  = (done ++ v :: rest)%list.
Proof.
  rewrite array_set_in_range by (rewrite length_app; simpl; lia).
  rewrite firstn_app, Nat.sub_diag, firstn_all. cbn [firstn].
  rewrite app_nil_r. f_equal. f_equal.
  rewrite skipn_app.
  rewrite (skipn_all2 done) by lia.
  replace (S (List.length done) - List.length done) with 1 by lia.
  reflexivity.
Qed.

Lemma cost_at_middle (done rest : list nat) (x : nat) :
  cost_at (done ++ x :: rest) (List.length done) = x.
Proof. unfold cost_at. apply nth_middle. Qed.

Lemma cost_at_next (done rest : list nat) (x y : nat) :
  cost_at (done ++ x :: y :: rest) (S (List.length done)) = y.
Proof.
  unfold cost_at.
  replace (done ++ x :: y :: rest)%list with ((done ++ [x]) ++ y :: rest)%list
    by (rewrite <- app_assoc; reflexivity).
  replace (S (List.length done)) with (List.length (done ++ [x])%list)
    by (rewrite length_app; simpl; lia).
  apply nth_middle.
Qed.

(** The first pass of the outer loop, [i = 0], fills the array with
    [0, 1, ..., shorter.length]. *)
Lemma inner_loop_first_row (longer shorter : string) (steps : nat) :
  forall (costs : list nat) (lastValue : nat),
    inner_loop longer shorter 0 steps (List.length costs) costs lastValue
    = ((costs ++ seq (List.length costs) steps)%list, lastValue).
Proof.
  induction steps as [|steps IH]; intros costs lastValue; simpl.
  - rewrite app_nil_r. reflexivity.
  - rewrite array_set_end.
    replace (S (List.length costs))
      with (List.length (costs ++ [List.length costs])%list)
      by (rewrite length_app; simpl; lia).
    rewrite IH, <- app_assoc, length_app. simpl.
    replace (List.length costs + 1) with (S (List.length costs)) by lia.
    reflexivity.
Qed.

(** A later pass, [i > 0], from column [j > 0] on: the array holds the
    new row up to column [j - 2] and the old row from column [j - 1] on,
    [lastValue] is the new entry of column [j - 1]; the pass and the
    assignment [costs[shorter.length] = lastValue] after it leave the new
    row. *)
Lemma inner_loop_next_row (longer shorter : string) (i : nat) (k : nat) :
  forall (j : nat) (done : list nat),
    List.length done = j ->
    let '(costs, lastValue) :=
      inner_loop longer shorter (S i) k (S j)
        (done ++ distance_table longer shorter i j
              :: map (distance_table longer shorter i) (seq (S j) k))
        (distance_table longer shorter (S i) j) in
    array_set 0 (j + k) lastValue costs
    = (done ++ map (distance_table longer shorter (S i)) (seq j (S k)))%list.
Proof.
  induction k as [|k IH]; intros j done L; subst j.
  - cbn [inner_loop seq map].
    rewrite Nat.add_0_r. apply array_set_middle.
  - cbn [inner_loop seq map].
    replace (S i =? 0) with false by reflexivity.
    replace (0 <? S (List.length done)) with true by reflexivity.
    replace (S (List.length done) - 1) with (List.length done) by lia.
    replace (S i - 1) with i by lia.
    rewrite cost_at_middle, cost_at_next, array_set_middle.
    rewrite <- distance_table_step.
    specialize (IH (S (List.length done))
                  (done ++ [distance_table longer shorter (S i)
                              (List.length done)])%list).
    rewrite <- app_assoc in IH. cbn [app] in IH.
    destruct (inner_loop longer shorter (S i) k (S (S (List.length done)))
                _ _) as [costs lastValue].
    replace (List.length done + S k) with (S (List.length done) + k) by lia.
    rewrite IH by (rewrite length_app; simpl; lia).
    rewrite <- app_assoc. reflexivity.
Qed.

Lemma outer_loop_rows (longer shorter : string) (steps : nat) :
  forall i,
    outer_loop longer shorter steps (S i)
      (map (distance_table longer shorter i)
           (seq 0 (S (String.length shorter))))
    = map (distance_table longer shorter (i + steps))
          (seq 0 (S (String.length shorter))).
Proof.
  induction steps as [|steps IH]; intros i.
  - rewrite Nat.add_0_r. reflexivity.
  - cbn [outer_loop].
    pose proof (inner_loop_next_row longer shorter i
                  (String.length shorter) 0 [] eq_refl) as R.
    cbn [seq map app] in R. cbn [seq map].
    cbn [inner_loop].
    replace (S i =? 0) with false by reflexivity.
    replace (0 <? 0) with false by reflexivity.
    cbv iota beta.
    change (distance_table longer shorter (S i) 0) with (S i) in R.
    change (distance_table longer shorter i 0
              :: map (distance_table longer shorter i)
                   (seq 1 (String.length shorter)))
      with (map (distance_table longer shorter i)
              (seq 0 (S (String.length shorter)))) in R.
    cbn [seq map] in R.
    destruct (inner_loop longer shorter (S i) (String.length shorter) 1 _ _)
      as [costs lastValue].
    replace (0 <? S i) with true by reflexivity.
    cbn [Nat.add] in R. rewrite R.
    change (S i :: map (distance_table longer shorter (S i))
                     (seq 1 (String.length shorter)))
      with (map (distance_table longer shorter (S i))
              (seq 0 (S (String.length shorter)))).
    rewrite IH. replace (i + S steps) with (S i + steps) by lia.
    reflexivity.
Qed.

(** The two loops of [calculateSimilarity], which keep one row of the
    table in [costs] and overwrite it in place, leave in
    [costs[shorter.length]] the entry of the table for the two whole
    strings. *)
Lemma editDistance_table (longer shorter : string) :
  editDistance longer shorter
  = distance_table longer shorter (String.length longer)
      (String.length shorter).
Proof.
  unfold editDistance. cbn [outer_loop].
  pose proof (inner_loop_first_row longer shorter
                (S (String.length shorter)) [] 0) as R.
  cbn [List.length app] in R. rewrite R.
  replace (0 <? 0) with false by reflexivity.
  assert (E : seq 0 (S (String.length shorter))
              = map (distance_table longer shorter 0)
                  (seq 0 (S (String.length shorter))))
    by (symmetry; apply map_id).
  rewrite E, outer_loop_rows. unfold cost_at. cbn [Nat.add].
  rewrite (nth_indep _ 0 (distance_table longer shorter
                            (String.length longer) 0))
    by (rewrite length_map, length_seq; lia).
  rewrite (map_nth (distance_table longer shorter (String.length longer))).
  rewrite seq_nth by lia. reflexivity.
Qed.


Lemma distance_table_column_0 (longer shorter : string) (i : nat) :
  distance_table longer shorter i 0 = i.
Proof. destruct i; reflexivity. Qed.

Lemma distance_table_le_max (longer shorter : string) (i : nat) :
  forall j, distance_table longer shorter i j <= Nat.max i j.
Proof.
  induction i as [|i IH]; intros j; [simpl; lia |].
  induction j as [|j IHj]; [simpl; lia |].
  rewrite distance_table_step. specialize (IH j).
  destruct (charAt_neq longer i shorter j); lia.
Qed.

(** An entry of the table is zero exactly on the diagonal, when the two
    prefixes agree character by character. *)
Lemma distance_table_zero (longer shorter : string) (i : nat) :
  forall j,
    distance_table longer shorter i j = 0
    <-> i = j /\ forall k, k < i -> charAt_neq longer k shorter k = false.
Proof.
  induction i as [|i IH]; intros j.
  - simpl. split.
    + intros ->. split; [reflexivity | intros k H; lia].
    + intros [<- _]. reflexivity.
  - destruct j as [|j]; [simpl; split; [lia | intros [H _]; lia] |].
    rewrite distance_table_step.
    destruct (charAt_neq longer i shorter j) eqn:N.
    + split; [lia |]. intros [E H]. injection E as <-.
      rewrite H in N by lia. discriminate.
    + rewrite IH. split.
      * intros [<- H]. split; [reflexivity |].
        intros k L. destruct (Nat.eq_dec k i) as [-> | D];
          [exact N | apply H; lia].
      * intros [E H]. injection E as <-. split; [reflexivity |].
        intros k L. apply H. lia.
Qed.

Lemma charAt_neq_same (s : string) (k : nat) : charAt_neq s k s k = false.
Proof.
  unfold charAt_neq. destruct (get k s); [| reflexivity].
  rewrite Ascii.eqb_refl. reflexivity.
Qed.

Lemma same_characters (s t : string) :
  String.length s = String.length t ->
  (forall k, k < String.length s -> charAt_neq s k t k = false) ->
  s = t.
Proof.
  revert t. induction s as [|a s IH]; intros [|b t] L H;
    try discriminate L; [reflexivity |].
  simpl in L. injection L as L.
  pose proof (H 0 (Nat.lt_0_succ _)) as H0.
  unfold charAt_neq in H0. simpl in H0.
  apply negb_false_iff, Ascii.eqb_eq in H0. subst b.
  f_equal. apply IH; [exact L |].
  intros k K. apply (H (S k)). simpl. lia.
Qed.

Lemma editDistance_zero (longer shorter : string) :
  editDistance longer shorter = 0 <-> longer = shorter.
Proof.
  rewrite editDistance_table, distance_table_zero. split.
  - intros [L H]. apply same_characters; assumption.
  - intros <-. split; [reflexivity |]. intros k _. apply charAt_neq_same.
Qed.

Lemma editDistance_le (longer shorter : string) :
  String.length shorter <= String.length longer ->
  editDistance longer shorter <= String.length longer.
Proof.
  intros H. rewrite editDistance_table.
  pose proof (distance_table_le_max longer shorter (String.length longer)
                (String.length shorter)).
  lia.
Qed.

Lemma Zpos_of_nat (n : nat) : n <> 0 -> Z.pos (Pos.of_nat n) = Z.of_nat n.
Proof.
  destruct n as [|n]; [congruence |]. intros _.
  rewrite <- Pos.of_nat_succ, Zpos_P_of_succ_nat, Nat2Z.inj_succ.
  reflexivity.
Qed.

(** X8.  The score [calculateSimilarity] gives lies between 0 and 1: the
    edit distance the loops compute never exceeds the length of the longer
    string. *)
Theorem calculateSimilarity_between_0_and_1 (s1 s2 : string) :
  (0 <= calculateSimilarity s1 s2 <= 1)%Q.
Proof.
  split; [| apply calculateSimilarity_le_1].
  unfold calculateSimilarity.
  set (longer := if String.length s2 <? String.length s1 then s1 else s2).
  set (shorter := if String.length s2 <? String.length s1 then s2 else s1).
  assert (L : String.length shorter <= String.length longer).
  { unfold longer, shorter.
    destruct (Nat.ltb_spec (String.length s2) (String.length s1)); lia. }
  destruct (Nat.eqb_spec (String.length longer) 0) as [E|E];
    [discriminate |].
  pose proof (editDistance_le longer shorter L).
  unfold Qle. simpl. lia.
Qed.

(** X9.  The score is 1 exactly when the two strings are equal. *)
Theorem calculateSimilarity_1_iff_equal (s1 s2 : string) :
  (calculateSimilarity s1 s2 == 1)%Q <-> s1 = s2.
Proof.
  unfold calculateSimilarity.
  set (longer := if String.length s2 <? String.length s1 then s1 else s2).
  set (shorter := if String.length s2 <? String.length s1 then s2 else s1).
  assert (L : String.length shorter <= String.length longer).
  { unfold longer, shorter.
    destruct (Nat.ltb_spec (String.length s2) (String.length s1)); lia. }
  assert (S : longer = shorter <-> s1 = s2).
  { unfold longer, shorter.
    destruct (String.length s2 <? String.length s1); split; congruence. }
  rewrite <- S.
  destruct (Nat.eqb_spec (String.length longer) 0) as [E|E].
  - split; [| reflexivity]. intros _.
    destruct longer; [| discriminate E].
    destruct shorter; [reflexivity | simpl in L; lia].
  - rewrite <- editDistance_zero.
    pose proof (editDistance_le longer shorter L).
    unfold Qeq. simpl. rewrite (Zpos_of_nat _ E). lia.
Qed.

(** Against the empty string every other string scores 0. *)
Lemma similarity_with_empty (s : string) :
  s <> EmptyString ->
  (calculateSimilarity s EmptyString == 0)%Q
  /\ (calculateSimilarity EmptyString s == 0)%Q.
Proof.
  intros N.
  assert (P : 0 < String.length s) by (destruct s; [congruence | simpl; lia]).
  assert (D : editDistance s EmptyString = String.length s)
    by (rewrite editDistance_table; apply distance_table_column_0).
  unfold calculateSimilarity. simpl String.length.
  replace (0 <? String.length s) with true
    by (symmetry; apply Nat.ltb_lt; exact P).
  replace (String.length s <? 0) with false by reflexivity.
  replace (String.length s =? 0) with false
    by (symmetry; apply Nat.eqb_neq; lia).
  rewrite D. unfold Qeq. simpl. split; lia.
Qed.


Lemma charAt_neq_sym (s : string) (i : nat) (t : string) (j : nat) :
  charAt_neq s i t j = charAt_neq t j s i.
Proof.
  unfold charAt_neq. destruct (get i s), (get j t); try reflexivity.
  rewrite Ascii.eqb_sym. reflexivity.
Qed.

Lemma distance_table_sym (s t : string) (i : nat) :
  forall j, distance_table s t i j = distance_table t s j i.
Proof.
  induction i as [|i IH]; intros j.
  - rewrite distance_table_column_0. reflexivity.
  - induction j as [|j IHj]; [reflexivity |].
    rewrite !distance_table_step, IHj, !IH, (charAt_neq_sym s i t j).
    destruct (charAt_neq t j s i); lia.
Qed.

(** X7.  The loops of [calculateSimilarity] compute the edit distance of the
    two strings: they keep one row of the table of distances between
    prefixes in [costs], overwrite it in place, and leave in
    [costs[shorter.length]] the entry for the two whole strings. *)
Theorem editDistance_is_the_entry_of_the_table (longer shorter : string) :
  editDistance longer shorter
  = distance_table longer shorter (String.length longer)
      (String.length shorter)
  /\ (forall j, distance_table longer shorter 0 j = j)
  /\ (forall i, distance_table longer shorter i 0 = i)
  /\ (forall i j,
        distance_table longer shorter (S i) (S j)
        = if charAt_neq longer i shorter j
          then Nat.min (Nat.min (distance_table longer shorter i j)
                                (distance_table longer shorter (S i) j))
                       (distance_table longer shorter i (S j)) + 1
          else distance_table longer shorter i j).
Proof.
  split; [apply editDistance_table |].
  split; [reflexivity |].
  split; [apply distance_table_column_0 | reflexivity].
Qed.

(** X10.  The score does not depend on the order of the two strings. *)
Theorem calculateSimilarity_symmetric (s1 s2 : string) :
  calculateSimilarity s1 s2 = calculateSimilarity s2 s1.
Proof.
  unfold calculateSimilarity.
  destruct (Nat.ltb_spec (String.length s2) (String.length s1)) as [A|A];
    destruct (Nat.ltb_spec (String.length s1) (String.length s2)) as [B|B];
    try reflexivity; try lia.
  assert (E : String.length s1 = String.length s2) by lia.
  rewrite !editDistance_table, (distance_table_sym s2 s1), E. reflexivity.
Qed.


(** ** A transcript without a word *)

Lemma fuzzy_step_blank (opt : string) :
  optionText opt <> EmptyString ->
  fuzzy_step EmptyString (0%Q, None) opt = (0%Q, None).
Proof.
  intros N. unfold fuzzy_step.
  destruct (similarity_with_empty (optionText opt) N) as [_ Z].
  replace (Qgtb (calculateSimilarity EmptyString (optionText opt)) 0)
    with false.
  - destruct (optionText opt) as [|c s]; [congruence | reflexivity].
  - symmetry. apply Qgtb_false. rewrite Z. apply Qle_refl.
Qed.

Lemma fuzzy_best_blank (opts : list string) :
  Forall (fun opt => optionText opt <> EmptyString) opts ->
  fuzzy_best EmptyString opts = (0%Q, None).
Proof.
  unfold fuzzy_best. induction 1 as [|opt opts N _ IH]; [reflexivity |].
  cbn [fold_left]. rewrite (fuzzy_step_blank opt N). exact IH.
Qed.

(** X11.  A transcript that is empty once lower-cased, stripped of
    punctuation and trimmed (white space and punctuation marks only) answers
    nothing. On a true/false question, and on a multiple-choice question
    whose options all have a text, the answers stay as they are and the
    feedback says that the answer was not understood: against the empty
    transcript every option scores 0. *)
Theorem blank_transcript_answers_nothing (transcript : string) (st : Quiz)
  (q : Question) :
  normalize transcript = EmptyString ->
  nth_error (questions st) (currentQuestion st) = Some q ->
  (type q = "true_false"
   \/ (type q = "multiple_choice"
       /\ Forall (fun opt => optionText opt <> EmptyString) (options q))) ->
  processVoiceCommand transcript st
  = Some (setVoiceFeedback unrecognized_feedback st).
Proof.
  intros E Q T. unfold processVoiceCommand. rewrite E, Q.
  cbn [String.eqb includes prefix orb].
  destruct T as [T | [T F]]; unfold report; rewrite !T.
  - reflexivity.
  - unfold detect_multiple_choice, fuzzy_match.
    rewrite (fuzzy_best_blank _ F). reflexivity.
Qed.

Lemma blank_transcript_answers_nothing_witness :
  processVoiceCommand " ?! " mid_quiz
  = Some (setVoiceFeedback unrecognized_feedback mid_quiz).
Proof.
  apply (blank_transcript_answers_nothing " ?! " mid_quiz capitals);
    [reflexivity | reflexivity |].
  right. split; [reflexivity |].
  repeat constructor; discriminate.
Defined.

(* ===================================================================== *)
(** * Properties of the voice chat hook *)
(* ===================================================================== *)

Import VoiceChat.

(** ** Strings and lists *)

Lemma append_nil_r (s : string) : s ++ EmptyString = s.
Proof. induction s as [|c s IH]; simpl; [| rewrite IH]; reflexivity. Qed.

Lemma append_assoc (a b c : string) : (a ++ b) ++ c = a ++ (b ++ c).
Proof. induction a as [|x a IH]; simpl; [| rewrite IH]; reflexivity. Qed.

Lemma nth_error_update_nth_eq {A : Type} (f : A -> A) (l : list A)
  (i : nat) :
  nth_error (update_nth i f l) i = option_map f (nth_error l i).
Proof.
  revert i. induction l as [|x l IH]; intros [|i]; simpl; auto.
Qed.

Lemma nth_error_update_nth_ne {A : Type} (f : A -> A) (l : list A)
  (i j : nat) :
  i <> j -> nth_error (update_nth i f l) j = nth_error l j.
Proof.
  revert i j.
  induction l as [|x l IH]; intros [|i] [|j] H; simpl; auto;
    try congruence.
Qed.

(** ** The silence timer *)

(** The finalized fragments of a result event, in order. *)
Definition finalized_of (results : list (string * bool)) : list string :=
  map fst (filter snd results).

(** The interim text of a result event. *)
Fixpoint interim_of (results : list (string * bool)) : string :=
  match results with
  | [] => EmptyString
  | (t, true) :: rest => interim_of rest
  | (t, false) :: rest => t ++ interim_of rest
  end.

(** The utterance buffer: the finalized fragments in order of arrival,
    each followed by the space that separates it from the next. *)
Fixpoint utterance_buffer (finals : list string) : string :=
  match finals with
  | [] => EmptyString
  | f :: rest => f ++ " " ++ utterance_buffer rest
  end.

Lemma utterance_buffer_app (a b : list string) :
  utterance_buffer (a ++ b) = utterance_buffer a ++ utterance_buffer b.
Proof.
  induction a as [|f a IH]; simpl; [reflexivity |].
  rewrite IH. rewrite !append_assoc. reflexivity.
Qed.

Lemma collect_spec (results : list (string * bool)) (i f : string) :
  collect results (i, f)
  = (i ++ interim_of results,
     f ++ utterance_buffer (finalized_of results)).
Proof.
  revert i f. induction results as [|[t b] rest IH]; intros i f.
  - simpl. rewrite !append_nil_r. reflexivity.
  - destruct b; simpl; rewrite IH; unfold finalized_of; simpl;
      rewrite !append_assoc; reflexivity.
Qed.

(** The final utterances in a log, with the time they were given to the
    callback. *)
Definition final_utterances (l : list (nat * Effect)) : list (nat * string) :=
  flat_map (fun entry =>
              match entry with
              | (t, OnTranscript text true) => [(t, text)]
              | _ => []
              end) l.

(** The live previews in a log. *)
Definition previews (l : list (nat * Effect)) : list string :=
  flat_map (fun entry =>
              match entry with
              | (_, OnTranscript text false) => [text]
              | _ => []
              end) l.

Lemma final_utterances_app (a b : list (nat * Effect)) :
  final_utterances (a ++ b) = (final_utterances a ++ final_utterances b)%list.
Proof. unfold final_utterances. apply flat_map_app. Qed.

(** Result events that arrive [gap] milliseconds after one another. *)
Definition fragment_events (r : nat)
  (frs : list (nat * list (string * bool))) : list Event :=
  flat_map (fun fr => [Elapse (fst fr); RecOnResult r (snd fr)]) frs.

(** All the finalized fragments of a sequence of result events. *)
Definition finalized (frs : list (nat * list (string * bool)))
  : list string :=
  flat_map (fun fr => finalized_of (snd fr)) frs.

Definition total_gap (frs : list (nat * list (string * bool))) : nat :=
  fold_right (fun fr acc => fst fr + acc) 0 frs.

(** Between two result events of object [r]: the object is capturing, its
    buffer is [buffer], and the only timer that may be pending is its
    silence timer, set when the last result arrived. *)
Definition segmenting (r : nat) (buffer : string) (s : Hook) : Prop :=
  exists rec,
    nth_error (recognitions s) r = Some rec
    /\ rstate rec = RecActive
    /\ currentTranscript rec = buffer
    /\ ((is_empty (trim buffer) = true /\ timers s = [])
        \/ (is_empty (trim buffer) = false
            /\ exists id,
                 timers s = [mkTimer id (now s + 1200) (SilenceElapsed r)]
                 /\ silenceTimer rec = Some id)).

(** The buffer after [onresult]. *)
Definition buffer_after (rec : Recognition)
  (results : list (string * bool)) : string :=
  currentTranscript rec ++ utterance_buffer (finalized_of results).

(** The pending timers after the [clearTimeout] of [onresult]. *)
Definition timers_cleared (rec : Recognition) (s : Hook) : list Timer :=
  match silenceTimer rec with
  | Some id => filter (fun t => negb (tid t =? id)) (timers s)
  | None => timers s
  end.

Ltac case_if :=
  match goal with
  | |- context [if ?b then _ else _] => destruct b eqn:?
  | |- context [match ?o with Some _ => _ | None => _ end] =>
      destruct o eqn:?
  end.

Lemma onresult_current (rec : Recognition) (results : list (string * bool)) :
  (if negb (is_empty (utterance_buffer (finalized_of results)))
   then currentTranscript rec ++ utterance_buffer (finalized_of results)
   else currentTranscript rec)
  = buffer_after rec results.
Proof.
  unfold buffer_after.
  destruct (utterance_buffer (finalized_of results)); simpl;
    [rewrite append_nil_r |]; reflexivity.
Qed.

Lemma onresult_timers (r : nat) (rec : Recognition)
  (results : list (string * bool)) (s : Hook) :
  timers (onresult r rec results s)
  = if is_empty (trim (buffer_after rec results))
    then timers_cleared rec s
    else (timers_cleared rec s
          ++ [mkTimer (nextTimer s) (now s + 1200) (SilenceElapsed r)])%list.
Proof.
  unfold onresult. rewrite collect_spec. simpl append.
  rewrite onresult_current. unfold timers_cleared.
  repeat case_if; simpl in *; try discriminate; reflexivity.
Qed.

Lemma onresult_now (r : nat) (rec : Recognition)
  (results : list (string * bool)) (s : Hook) :
  now (onresult r rec results s) = now s.
Proof.
  unfold onresult. rewrite collect_spec. simpl append.
  rewrite onresult_current.
  repeat case_if; simpl in *; try discriminate; reflexivity.
Qed.

Lemma onresult_finals (r : nat) (rec : Recognition)
  (results : list (string * bool)) (s : Hook) :
  final_utterances (log (onresult r rec results s))
  = final_utterances (log s).
Proof.
  unfold onresult. rewrite collect_spec. simpl append.
  rewrite onresult_current.
  repeat case_if; simpl in *; try discriminate; try reflexivity;
    rewrite final_utterances_app; simpl; apply app_nil_r.
Qed.

Lemma onresult_recognition (r : nat) (rec : Recognition)
  (results : list (string * bool)) (s : Hook) :
  nth_error (recognitions s) r = Some rec ->
  exists rec',
    nth_error (recognitions (onresult r rec results s)) r = Some rec'
    /\ rstate rec' = rstate rec
    /\ currentTranscript rec' = buffer_after rec results
    /\ (is_empty (trim (buffer_after rec results)) = false ->
        silenceTimer rec' = Some (nextTimer s)).
Proof.
  intros H. unfold onresult. rewrite collect_spec. simpl append.
  rewrite onresult_current.
  repeat case_if; simpl in *; try discriminate;
    rewrite ?nth_error_update_nth_eq, ?H; simpl;
    rewrite ?nth_error_update_nth_eq, ?H; simpl;
    eexists; (split; [reflexivity |]); simpl; repeat split;
    try congruence; intros E; rewrite E in *; discriminate.
Qed.

Lemma elapse_no_timer (d : nat) (s : Hook) :
  timers s = [] -> elapse d s = set_now (now s + d) s.
Proof. intros H. unfold elapse. rewrite H. reflexivity. Qed.

Lemma elapse_too_early (d : nat) (s : Hook) (t : Timer) :
  timers s = [t] -> now s + d < due t ->
  elapse d s = set_now (now s + d) s.
Proof.
  intros H L. unfold elapse. rewrite H. simpl. rewrite H. simpl.
  destruct (Nat.leb_spec (due t) (now s + d)); [lia | reflexivity].
Qed.

Lemma elapse_silence (d : nat) (s : Hook) (id r : nat) (rec : Recognition) :
  timers s = [mkTimer id (now s + 1200) (SilenceElapsed r)] ->
  1200 <= d ->
  nth_error (recognitions s) r = Some rec ->
  let s' := elapse d s in
  log s' = (log s
            ++ [(now s + 1200,
                 OnTranscript (trim (currentTranscript rec)) true)])%list
  /\ timers s' = []
  /\ nth_error (recognitions s') r
     = Some (set_currentTranscript EmptyString rec).
Proof.
  intros H L Hrec. unfold elapse. rewrite H. simpl. rewrite H. simpl.
  destruct (Nat.leb_spec (now s + 1200) (now s + d)) as [_|F]; [| lia].
  unfold fire, silence_callback. simpl. rewrite Hrec. simpl.
  rewrite H. simpl. rewrite Nat.eqb_refl. simpl.
  rewrite nth_error_update_nth_eq, Hrec. repeat split.
Qed.

Lemma fragment_step (r gap : nat) (results : list (string * bool))
  (buffer : string) (s : Hook) :
  segmenting r buffer s -> gap < 1200 ->
  let s' := step (RecOnResult r results) (step (Elapse gap) s) in
  segmenting r (buffer ++ utterance_buffer (finalized_of results)) s'
  /\ now s' = now s + gap
  /\ final_utterances (log s') = final_utterances (log s).
Proof.
  intros [rec [Hrec [Hact [Hbuf Htim]]]] Hgap.
  assert (E : elapse gap s = set_now (now s + gap) s).
  { destruct Htim as [[_ T] | [_ [id [T _]]]].
    - apply elapse_no_timer, T.
    - apply (elapse_too_early _ _ _ T). simpl. lia. }
  cbv zeta. change (step (Elapse gap) s) with (elapse gap s).
  rewrite E. clear E.
  set (s1 := set_now (now s + gap) s).
  assert (Hrec1 : nth_error (recognitions s1) r = Some rec) by exact Hrec.
  unfold step. rewrite Hrec1, Hact.
  assert (Hclear : timers_cleared rec s1 = []).
  { unfold timers_cleared. simpl.
    destruct Htim as [[_ T] | [_ [id [T I]]]]; rewrite T.
    - destruct (silenceTimer rec); reflexivity.
    - rewrite I. simpl. rewrite Nat.eqb_refl. reflexivity. }
  destruct (onresult_recognition r rec results s1 Hrec1)
    as [rec' [R1 [R2 [R3 R4]]]].
  pose proof (onresult_timers r rec results s1) as T.
  rewrite Hclear in T. unfold buffer_after in *. rewrite Hbuf in *.
  split; [| split].
  - exists rec'. split; [exact R1 |]. split; [congruence |].
    split; [exact R3 |].
    destruct (is_empty (trim (buffer
                              ++ utterance_buffer (finalized_of results))))
      eqn:B.
    + left. split; [reflexivity | exact T].
    + right. split; [reflexivity |]. exists (nextTimer s1).
      split; [| apply R4; reflexivity].
      rewrite T, onresult_now. reflexivity.
  - rewrite onresult_now. reflexivity.
  - rewrite onresult_finals. reflexivity.
Qed.

Lemma fragments_segmenting (r : nat)
  (frs : list (nat * list (string * bool))) :
  forall (buffer : string) (s : Hook),
    segmenting r buffer s ->
    Forall (fun fr => fst fr < 1200) frs ->
    let s' := run (fragment_events r frs) s in
    segmenting r (buffer ++ utterance_buffer (finalized frs)) s'
    /\ now s' = now s + total_gap frs
    /\ final_utterances (log s') = final_utterances (log s).
Proof.
  induction frs as [|[gap results] frs IH]; intros buffer s Hseg Hgaps.
  - simpl. rewrite append_nil_r. repeat split; [exact Hseg | lia].
  - inversion Hgaps as [|x l Hgap Hrest]; subst. simpl in Hgap.
    destruct (fragment_step r gap results buffer s Hseg Hgap)
      as [S1 [N1 F1]].
    destruct (IH _ _ S1 Hrest) as [S2 [N2 F2]].
    unfold run in *. simpl fold_left.
    simpl in S1, N1, F1, S2, N2, F2.
    unfold finalized. simpl flat_map. rewrite utterance_buffer_app.
    rewrite <- append_assoc.
    split; [exact S2 |]. split.
    + simpl. rewrite N2, N1. lia.
    + rewrite F2, F1. reflexivity.
Qed.

(** C2.  Result events arrive at object [r] less than 1200 ms after one
    another and are followed by more than 1200 ms without one.  Then the
    callback gets exactly one final utterance, 1200 ms after the last
    result: the finalized fragments of all the events in order of arrival
    (the buffer, trimmed), whatever the interim fragments were; the buffer
    is empty afterwards and no timer is left.  When the buffer is empty
    (or blank) nothing is given as final. *)
Theorem silence_emits_one_final_utterance (s : Hook) (r : nat)
  (rec : Recognition) (frs : list (nat * list (string * bool)))
  (g : nat) :
  nth_error (recognitions s) r = Some rec ->
  rstate rec = RecActive ->
  currentTranscript rec = EmptyString ->
  timers s = [] ->
  Forall (fun fr => fst fr < 1200) frs ->
  1200 < g ->
  let s' := run (fragment_events r frs ++ [Elapse g]) s in
  let buffer := utterance_buffer (finalized frs) in
  final_utterances (log s')
  = (final_utterances (log s)
     ++ (if is_empty (trim buffer) then []
         else [(now s + total_gap frs + 1200, trim buffer)]))%list
  /\ (exists rec',
        nth_error (recognitions s') r = Some rec'
        /\ (is_empty (trim buffer) = false ->
            currentTranscript rec' = EmptyString))
  /\ timers s' = [].
Proof.
  intros Hrec Hact Hbuf Htim Hgaps Hg.
  assert (Hseg : segmenting r EmptyString s).
  { exists rec. repeat split; try assumption. left. split; [reflexivity |].
    exact Htim. }
  destruct (fragments_segmenting r frs _ _ Hseg Hgaps) as [S1 [N1 F1]].
  simpl in S1, N1, F1. unfold run. rewrite fold_left_app.
  fold (run (fragment_events r frs) s).
  set (s1 := run (fragment_events r frs) s) in *.
  destruct S1 as [rec1 [R1 [A1 [B1 T1]]]]. simpl fold_left.
  cbv zeta. destruct T1 as [[Blank T] | [NonBlank [id [T I]]]].
  - rewrite Blank. unfold step. rewrite (elapse_no_timer _ _ T). simpl.
    rewrite F1, app_nil_r. split; [reflexivity |]. split; [| exact T].
    exists rec1. split; [exact R1 |]. intros C. congruence.
  - rewrite NonBlank. unfold step.
    destruct (elapse_silence g s1 id r rec1 T (Nat.lt_le_incl _ _ Hg) R1)
      as [L [T' R']].
    rewrite L, final_utterances_app, F1, T', R'. simpl.
    rewrite B1, N1. split; [reflexivity |]. split; [| reflexivity].
    eexists. split; [reflexivity |]. intros _. reflexivity.
Qed.

(** The hook listening: mounted in a browser with speech support,
    enabled, permission granted, recognition started. *)
Definition listening : Hook :=
  run [SetEnabled true; PermissionGranted; RecOnStart 0] (mount true false).

Lemma silence_emits_one_final_utterance_witness :
  final_utterances
    (log (run (fragment_events 0
                 [(10, [("hello", true)]);
                  (500, [("wor", false)]);
                  (300, [("world", true); ("how", false)])]
               ++ [Elapse 1300]) listening))
  = [(2010, "hello world")].
Proof.
  assert (G : Forall (fun fr : nat * list (string * bool) => fst fr < 1200)
                [(10, [("hello", true)]);
                 (500, [("wor", false)]);
                 (300, [("world", true); ("how", false)])])
    by (repeat constructor; simpl; lia).
  assert (L : 1200 < 1300) by lia.
  exact (proj1 (silence_emits_one_final_utterance listening 0
                  (mkRecognition RecActive EmptyString None) _ 1300
                  eq_refl eq_refl eq_refl eq_refl G L)).
Defined.

(** ** Turn taking *)

(** The recognition object in use is capturing. *)
Definition capturing (s : Hook) : bool :=
  match recognitionRef s with
  | Some r =>
      match nth_error (recognitions s) r with
      | Some rec =>
          match rstate rec with RecActive => true | _ => false end
      | None => false
      end
  | None => false
  end.

(** C1, as the spec states it, fails: [speak] aborts the recognition
    object and leaves [isListening] as it is ([pauseListening] does not
    clear it), so after [speak] both flags are true, until the [end]
    event of the recognition object arrives. *)
Lemma isListening_and_isSpeaking_both_true :
  let s := step (Speak "Hello" false) listening in
  isListening listening = true /\ isSpeaking listening = false
  /\ isListening s = true /\ isSpeaking s = true
  /\ isListening (step (RecOnEnd 0) s) = false.
Proof. repeat split; vm_compute; reflexivity. Qed.

(** The two speaking flags stay as they are. *)
Definition flags_kept (s s' : Hook) : Prop :=
  isSpeakingRef s' = isSpeakingRef s /\ isSpeaking s' = isSpeaking s.

(** A transition that keeps the speaking flags and that, while the
    speaking ref is set, starts no capture. *)
Definition guarded (s s' : Hook) : Prop :=
  flags_kept s s'
  /\ (isSpeakingRef s = true -> capturing s' = true -> capturing s = true).

(** The turn invariant: the speaking ref and the speaking state agree,
    and while they are set the recognition object in use is not
    capturing. *)
Definition turn_exclusive (s : Hook) : Prop :=
  isSpeakingRef s = isSpeaking s
  /\ (isSpeakingRef s = true -> capturing s = false).

Lemma guarded_refl (s : Hook) : guarded s s.
Proof. repeat split; auto. Qed.

Lemma guarded_trans (s1 s2 s3 : Hook) :
  guarded s1 s2 -> guarded s2 s3 -> guarded s1 s3.
Proof.
  intros [[A1 B1] C1] [[A2 B2] C2]. repeat split; try congruence.
  intros H K. apply C1; [exact H |]. apply C2; [congruence | exact K].
Qed.

Lemma guarded_when_silent (s s' : Hook) :
  isSpeakingRef s = false -> flags_kept s s' -> guarded s s'.
Proof. intros H F. split; [exact F |]. intros K. congruence. Qed.

Lemma turn_exclusive_guarded (s s' : Hook) :
  turn_exclusive s -> guarded s s' -> turn_exclusive s'.
Proof.
  intros [E X] [[A B] C]. split; [congruence |].
  intros H. rewrite A in H. specialize (X H). specialize (C H).
  destruct (capturing s'); [| reflexivity].
  rewrite C in X; [discriminate | reflexivity].
Qed.

Lemma turn_exclusive_silent (s : Hook) :
  isSpeakingRef s = false -> isSpeaking s = false -> turn_exclusive s.
Proof. intros A B. split; congruence. Qed.

Ltac case_match :=
  match goal with
  | |- context [if ?b then _ else _] => destruct b eqn:?
  | |- context [match ?x with _ => _ end] =>
      lazymatch type of x with
      | Hook => fail
      | _ => destruct x eqn:?
      end
  end.

Lemma guarded_if (b : bool) (s x y : Hook) :
  guarded s x -> guarded s y -> guarded s (if b then x else y).
Proof. destruct b; auto. Qed.

(** An update of a recognition object that does not set it capturing. *)
Lemma capturing_update_rec (r : nat) (f : Recognition -> Recognition)
  (s : Hook) :
  (forall rec, rstate (f rec) = RecActive -> rstate rec = RecActive) ->
  capturing (update_rec r f s) = true -> capturing s = true.
Proof.
  intros Hf. unfold capturing. simpl.
  destruct (recognitionRef s) as [c|]; [| auto].
  destruct (Nat.eq_dec r c) as [->|N].
  - rewrite nth_error_update_nth_eq.
    destruct (nth_error (recognitions s) c) as [rec|]; simpl; [| auto].
    destruct (rstate (f rec)) eqn:E; try discriminate.
    rewrite (Hf rec E). auto.
  - rewrite nth_error_update_nth_ne by exact N. auto.
Qed.

Lemma guarded_update_rec (r : nat) (f : Recognition -> Recognition)
  (s : Hook) :
  (forall rec, rstate (f rec) = RecActive -> rstate rec = RecActive) ->
  guarded s (update_rec r f s).
Proof.
  intros Hf. split; [split; reflexivity |].
  intros _. apply capturing_update_rec, Hf.
Qed.

(** A transition that leaves the flags, the recognition object in use and
    the recognition objects alone. *)
Lemma guarded_frame (s s' : Hook) :
  isSpeakingRef s' = isSpeakingRef s ->
  isSpeaking s' = isSpeaking s ->
  recognitionRef s' = recognitionRef s ->
  recognitions s' = recognitions s ->
  guarded s s'.
Proof.
  intros A B C D. split; [split; assumption |].
  intros _. unfold capturing. rewrite C, D. auto.
Qed.

Lemma guarded_abort (r : nat) (s : Hook) : guarded s (recognition_abort r s).
Proof.
  unfold recognition_abort.
  match goal with
  | |- guarded s (emit _ ?x) => apply guarded_trans with x
  end.
  - apply guarded_update_rec.
    intros rec. destruct (rstate rec) eqn:E; simpl; congruence.
  - apply guarded_frame; reflexivity.
Qed.

Lemma flags_kept_start (r : nat) (s : Hook) :
  flags_kept s (recognition_start r s).
Proof.
  unfold recognition_start, flags_kept.
  repeat case_match; simpl; auto.
Qed.

Lemma guarded_clearTimeout (id : nat) (s : Hook) :
  guarded s (clearTimeout id s).
Proof. apply guarded_frame; reflexivity. Qed.

Lemma guarded_resumeListening (s : Hook) : guarded s (resumeListening s).
Proof.
  unfold resumeListening.
  destruct (recognitionRef s) as [r|]; [| apply guarded_refl].
  destruct (isSpeakingRef s) eqn:E; simpl; [apply guarded_refl |].
  destruct (isEnabledRef s); [| apply guarded_refl].
  apply guarded_when_silent; [exact E | apply flags_kept_start].
Qed.

Lemma guarded_onend (r : nat) (rec : Recognition) (s : Hook) :
  guarded s (onend r rec s).
Proof.
  unfold onend.
  set (s1 := match silenceTimer rec with
             | Some id => clearTimeout id s
             | None => s
             end).
  assert (G1 : guarded s s1).
  { unfold s1. destruct (silenceTimer rec);
      [apply guarded_clearTimeout | apply guarded_refl]. }
  eapply guarded_trans; [exact G1 |].
  destruct (isSpeakingRef s1) eqn:E; simpl.
  - apply guarded_frame; reflexivity.
  - destruct (isEnabledRef s1 && negb (isUnmountedRef s1)).
    + apply guarded_when_silent; [exact E | apply flags_kept_start].
    + apply guarded_frame; reflexivity.
Qed.

Lemma guarded_onresult (r : nat) (rec : Recognition)
  (results : list (string * bool)) (s : Hook) :
  guarded s (onresult r rec results s).
Proof.
  unfold onresult.
  destruct (collect results (EmptyString, EmptyString)) as [i f].
  set (cur := if negb (is_empty f) then currentTranscript rec ++ f
              else currentTranscript rec).
  eapply guarded_trans;
    [apply (guarded_update_rec r (set_currentTranscript cur));
     intros x; simpl; auto |].
  set (s1 := update_rec r (set_currentTranscript cur) s).
  set (s2 := if negb (is_empty (trim (cur ++ i)))
             then emit (OnTranscript (trim (cur ++ i)) false) s1 else s1).
  assert (G2 : guarded s1 s2).
  { unfold s2. apply guarded_if;
      [apply guarded_frame; reflexivity | apply guarded_refl]. }
  eapply guarded_trans; [exact G2 |].
  set (s3 := match silenceTimer rec with
             | Some id => clearTimeout id s2
             | None => s2
             end).
  assert (G3 : guarded s2 s3).
  { unfold s3. destruct (silenceTimer rec);
      [apply guarded_clearTimeout | apply guarded_refl]. }
  eapply guarded_trans; [exact G3 |].
  apply guarded_if; [| apply guarded_refl].
  unfold setTimeout.
  eapply guarded_trans;
    [| apply guarded_update_rec; intros x; simpl; auto].
  apply guarded_frame; reflexivity.
Qed.

Lemma guarded_silence_callback (r : nat) (s : Hook) :
  guarded s (silence_callback r s).
Proof.
  unfold silence_callback.
  destruct (nth_error (recognitions s) r); [| apply guarded_refl].
  eapply guarded_trans;
    [| apply guarded_update_rec; intros x; simpl; auto].
  apply guarded_frame; reflexivity.
Qed.

Lemma guarded_fire (t : Timer) (s : Hook) : guarded s (fire t s).
Proof.
  unfold fire.
  assert (G : guarded s (set_now (due t) (clearTimeout (tid t) s)))
    by (apply guarded_frame; reflexivity).
  eapply guarded_trans; [exact G |].
  destruct (action t);
    [apply guarded_resumeListening | apply guarded_silence_callback].
Qed.

Lemma guarded_run_timers (fuel target : nat) (s : Hook) :
  guarded s (run_timers fuel target s).
Proof.
  revert s. induction fuel as [|fuel IH]; intros s; simpl.
  - apply guarded_refl.
  - destruct (next_due target (timers s)) as [t|]; [| apply guarded_refl].
    eapply guarded_trans; [apply guarded_fire | apply IH].
Qed.

Lemma guarded_elapse (d : nat) (s : Hook) : guarded s (elapse d s).
Proof.
  unfold elapse.
  eapply guarded_trans; [apply guarded_run_timers |].
  apply guarded_frame; reflexivity.
Qed.

Lemma guarded_initializeVoiceMode (s : Hook) :
  guarded s (initializeVoiceMode s).
Proof.
  unfold initializeVoiceMode.
  repeat case_match; try apply guarded_refl.
  apply guarded_frame; reflexivity.
Qed.

Lemma guarded_permissionGranted (s : Hook) :
  isSpeakingRef s = false -> guarded s (permissionGranted s).
Proof.
  intros H. apply guarded_when_silent; [exact H |].
  unfold permissionGranted.
  destruct (pendingInit s); [split; reflexivity |].
  match goal with
  | |- flags_kept s (recognition_start ?r ?x) =>
      destruct (flags_kept_start r x) as [A B]
  end.
  split; [rewrite A | rewrite B]; reflexivity.
Qed.

Lemma guarded_stopListening (s : Hook) : guarded s (stopListening s).
Proof.
  unfold stopListening.
  destruct (recognitionRef s) as [r|].
  - eapply guarded_trans; [apply guarded_abort |].
    apply guarded_frame; reflexivity.
  - apply guarded_frame; reflexivity.
Qed.

Lemma guarded_pauseListening (s : Hook) : guarded s (pauseListening s).
Proof.
  unfold pauseListening.
  destruct (recognitionRef s); [apply guarded_abort | apply guarded_refl].
Qed.

Lemma teardown_silent (s : Hook) :
  isSpeakingRef (teardown s) = false /\ isSpeaking (teardown s) = false.
Proof. split; reflexivity. Qed.

Lemma capturing_pauseListening (s : Hook) :
  capturing (pauseListening s) = false.
Proof.
  unfold pauseListening, capturing.
  destruct (recognitionRef s) as [r|] eqn:R; [| rewrite R; reflexivity].
  unfold recognition_abort. simpl. rewrite R.
  rewrite nth_error_update_nth_eq.
  destruct (nth_error (recognitions s) r) as [rec|]; [| reflexivity].
  simpl. destruct (rstate rec) eqn:E; simpl; rewrite ?E; reflexivity.
Qed.

Lemma turn_exclusive_speak (text : string) (onBoundary : bool) (s : Hook) :
  turn_exclusive s -> turn_exclusive (speak text onBoundary s).
Proof.
  intros J. unfold speak.
  destruct (negb (synthRef s) || is_empty text); [exact J |].
  set (x := set_isSpeaking true (set_isSpeakingRef true s)).
  destruct (guarded_pauseListening x) as [[A B] _].
  split.
  - change (isSpeakingRef (pauseListening x) = isSpeaking (pauseListening x)).
    rewrite A, B. reflexivity.
  - intros _. exact (capturing_pauseListening x).
Qed.

Lemma turn_exclusive_speech_over (u : nat) (ut : Utterance) (s : Hook) :
  turn_exclusive (speech_over u ut s).
Proof.
  unfold speech_over.
  destruct (hasBoundary ut); apply turn_exclusive_silent; reflexivity.
Qed.

Lemma turn_exclusive_teardown (s : Hook) : turn_exclusive (teardown s).
Proof. apply turn_exclusive_silent; reflexivity. Qed.

Lemma guarded_synth_cancel_if (s : Hook) :
  guarded s (if synthRef s then synth_cancel s else s).
Proof.
  apply guarded_if; [apply guarded_frame; reflexivity | apply guarded_refl].
Qed.

(** Every handler keeps the turn invariant; the one transition that
    could break it is the start of a new recognition object while the
    speaking ref is set. *)
Lemma step_turn_exclusive (e : Event) (s : Hook) :
  turn_exclusive s ->
  (e = PermissionGranted -> isSpeakingRef s = false) ->
  turn_exclusive (step e s).
Proof.
  intros J Hinit.
  destruct e as [b | | message | text onBoundary | | | | | |
                 | r | r results | r err | r | u name charIndex | u | u
                 | d]; simpl.
  - (* SetEnabled *)
    unfold setEnabled. destruct (Bool.eqb b (isEnabled s)); [exact J |].
    destruct (isEnabled s); simpl negb; cbv iota.
    + apply (turn_exclusive_guarded s); [exact J |].
      apply guarded_if.
      * eapply guarded_trans; [| apply guarded_initializeVoiceMode].
        apply guarded_frame; reflexivity.
      * apply guarded_frame; reflexivity.
    + match goal with
      | |- turn_exclusive (if _ then initializeVoiceMode ?x else ?x) =>
          assert (K : turn_exclusive x)
            by (apply turn_exclusive_silent; reflexivity);
          apply (turn_exclusive_guarded x); [exact K |];
          apply guarded_if;
            [apply guarded_initializeVoiceMode | apply guarded_refl]
      end.
  - (* PermissionGranted *)
    apply (turn_exclusive_guarded s); [exact J |].
    apply guarded_permissionGranted, Hinit. reflexivity.
  - (* PermissionDenied *)
    apply (turn_exclusive_guarded s); [exact J |].
    unfold permissionDenied. destruct (pendingInit s);
      [apply guarded_refl | apply guarded_frame; reflexivity].
  - (* Speak *)
    apply turn_exclusive_speak, J.
  - (* StopSpeaking *)
    apply turn_exclusive_silent; reflexivity.
  - (* PauseListening *)
    apply (turn_exclusive_guarded s); [exact J |].
    apply guarded_pauseListening.
  - (* ResumeListening *)
    apply (turn_exclusive_guarded s); [exact J |].
    apply guarded_resumeListening.
  - (* StartListening *)
    apply (turn_exclusive_guarded s); [exact J |].
    apply guarded_initializeVoiceMode.
  - (* StopListening *)
    apply (turn_exclusive_guarded s); [exact J |].
    apply guarded_stopListening.
  - (* Unmount *)
    unfold unmount.
    set (s1 := if negb (isEnabled s) then teardown s else s).
    assert (J1 : turn_exclusive s1).
    { unfold s1. destruct (negb (isEnabled s));
        [apply turn_exclusive_teardown | exact J]. }
    set (s2 := set_isUnmountedRef true s1).
    assert (J2 : turn_exclusive s2).
    { apply (turn_exclusive_guarded s1); [exact J1 |].
      apply guarded_frame; reflexivity. }
    set (s3 := match recognitionRef s2 with
               | Some r => recognition_abort r s2
               | None => s2
               end).
    assert (J3 : turn_exclusive s3).
    { apply (turn_exclusive_guarded s2); [exact J2 |].
      unfold s3. destruct (recognitionRef s2);
        [apply guarded_abort | apply guarded_refl]. }
    apply (turn_exclusive_guarded s3); [exact J3 |].
    apply guarded_synth_cancel_if.
  - (* RecOnStart *)
    apply (turn_exclusive_guarded s); [exact J |].
    destruct (nth_error (recognitions s) r) as [rec|];
      [| apply guarded_refl].
    destruct (rstate rec); try apply guarded_refl.
    apply guarded_frame; reflexivity.
  - (* RecOnResult *)
    apply (turn_exclusive_guarded s); [exact J |].
    destruct (nth_error (recognitions s) r) as [rec|];
      [| apply guarded_refl].
    destruct (rstate rec); try apply guarded_refl.
    apply guarded_onresult.
  - (* RecOnError *)
    apply (turn_exclusive_guarded s); [exact J |].
    destruct (nth_error (recognitions s) r) as [rec|];
      [| apply guarded_refl].
    unfold onerror. repeat apply guarded_if; try apply guarded_refl.
    apply guarded_frame; reflexivity.
  - (* RecOnEnd *)
    apply (turn_exclusive_guarded s); [exact J |].
    destruct (nth_error (recognitions s) r) as [rec|];
      [| apply guarded_refl].
    assert (G : guarded s (onend r rec (update_rec r (set_rstate RecIdle) s))).
    { eapply guarded_trans; [| apply guarded_onend].
      apply guarded_update_rec. intros x; simpl; congruence. }
    destruct (rstate rec); [apply guarded_refl | exact G | exact G].
  - (* UttOnBoundary *)
    apply (turn_exclusive_guarded s); [exact J |].
    destruct (nth_error (utterances s) u) as [ut|]; [| apply guarded_refl].
    apply guarded_if; [apply guarded_refl |].
    unfold onboundary. apply guarded_if;
      [apply guarded_frame; reflexivity | apply guarded_refl].
  - (* UttOnEnd *)
    destruct (nth_error (utterances s) u) as [ut|]; [| exact J].
    destruct (terminated ut); [exact J |].
    unfold utterance_onend, setTimeout, speech_over.
    destruct (hasBoundary ut); apply turn_exclusive_silent; reflexivity.
  - (* UttOnError *)
    destruct (nth_error (utterances s) u) as [ut|]; [| exact J].
    destruct (terminated ut); [exact J |].
    unfold utterance_onerror.
    eapply turn_exclusive_guarded;
      [apply turn_exclusive_speech_over | apply guarded_resumeListening].
  - (* Elapse *)
    apply (turn_exclusive_guarded s); [exact J |]. apply guarded_elapse.
Qed.

(** Voice mode initialisation never completes while the speaking ref is
    set: each [PermissionGranted] of the sequence finds it clear. *)
Fixpoint initialised_in_silence (es : list Event) (s : Hook) : Prop :=
  match es with
  | [] => True
  | e :: es' =>
      (e = PermissionGranted -> isSpeakingRef s = false)
      /\ initialised_in_silence es' (step e s)
  end.

Lemma mount_turn_exclusive (supported enabled : bool) :
  turn_exclusive (mount supported enabled).
Proof.
  unfold mount. destruct supported.
  - destruct enabled; simpl negb; cbv iota.
    + apply (turn_exclusive_guarded
               (set_synthRef true
                  (set_isSupported true
                     (mkHook true false false None false None false false
                        true false [] [] [] 0 0 [] 0 [])))).
      * apply turn_exclusive_silent; reflexivity.
      * apply guarded_initializeVoiceMode.
    + apply turn_exclusive_teardown.
  - apply turn_exclusive_silent; reflexivity.
Qed.

(** C1, amended.  Along every sequence of events (calls of the hook,
    changes of [isEnabled], events of the host, time passing) in which
    voice mode initialisation does not complete while the hook speaks,
    the speaking ref equals [isSpeaking], and while they are set the
    recognition object in use is not capturing: [speak] aborts it before
    playback starts, and neither [onend] nor [resumeListening] starts it
    again before the flag is cleared.  ([isListening] is outside this
    exclusion: [speak] leaves it set.) *)
Theorem capture_excluded_while_speaking (supported enabled : bool)
  (es : list Event) :
  initialised_in_silence es (mount supported enabled) ->
  Forall (fun s => isSpeakingRef s = isSpeaking s
                   /\ (isSpeaking s = true -> capturing s = false))
         (visited es (mount supported enabled)).
Proof.
  intros H.
  assert (G : forall s, turn_exclusive s -> initialised_in_silence es s ->
                        Forall turn_exclusive (visited es s)).
  { clear H. induction es as [|e es IH]; intros s J I; simpl.
    - constructor; [exact J | constructor].
    - destruct I as [I1 I2]. constructor; [exact J |].
      apply IH; [apply step_turn_exclusive; assumption | exact I2]. }
  specialize (G _ (mount_turn_exclusive supported enabled) H).
  eapply Forall_impl; [| exact G].
  intros s [A B]. split; [exact A |]. intros K. apply B. congruence.
Qed.

Lemma capture_excluded_while_speaking_witness :
  initialised_in_silence
    [SetEnabled true; PermissionGranted; RecOnStart 0; Speak "Hello" false;
     RecOnEnd 0; UttOnEnd 0; Elapse 100] (mount true false)
  /\ Forall (fun s => isSpeakingRef s = isSpeaking s
                      /\ (isSpeaking s = true -> capturing s = false))
       (visited
          [SetEnabled true; PermissionGranted; RecOnStart 0;
           Speak "Hello" false; RecOnEnd 0; UttOnEnd 0; Elapse 100]
          (mount true false)).
Proof.
  assert (I : initialised_in_silence
                [SetEnabled true; PermissionGranted; RecOnStart 0;
                 Speak "Hello" false; RecOnEnd 0; UttOnEnd 0; Elapse 100]
                (mount true false))
    by (simpl; repeat split; intros E; try discriminate E; reflexivity).
  split; [exact I |].
  exact (capture_excluded_while_speaking true false _ I).
Defined.

(** ** Recovery of the turn after speech *)

(** The number of times capture was started, in a log. *)
Definition capture_starts (l : list (nat * Effect)) : nat :=
  List.length
    (filter (fun entry =>
               match entry with
               | (_, RecognitionStart _) => true
               | _ => false
               end) l).



(** For the symbolic runs below, the handlers unfold on explicit states. *)
Arguments set_isEnabled v s /.
Arguments set_isListening v s /.
Arguments set_isSpeaking v s /.
Arguments set_error v s /.
Arguments set_isSupported v s /.
Arguments set_recognitionRef v s /.
Arguments set_synthRef v s /.
Arguments set_isUnmountedRef v s /.
Arguments set_isEnabledRef v s /.
Arguments set_isSpeakingRef v s /.
Arguments set_recognitions v s /.
Arguments set_utterances v s /.
Arguments set_synthQueue v s /.
Arguments set_pendingInit v s /.
Arguments set_now v s /.
Arguments set_timers v s /.
Arguments set_nextTimer v s /.
Arguments set_log v s /.
Arguments set_rstate v rec /.
Arguments set_currentTranscript v rec /.
Arguments set_silenceTimer v rec /.
Arguments set_terminated v u /.
Arguments update_rec r f s /.
Arguments update_utt u f s /.
Arguments emit e s /.
Arguments recognition_start r s /.
Arguments recognition_abort r s /.
Arguments synth_cancel s /.
Arguments synth_speak u text s /.
Arguments setTimeout a delay s /.
Arguments clearTimeout id s /.
Arguments pauseListening s /.
Arguments resumeListening s /.
Arguments speak text onBoundary s /.
Arguments onend r rec s /.
Arguments speech_over u ut s /.
Arguments utterance_onend u ut s /.
Arguments utterance_onerror u ut s /.
Arguments silence_callback r s /.
Arguments fire t s /.
Arguments elapse d s /.
Arguments step e s /.
Arguments sanitize text : simpl never.

Lemma nth_error_app_length {A : Type} (l : list A) (x : A) :
  nth_error (l ++ [x]) (List.length l) = Some x.
Proof. induction l as [|a l IH]; simpl; auto. Qed.







(** ** The text that is spoken *)

Lemma length_append (a b : string) :
  String.length (a ++ b) = String.length a + String.length b.
Proof. induction a as [|c a IH]; simpl; [| rewrite IH]; reflexivity. Qed.

Lemma substring_from_nil (k : nat) : substring_from k EmptyString = EmptyString.
Proof. destruct k; reflexivity. Qed.

Lemma substring_from_app (p q : string) :
  substring_from (String.length p) (p ++ q) = q.
Proof. induction p as [|c p IH]; simpl; [reflexivity | exact IH]. Qed.

Lemma substring_from_add (j k : nat) (s : string) :
  substring_from (j + k) s = substring_from k (substring_from j s).
Proof.
  revert s. induction j as [|j IH]; intros s; simpl; [reflexivity |].
  destruct s as [|c s]; [now rewrite substring_from_nil | apply IH].
Qed.

(** Passing over [k] characters is the scan of what follows them. *)
Lemma replace_from_skip (m : string -> option (string * nat)) (k : nat)
  (s : string) :
  replace_from m k s = replace_all m (substring_from k s).
Proof.
  revert k. induction s as [|c s IH]; intros k.
  - rewrite substring_from_nil. destruct k; reflexivity.
  - destruct k as [|k]; [reflexivity |]. simpl. apply IH.
Qed.

(** The scan at a character where the expression matches. *)
Lemma replace_all_match (m : string -> option (string * nat)) (c : ascii)
  (s r : string) (len : nat) :
  m (String c s) = Some (r, len) ->
  replace_all m (String c s)
  = r ++ replace_all m (substring_from (len - 1) s).
Proof.
  intros H. unfold replace_all at 1. simpl. rewrite H.
  rewrite replace_from_skip. reflexivity.
Qed.

(** The scan at a character where the expression does not match. *)
Lemma replace_all_no_match (m : string -> option (string * nat)) (c : ascii)
  (s : string) :
  m (String c s) = None ->
  replace_all m (String c s) = String c (replace_all m s).
Proof. intros H. unfold replace_all. simpl. rewrite H. reflexivity. Qed.

(** A text in which no match starts is copied up to what follows it. *)
Lemma replace_all_prefix (m : string -> option (string * nat))
  (a rest : string) :
  (forall a1 c a2, a = a1 ++ String c a2 -> m (String c a2 ++ rest) = None) ->
  replace_all m (a ++ rest) = a ++ replace_all m rest.
Proof.
  induction a as [|c a IH]; intros H; [reflexivity |].
  simpl. rewrite replace_all_no_match by (apply (H EmptyString c a eq_refl)).
  rewrite IH; [reflexivity |].
  intros a1 d a2 E. apply (H (String c a1) d a2). simpl. now rewrite E.
Qed.

(** The characters of a string all satisfy [p]. *)
Fixpoint all_chars (p : ascii -> bool) (s : string) : bool :=
  match s with
  | EmptyString => true
  | String c s' => p c && all_chars p s'
  end.

Lemma all_chars_app (p : ascii -> bool) (a b : string) :
  all_chars p (a ++ b) = all_chars p a && all_chars p b.
Proof.
  induction a as [|c a IH]; simpl; [reflexivity |].
  rewrite IH. apply andb_assoc.
Qed.

(** A string without the character [x]. *)
Definition without (x : ascii) (s : string) : bool := all_chars (is_not x) s.

Lemma without_suffix (x : ascii) (a1 : string) (c : ascii) (a2 : string) :
  without x (a1 ++ String c a2) = true -> Ascii.eqb c x = false.
Proof.
  unfold without. rewrite all_chars_app. simpl. unfold is_not.
  intros H. apply andb_prop in H. destruct H as [_ H].
  apply andb_prop in H. destruct H as [H _].
  now apply negb_true_iff in H.
Qed.

Lemma lower_char_lt (c : ascii) :
  Ascii.eqb (lower_char "<") (lower_char c) = Ascii.eqb "<" c.
Proof.
  destruct c as [[] [] [] [] [] [] [] []]; reflexivity.
Qed.

(** An element expression matches only at an opening angle bracket. *)
Lemma match_element_head (o close phrase : string) (c : ascii) (s : string) :
  Ascii.eqb c "<" = false ->
  match_element (String "<" o) close phrase (String c s) = None.
Proof.
  intros H. unfold match_element. simpl. unfold ci_eqb.
  rewrite lower_char_lt, Ascii.eqb_sym, H. reflexivity.
Qed.

Lemma prefix_ci_app (p rest : string) : prefix_ci p (p ++ rest) = true.
Proof.
  induction p as [|c p IH]; simpl; [reflexivity |].
  unfold ci_eqb. rewrite Ascii.eqb_refl. exact IH.
Qed.

(** The lazy capture stops at the first closing tag: a content without
    an angle bracket and without a line terminator is captured whole. *)
Lemma lazy_capture_content (c' x rest : string) :
  without "<" x = true ->
  all_chars (fun c => negb (is_line_terminator c)) x = true ->
  lazy_capture (String "<" c') (x ++ String "<" (c' ++ rest)) = Some x.
Proof.
  intros Hx Hl. induction x as [|c x IH].
  - simpl. rewrite (prefix_ci_app c' rest). reflexivity.
  - simpl in Hx, Hl. apply andb_prop in Hx. destruct Hx as [Hc Hx].
    apply andb_prop in Hl. destruct Hl as [Lc Hl].
    unfold is_not in Hc. apply negb_true_iff in Hc.
    apply negb_true_iff in Lc.
    simpl. unfold ci_eqb at 1. rewrite lower_char_lt, Ascii.eqb_sym, Hc.
    simpl. rewrite Lc, (IH Hx Hl). reflexivity.
Qed.

Lemma substring_from_app3 (o x c rest : string) :
  substring_from (String.length o + String.length x + String.length c)
    (o ++ x ++ c ++ rest) = rest.
Proof.
  rewrite !substring_from_add, !substring_from_app. reflexivity.
Qed.

(** The pass of an element expression on a text whose first element is
    well formed: the text before it is copied, the element is replaced by
    the phrase and its content, and the scan goes on after it. *)
Lemma replace_element (o c' phrase a x rest : string) :
  without "<" a = true ->
  without "<" x = true ->
  all_chars (fun c => negb (is_line_terminator c)) x = true ->
  replace_all (match_element (String "<" o) (String "<" c') phrase)
    (a ++ String "<" o ++ x ++ String "<" c' ++ rest)
  = a ++ phrase ++ x ++ " "
      ++ replace_all (match_element (String "<" o) (String "<" c') phrase)
           rest.
Proof.
  intros Ha Hx Hl.
  rewrite replace_all_prefix.
  2:{ intros a1 c a2 E. simpl. apply match_element_head.
      rewrite E in Ha. exact (without_suffix _ _ _ _ Ha). }
  f_equal.
  assert (M : match_element (String "<" o) (String "<" c') phrase
                (String "<" o ++ x ++ String "<" c' ++ rest)
              = Some (phrase ++ x ++ " ",
                      String.length (String "<" o) + String.length x
                      + String.length (String "<" c'))).
  { unfold match_element. rewrite prefix_ci_app, substring_from_app.
    simpl append. rewrite lazy_capture_content by assumption.
    reflexivity. }
  assert (R : substring_from
                (String.length (String "<" o) + String.length x
                 + String.length (String "<" c') - 1)
                (o ++ x ++ String "<" c' ++ rest) = rest).
  { replace (String.length (String "<" o) + String.length x
             + String.length (String "<" c') - 1)
      with (String.length o + String.length x
            + String.length (String "<" c')) by (simpl; lia).
    apply substring_from_app3. }
  change (String "<" o ++ x ++ String "<" c' ++ rest)
    with (String "<" (o ++ x ++ String "<" c' ++ rest)) in *.
  rewrite (replace_all_match _ _ _ _ _ M), R.
  rewrite !append_assoc. reflexivity.
Qed.

(** The two element passes of [speak]. *)
Lemma replace_sup (a x rest : string) :
  without "<" a = true ->
  without "<" x = true ->
  all_chars (fun c => negb (is_line_terminator c)) x = true ->
  replace_all match_sup (a ++ "<sup>" ++ x ++ "</sup>" ++ rest)
  = a ++ " raised to the power of " ++ x ++ " "
      ++ replace_all match_sup rest.
Proof. apply (replace_element "sup>" "/sup>"). Qed.

Lemma replace_sub (a x rest : string) :
  without "<" a = true ->
  without "<" x = true ->
  all_chars (fun c => negb (is_line_terminator c)) x = true ->
  replace_all match_sub (a ++ "<sub>" ++ x ++ "</sub>" ++ rest)
  = a ++ " base " ++ x ++ " " ++ replace_all match_sub rest.
Proof. apply (replace_element "sub>" "/sub>"). Qed.

(** A text in which no match starts is left as it is. *)
Lemma replace_all_unmatched (m : string -> option (string * nat))
  (a : string) :
  (forall a1 c a2, a = a1 ++ String c a2 -> m (String c a2) = None) ->
  replace_all m a = a.
Proof.
  intros H. rewrite <- (append_nil_r a) at 1.
  rewrite replace_all_prefix; [apply append_nil_r |].
  intros a1 c a2 E. rewrite append_nil_r. eapply H, E.
Qed.

(** What follows a greedy run: the end of the text, or a character the
    run refuses. *)
Definition stops (p : ascii -> bool) (q : string) : Prop :=
  match q with
  | EmptyString => True
  | String c _ => p c = false
  end.

Lemma span_app (p : ascii -> bool) (a q : string) :
  all_chars p a = true -> stops p q ->
  span p (a ++ q) = String.length a.
Proof.
  intros Ha Hq. induction a as [|c a IH]; simpl.
  - destruct q as [|c q]; simpl in *; [reflexivity | now rewrite Hq].
  - simpl in Ha. apply andb_prop in Ha. destruct Ha as [Hc Ha].
    rewrite Hc, (IH Ha). reflexivity.
Qed.

Lemma prefix_head_neq (x c : ascii) (p s : string) :
  Ascii.eqb c x = false -> prefix (String x p) (String c s) = false.
Proof.
  intros H. simpl. destruct (ascii_dec x c) as [E|E]; [| reflexivity].
  subst. now rewrite Ascii.eqb_refl in H.
Qed.

Lemma prefix_nil (s : string) : prefix EmptyString s = true.
Proof. destruct s; reflexivity. Qed.

Lemma prefix_app (p q : string) : prefix p (p ++ q) = true.
Proof.
  induction p as [|c p IH]; simpl; [now destruct q |].
  destruct (ascii_dec c c); [exact IH | congruence].
Qed.

(** The image pass on a text whose first image is well formed. *)
Lemma remove_image (a alt url rest : string) :
  without "!" a = true ->
  without "]" alt = true ->
  without ")" url = true ->
  url <> EmptyString ->
  replace_all match_image (a ++ "![" ++ alt ++ "](" ++ url ++ ")" ++ rest)
  = a ++ replace_all match_image rest.
Proof.
  intros Ha Halt Hurl Hne.
  rewrite replace_all_prefix.
  2:{ intros a1 c a2 E. unfold match_image. simpl append.
      rewrite prefix_head_neq; [reflexivity |].
      rewrite E in Ha. exact (without_suffix _ _ _ _ Ha). }
  f_equal.
  assert (M : match_image ("![" ++ alt ++ "](" ++ url ++ ")" ++ rest)
              = Some (EmptyString,
                      2 + String.length alt + 2 + String.length url + 1)).
  { unfold match_image. cbv zeta.
    change ("![" ++ alt ++ "](" ++ url ++ ")" ++ rest)
      with (String "!" (String "[" (alt ++ "](" ++ url ++ ")" ++ rest))).
    cbn [prefix substring_from]. simpl ascii_dec. cbv iota.
    rewrite (span_app (is_not "]") alt) by (try exact Halt; reflexivity).
    rewrite substring_from_app.
    change ("](" ++ url ++ ")" ++ rest)
      with (String "]" (String "(" (url ++ ")" ++ rest))).
    cbn [prefix substring_from]. simpl ascii_dec. cbv iota.
    rewrite (span_app (is_not ")") url) by (try exact Hurl; reflexivity).
    rewrite substring_from_app, prefix_app, !prefix_nil.
    destruct url; [congruence | reflexivity]. }
  assert (R : substring_from
                (2 + String.length alt + 2 + String.length url + 1 - 1)
                ("[" ++ alt ++ "](" ++ url ++ ")" ++ rest) = rest).
  { replace (2 + String.length alt + 2 + String.length url + 1 - 1)
      with (String.length "[" + String.length alt
            + String.length ("](" ++ url ++ ")"))
      by (rewrite !length_append; simpl; lia).
    assert (A : "](" ++ url ++ ")" ++ rest = ("](" ++ url ++ ")") ++ rest)
      by (now rewrite !append_assoc).
    rewrite A. apply substring_from_app3. }
  change ("![" ++ alt ++ "](" ++ url ++ ")" ++ rest)
    with (String "!" ("[" ++ alt ++ "](" ++ url ++ ")" ++ rest)) in *.
  rewrite (replace_all_match _ _ _ _ _ M), R. reflexivity.
Qed.

(** The tag pass on a text whose first tag is closed. *)
Lemma strip_tag (a t rest : string) :
  without "<" a = true ->
  without ">" t = true ->
  replace_all match_tag (a ++ "<" ++ t ++ ">" ++ rest)
  = a ++ " " ++ replace_all match_tag rest.
Proof.
  intros Ha Ht.
  rewrite replace_all_prefix.
  2:{ intros a1 c a2 E. simpl append.
      rewrite E in Ha. pose proof (without_suffix _ _ _ _ Ha) as N.
      unfold match_tag.
      destruct c as [[] [] [] [] [] [] [] []]; try reflexivity.
      discriminate N. }
  f_equal.
  assert (M : match_tag ("<" ++ t ++ ">" ++ rest)
              = Some (" ", 1 + String.length t + 1)).
  { change ("<" ++ t ++ ">" ++ rest) with (String "<" (t ++ ">" ++ rest)).
    unfold match_tag. cbv iota beta zeta.
    rewrite (span_app (is_not ">") t) by (try exact Ht; reflexivity).
    rewrite substring_from_app, prefix_app. reflexivity. }
  assert (R : substring_from (1 + String.length t + 1 - 1)
                (t ++ ">" ++ rest) = rest).
  { replace (1 + String.length t + 1 - 1)
      with (String.length EmptyString + String.length t
            + String.length ">") by (simpl; lia).
    apply (substring_from_app3 EmptyString). }
  change ("<" ++ t ++ ">" ++ rest) with (String "<" (t ++ ">" ++ rest)) in *.
  rewrite (replace_all_match _ _ _ _ _ M), R. reflexivity.
Qed.

(** ** No tag is left *)

Fixpoint has_char (x : ascii) (s : string) : bool :=
  match s with
  | EmptyString => false
  | String c s' => Ascii.eqb c x || has_char x s'
  end.

(** Some opening angle bracket of [s] is followed, somewhere, by a closing
    one: the tag expression of [speak] matches somewhere in [s]. *)
Fixpoint has_tag (s : string) : bool :=
  match s with
  | EmptyString => false
  | String c s' => (Ascii.eqb c "<" && has_char ">" s') || has_tag s'
  end.

(** The angle brackets of a string, in order. *)
Fixpoint angles (s : string) : string :=
  match s with
  | EmptyString => EmptyString
  | String c s' =>
      if Ascii.eqb c "<" || Ascii.eqb c ">" then String c (angles s')
      else angles s'
  end.

Lemma has_char_angles (s : string) :
  has_char ">" (angles s) = has_char ">" s.
Proof.
  induction s as [|c s IH]; simpl; [reflexivity |].
  destruct (Ascii.eqb c "<") eqn:L, (Ascii.eqb c ">") eqn:G; simpl;
    rewrite ?L, ?G, IH; reflexivity.
Qed.

Lemma has_tag_angles (s : string) : has_tag (angles s) = has_tag s.
Proof.
  induction s as [|c s IH]; simpl; [reflexivity |].
  destruct (Ascii.eqb c "<") eqn:L, (Ascii.eqb c ">") eqn:G; simpl;
    rewrite ?L, ?G, ?has_char_angles, IH; reflexivity.
Qed.

Lemma is_ws_not_angle (c : ascii) :
  is_ws c = true -> Ascii.eqb c "<" || Ascii.eqb c ">" = false.
Proof.
  destruct c as [[] [] [] [] [] [] [] []]; intros H;
    try reflexivity; discriminate H.
Qed.

Lemma substring_from_length (k : nat) (s : string) :
  String.length (substring_from k s) <= String.length s.
Proof.
  revert s. induction k as [|k IH]; intros [|c s]; simpl; auto.
Qed.

Lemma angles_skip_spaces (s : string) :
  angles (substring_from (span is_ws s) s) = angles s.
Proof.
  induction s as [|c s IH]; simpl; [reflexivity |].
  destruct (is_ws c) eqn:W; simpl; [| reflexivity].
  rewrite (is_ws_not_angle c W). exact IH.
Qed.

(** Strong induction on the length of the text, for the scans. *)
Lemma string_length_ind (P : string -> Prop) :
  (forall s, (forall t, String.length t < String.length s -> P t) -> P s) ->
  forall s, P s.
Proof.
  intros H s.
  assert (G : forall n t, String.length t < n -> P t).
  { induction n as [|n IH]; intros t L; [lia |].
    apply H. intros u Lu. apply IH. lia. }
  apply (G (S (String.length s))). lia.
Qed.

Lemma match_spaces_ws (c : ascii) (s : string) :
  is_ws c = true ->
  match_spaces (String c s) = Some (" ", S (span is_ws s)).
Proof. intros W. unfold match_spaces. simpl. rewrite W. reflexivity. Qed.

Lemma match_spaces_other (c : ascii) (s : string) :
  is_ws c = false -> match_spaces (String c s) = None.
Proof. intros W. unfold match_spaces. simpl. rewrite W. reflexivity. Qed.

(** The white space pass at a white space character, and elsewhere. *)
Lemma squeeze_ws (c : ascii) (s : string) :
  is_ws c = true ->
  replace_all match_spaces (String c s)
  = String " " (replace_all match_spaces
                  (substring_from (span is_ws s) s)).
Proof.
  intros W. rewrite (replace_all_match _ _ _ _ _ (match_spaces_ws c s W)).
  simpl. rewrite Nat.sub_0_r. reflexivity.
Qed.

Lemma squeeze_other (c : ascii) (s : string) :
  is_ws c = false ->
  replace_all match_spaces (String c s)
  = String c (replace_all match_spaces s).
Proof.
  intros W. apply replace_all_no_match, match_spaces_other, W.
Qed.

Lemma angles_squeeze (s : string) :
  angles (replace_all match_spaces s) = angles s.
Proof.
  induction s as [s IH] using string_length_ind.
  destruct s as [|c s]; [reflexivity |].
  destruct (is_ws c) eqn:W.
  - rewrite squeeze_ws by exact W. simpl.
    rewrite (is_ws_not_angle c W). rewrite IH.
    + apply angles_skip_spaces.
    + simpl. pose proof (substring_from_length (span is_ws s) s). lia.
  - rewrite squeeze_other by exact W. simpl.
    rewrite IH by (simpl; lia). reflexivity.
Qed.

Lemma angles_trimStart (s : string) : angles (trimStart s) = angles s.
Proof.
  induction s as [|c s IH]; simpl; [reflexivity |].
  destruct (is_ws c) eqn:W; [| reflexivity].
  rewrite (is_ws_not_angle c W). exact IH.
Qed.

Lemma angles_trimEnd (s : string) : angles (trimEnd s) = angles s.
Proof.
  induction s as [|c s IH]; simpl; [reflexivity |].
  destruct (is_ws c) eqn:W; simpl.
  - rewrite (is_ws_not_angle c W).
    destruct (trimEnd s) eqn:T; simpl in *.
    + exact IH.
    + rewrite (is_ws_not_angle c W). exact IH.
  - rewrite IH. reflexivity.
Qed.

Lemma angles_trim (s : string) : angles (trim s) = angles s.
Proof. unfold trim. now rewrite angles_trimEnd, angles_trimStart. Qed.

Lemma no_closing_after_span (s : string) :
  prefix ">" (substring_from (span (is_not ">") s) s) = false ->
  has_char ">" s = false.
Proof.
  induction s as [|c s IH]; simpl; [reflexivity |].
  unfold is_not at 1. destruct (Ascii.eqb c ">") eqn:E; simpl.
  - apply Ascii.eqb_eq in E. subst.
    destruct s; simpl; discriminate.
  - exact IH.
Qed.

Lemma match_tag_none (s : string) :
  match_tag (String "<" s) = None -> has_char ">" s = false.
Proof.
  unfold match_tag.
  destruct (prefix ">" (substring_from (span (is_not ">") s) s)) eqn:P;
    [discriminate |].
  intros _. apply no_closing_after_span, P.
Qed.

Lemma match_tag_some (c : ascii) (s r : string) (len : nat) :
  match_tag (String c s) = Some (r, len) ->
  r = " " /\ len = 1 + span (is_not ">") s + 1.
Proof.
  unfold match_tag.
  destruct c as [[] [] [] [] [] [] [] []]; try discriminate.
  destruct (prefix ">" (substring_from (span (is_not ">") s) s));
    [| discriminate].
  intros H. inversion H. split; reflexivity.
Qed.

Lemma match_tag_other (c : ascii) (s : string) :
  Ascii.eqb c "<" = false -> match_tag (String c s) = None.
Proof.
  intros N. unfold match_tag.
  destruct c as [[] [] [] [] [] [] [] []]; try reflexivity.
  discriminate N.
Qed.

(** A text without a closing bracket has no tag to strip. *)
Lemma strip_tags_no_closing (s : string) :
  has_char ">" s = false -> replace_all match_tag s = s.
Proof.
  intros H. apply replace_all_unmatched.
  intros a1 c a2 E.
  destruct (Ascii.eqb c "<") eqn:L; [| apply match_tag_other, L].
  apply Ascii.eqb_eq in L. subst c.
  destruct (match_tag (String "<" a2)) as [[r len]|] eqn:M; [| reflexivity].
  exfalso. unfold match_tag in M.
  destruct (prefix ">" (substring_from (span (is_not ">") a2) a2)) eqn:P;
    [| discriminate].
  assert (G : has_char ">" a2 = true).
  { clear - P. induction a2 as [|c a2 IH]; simpl in *; [discriminate |].
    unfold is_not in P at 1.
    destruct (Ascii.eqb c ">") eqn:E; simpl in *; [reflexivity |].
    apply IH, P. }
  rewrite E in H. clear - H G.
  induction a1 as [|d a1 IH]; simpl in H.
  - rewrite G in H. discriminate.
  - apply orb_false_elim in H. destruct H as [_ H]. apply IH, H.
Qed.

(** After the tag pass no tag is left. *)
Lemma strip_tags_complete (s : string) :
  has_tag (replace_all match_tag s) = false.
Proof.
  induction s as [s IH] using string_length_ind.
  destruct s as [|c s]; [reflexivity |].
  destruct (match_tag (String c s)) as [[r len]|] eqn:M.
  - rewrite (replace_all_match _ _ _ _ _ M).
    destruct (match_tag_some _ _ _ _ M) as [-> ->]. simpl.
    apply IH. simpl.
    pose proof (substring_from_length (span (is_not ">") s + 1 - 0) s).
    lia.
  - rewrite (replace_all_no_match _ _ _ M). simpl.
    rewrite IH by (simpl; lia). rewrite orb_false_r.
    destruct (Ascii.eqb c "<") eqn:L; [| reflexivity].
    apply Ascii.eqb_eq in L. subst c. simpl.
    pose proof (match_tag_none _ M) as N.
    rewrite (strip_tags_no_closing _ N). exact N.
Qed.

(** The text [speak] gives to the synthesizer has no tag. *)
Lemma sanitize_has_no_tag (text : string) : has_tag (sanitize text) = false.
Proof.
  unfold sanitize.
  rewrite <- has_tag_angles, angles_trim, angles_squeeze, has_tag_angles.
  apply strip_tags_complete.
Qed.

(** ** White space is normalized *)

Definition starts_ws (s : string) : bool :=
  match s with
  | EmptyString => false
  | String c _ => is_ws c
  end.

Fixpoint ends_ws (s : string) : bool :=
  match s with
  | EmptyString => false
  | String c EmptyString => is_ws c
  | String _ s' => ends_ws s'
  end.

(** Every white space character is one space, and no two are adjacent. *)
Fixpoint single_spaced (s : string) : bool :=
  match s with
  | EmptyString => true
  | String c s' =>
      (if is_ws c then Ascii.eqb c " " && negb (starts_ws s') else true)
      && single_spaced s'
  end.

(** Single spaces between words, none at either end. *)
Definition normalized (s : string) : bool :=
  single_spaced s && negb (starts_ws s) && negb (ends_ws s).

Lemma starts_after_span (s : string) :
  starts_ws (substring_from (span is_ws s) s) = false.
Proof.
  induction s as [|c s IH]; simpl; [reflexivity |].
  destruct (is_ws c) eqn:W; simpl; [exact IH | exact W].
Qed.

Lemma starts_ws_squeeze (s : string) :
  starts_ws (replace_all match_spaces s) = starts_ws s.
Proof.
  destruct s as [|c s]; [reflexivity |].
  destruct (is_ws c) eqn:W.
  - rewrite squeeze_ws by exact W. simpl. rewrite W. reflexivity.
  - rewrite squeeze_other by exact W. reflexivity.
Qed.

Lemma single_spaced_squeeze (s : string) :
  single_spaced (replace_all match_spaces s) = true.
Proof.
  induction s as [s IH] using string_length_ind.
  destruct s as [|c s]; [reflexivity |].
  destruct (is_ws c) eqn:W.
  - rewrite squeeze_ws by exact W. simpl.
    rewrite starts_ws_squeeze, starts_after_span. simpl.
    apply IH. simpl.
    pose proof (substring_from_length (span is_ws s) s). lia.
  - rewrite squeeze_other by exact W. simpl. rewrite W. simpl.
    apply IH. simpl. lia.
Qed.

Lemma single_spaced_tail (c : ascii) (s : string) :
  single_spaced (String c s) = true -> single_spaced s = true.
Proof. simpl. intros H. apply andb_prop in H. apply H. Qed.

Lemma single_spaced_trimStart (s : string) :
  single_spaced s = true -> single_spaced (trimStart s) = true.
Proof.
  induction s as [|c s IH]; intros H; simpl; [reflexivity |].
  destruct (is_ws c); [apply IH, (single_spaced_tail c), H | exact H].
Qed.

Lemma starts_ws_trimStart (s : string) : starts_ws (trimStart s) = false.
Proof.
  induction s as [|c s IH]; simpl; [reflexivity |].
  destruct (is_ws c) eqn:W; [exact IH | simpl; exact W].
Qed.

Lemma starts_ws_trimEnd (s : string) :
  starts_ws s = false -> starts_ws (trimEnd s) = false.
Proof.
  destruct s as [|c s]; simpl; [reflexivity |].
  intros W. rewrite W. simpl. exact W.
Qed.

Lemma starts_ws_trimEnd_tail (s : string) :
  trimEnd s <> EmptyString -> starts_ws (trimEnd s) = starts_ws s.
Proof.
  destruct s as [|c s]; simpl; [reflexivity |].
  destruct (is_ws c && is_empty (trimEnd s)); [congruence | reflexivity].
Qed.

Lemma single_spaced_trimEnd (s : string) :
  single_spaced s = true -> single_spaced (trimEnd s) = true.
Proof.
  induction s as [|c s IH]; intros H; simpl; [reflexivity |].
  simpl in H. apply andb_prop in H. destruct H as [Hc Hs].
  destruct (is_ws c) eqn:W; simpl.
  - destruct (trimEnd s) as [|d r] eqn:T; simpl; [reflexivity |].
    rewrite W. apply andb_prop in Hc. destruct Hc as [Hsp Hst].
    rewrite Hsp. simpl.
    assert (N : trimEnd s <> EmptyString) by (rewrite T; discriminate).
    pose proof (starts_ws_trimEnd_tail s N) as Q. rewrite T in Q.
    simpl in Q.
    assert (D : is_ws d = false)
      by (rewrite Q; destruct (starts_ws s); [discriminate | reflexivity]).
    rewrite D. simpl.
    specialize (IH Hs). simpl in IH. rewrite D in IH. exact IH.
  - rewrite W. simpl. apply IH, Hs.
Qed.

Lemma ends_ws_trimEnd (s : string) : ends_ws (trimEnd s) = false.
Proof.
  induction s as [|c s IH]; simpl; [reflexivity |].
  destruct (is_ws c) eqn:W; simpl.
  - destruct (trimEnd s) as [|d r] eqn:T; simpl; [reflexivity |].
    exact IH.
  - destruct (trimEnd s) as [|d r] eqn:T; simpl; [exact W | exact IH].
Qed.

(** The text [speak] gives to the synthesizer has single spaces between
    its words and none at its ends. *)
Lemma sanitize_normalized (text : string) : normalized (sanitize text) = true.
Proof.
  unfold sanitize, normalized, trim.
  set (s := replace_all match_spaces _).
  rewrite single_spaced_trimEnd
    by (apply single_spaced_trimStart, single_spaced_squeeze).
  rewrite starts_ws_trimEnd by apply starts_ws_trimStart.
  rewrite ends_ws_trimEnd. reflexivity.
Qed.

(** ** Raw URLs *)

Lemma prefix_app_inv (p a rest : string) :
  prefix p (a ++ rest) = true ->
  prefix p a = true
  \/ (String.length a < String.length p
      /\ prefix (substring_from (String.length a) p) rest = true).
Proof.
  revert p. induction a as [|c a IH]; intros p H.
  - destruct p as [|x p]; [left; reflexivity |].
    right. split; [simpl; lia | exact H].
  - destruct p as [|x p]; [left; reflexivity |].
    simpl in H. destruct (ascii_dec x c) as [E|E]; [| discriminate].
    destruct (IH p H) as [L | [L R]].
    + left. simpl. destruct (ascii_dec x c); [exact L | contradiction].
    + right. split; [simpl; lia | exact R].
Qed.

Lemma prefix_without (x : ascii) (p a : string) :
  prefix p a = true -> without x a = true -> without x p = true.
Proof.
  unfold without. revert a. induction p as [|c p IH]; intros a H W;
    [reflexivity |].
  destruct a as [|d a]; [discriminate |].
  simpl in H. destruct (ascii_dec c d) as [E|E]; [| discriminate].
  subst d. simpl in W. apply andb_prop in W. destruct W as [Wc Wa].
  simpl. rewrite Wc. simpl. exact (IH a H Wa).
Qed.

(** No URL starts inside a text without a colon that is followed by a
    URL. *)
Lemma no_url_across (x tail : string) :
  x <> EmptyString -> without ":" x = true ->
  match_url (x ++ String "h" tail) = None.
Proof.
  intros N W. unfold match_url.
  assert (A : prefix "https://" (x ++ String "h" tail) = false).
  { destruct (prefix "https://" (x ++ String "h" tail)) eqn:P;
      [| reflexivity].
    exfalso. destruct (prefix_app_inv _ _ _ P) as [L | [L R]].
    - pose proof (prefix_without ":" _ _ L W) as C. discriminate C.
    - destruct x as [|c1 x]; [congruence |].
      do 8 (try (destruct x as [|? x]; [simpl in R; discriminate R |])).
      simpl in L. lia. }
  assert (B : prefix "http://" (x ++ String "h" tail) = false).
  { destruct (prefix "http://" (x ++ String "h" tail)) eqn:P;
      [| reflexivity].
    exfalso. destruct (prefix_app_inv _ _ _ P) as [L | [L R]].
    - pose proof (prefix_without ":" _ _ L W) as C. discriminate C.
    - destruct x as [|c1 x]; [congruence |].
      do 7 (try (destruct x as [|? x]; [simpl in R; discriminate R |])).
      simpl in L. lia. }
  rewrite A, B. reflexivity.
Qed.

Definition not_ws (c : ascii) : bool := negb (is_ws c).

(** The URL pass on a text whose first URL follows a text without a
    colon: the URL, up to the next white space, is removed. *)
Lemma remove_url (a scheme w rest : string) :
  scheme = "http://" \/ scheme = "https://" ->
  without ":" a = true ->
  w <> EmptyString ->
  all_chars not_ws w = true ->
  stops not_ws rest ->
  replace_all match_url (a ++ scheme ++ w ++ rest)
  = a ++ replace_all match_url rest.
Proof.
  intros Hs Ha Hw Hn Hr.
  rewrite replace_all_prefix.
  2:{ intros a1 c a2 E.
      assert (T : exists tail, scheme ++ w ++ rest = String "h" tail)
        by (destruct Hs; subst scheme; eexists; reflexivity).
      destruct T as [tail T]. rewrite T.
      apply no_url_across; [discriminate |].
      rewrite E in Ha. unfold without in *. rewrite all_chars_app in Ha.
      apply andb_prop in Ha. apply Ha. }
  f_equal.
  assert (K : span (fun c => negb (is_ws c)) (w ++ rest) = String.length w)
    by (apply (span_app not_ws); assumption).
  assert (P : (0 <? String.length w) = true)
    by (destruct w; [congruence | reflexivity]).
  destruct Hs; subst scheme.
  - assert (M : match_url ("http://" ++ w ++ rest)
                = Some (EmptyString, 7 + String.length w)).
    { unfold match_url. simpl prefix. rewrite prefix_nil.
      change (substring_from 7 ("http://" ++ w ++ rest)) with (w ++ rest).
      rewrite K, P. reflexivity. }
    change ("http://" ++ w ++ rest)
      with (String "h" ("ttp://" ++ w ++ rest)) in *.
    rewrite (replace_all_match _ _ _ _ _ M). simpl.
    rewrite ?Nat.sub_0_r, substring_from_app. reflexivity.
  - assert (M : match_url ("https://" ++ w ++ rest)
                = Some (EmptyString, 8 + String.length w)).
    { unfold match_url. simpl prefix. rewrite prefix_nil.
      change (substring_from 8 ("https://" ++ w ++ rest)) with (w ++ rest).
      rewrite K, P. reflexivity. }
    change ("https://" ++ w ++ rest)
      with (String "h" ("ttps://" ++ w ++ rest)) in *.
    rewrite (replace_all_match _ _ _ _ _ M). simpl.
    rewrite ?Nat.sub_0_r, substring_from_app. reflexivity.
Qed.

(** ** One utterance at a time *)

(** A handler that leaves the queue of the synthesizer alone. *)
Definition queue_kept (s s' : Hook) : Prop := synthQueue s' = synthQueue s.

Lemma queue_kept_start (r : nat) (s : Hook) :
  queue_kept s (recognition_start r s).
Proof. unfold queue_kept, recognition_start. repeat case_match; reflexivity. Qed.

Lemma queue_kept_resumeListening (s : Hook) :
  queue_kept s (resumeListening s).
Proof.
  unfold queue_kept, resumeListening.
  repeat case_match; try reflexivity; apply queue_kept_start.
Qed.

Lemma queue_kept_pauseListening (s : Hook) : queue_kept s (pauseListening s).
Proof. unfold queue_kept, pauseListening. case_match; reflexivity. Qed.

Lemma queue_kept_silence_callback (r : nat) (s : Hook) :
  queue_kept s (silence_callback r s).
Proof. unfold queue_kept, silence_callback. case_match; reflexivity. Qed.

Lemma queue_kept_fire (t : Timer) (s : Hook) : queue_kept s (fire t s).
Proof.
  unfold queue_kept, fire. destruct (action t).
  - apply (queue_kept_resumeListening
             (set_now (due t) (clearTimeout (tid t) s))).
  - apply (queue_kept_silence_callback r
             (set_now (due t) (clearTimeout (tid t) s))).
Qed.

Lemma queue_kept_run_timers (fuel target : nat) (s : Hook) :
  queue_kept s (run_timers fuel target s).
Proof.
  unfold queue_kept. revert s.
  induction fuel as [|fuel IH]; intros s; simpl; [reflexivity |].
  destruct (next_due target (timers s)) as [t|]; [| reflexivity].
  rewrite IH. apply queue_kept_fire.
Qed.

Lemma queue_kept_onresult (r : nat) (rec : Recognition)
  (results : list (string * bool)) (s : Hook) :
  queue_kept s (onresult r rec results s).
Proof.
  unfold queue_kept, onresult, setTimeout.
  destruct (collect results (EmptyString, EmptyString)) as [i f].
  destruct (silenceTimer rec); repeat case_match; reflexivity.
Qed.

Lemma queue_kept_onend (r : nat) (rec : Recognition) (s : Hook) :
  queue_kept s (onend r rec s).
Proof.
  unfold queue_kept, onend.
  destruct (silenceTimer rec); repeat case_match; try reflexivity;
    match goal with
    | |- synthQueue (recognition_start ?n ?x) = _ =>
        rewrite (queue_kept_start n x); reflexivity
    end.
Qed.

Lemma queue_after_cancel (s : Hook) :
  synthQueue (if synthRef s then synth_cancel s else s) = []
  \/ synthQueue (if synthRef s then synth_cancel s else s) = synthQueue s.
Proof. destruct (synthRef s); [left | right]; reflexivity. Qed.

Lemma queue_teardown (s : Hook) :
  synthQueue (teardown s) = [] \/ synthQueue (teardown s) = synthQueue s.
Proof.
  unfold teardown.
  destruct (recognitionRef s); cbn; destruct (synthRef s); cbn; auto.
Qed.

Lemma queue_initializeVoiceMode (s : Hook) :
  queue_kept s (initializeVoiceMode s).
Proof.
  unfold queue_kept, initializeVoiceMode. repeat case_match; reflexivity.
Qed.

(** The synthesizer holds at most one utterance. *)
Definition one_utterance (s : Hook) : Prop :=
  List.length (synthQueue s) <= 1.

Lemma one_utterance_kept (s s' : Hook) :
  one_utterance s -> queue_kept s s' -> one_utterance s'.
Proof. unfold one_utterance, queue_kept. intros H E. now rewrite E. Qed.

Lemma one_utterance_either (s s' : Hook) :
  one_utterance s ->
  synthQueue s' = [] \/ synthQueue s' = synthQueue s ->
  one_utterance s'.
Proof.
  unfold one_utterance. intros H [E|E]; rewrite E; simpl; lia.
Qed.

Lemma filter_length_le {A : Type} (f : A -> bool) (l : list A) :
  List.length (filter f l) <= List.length l.
Proof.
  induction l as [|x l IH]; simpl; [lia |].
  destruct (f x); simpl; lia.
Qed.

Lemma step_one_utterance (e : Event) (s : Hook) :
  one_utterance s -> one_utterance (step e s).
Proof.
  intros H.
  destruct e as [b | | message | text onBoundary | | | | | |
                 | r | r results | r err | r | u name charIndex | u | u
                 | d]; cbn [step].
  - (* SetEnabled *)
    unfold setEnabled. destruct (Bool.eqb b (isEnabled s)); [exact H |].
    set (s1 := set_isEnabled b s).
    set (s2 := if negb (isEnabled s) then teardown s1 else s1).
    assert (H2 : one_utterance s2).
    { unfold s2. destruct (negb (isEnabled s)); [| exact H].
      apply (one_utterance_either s1); [exact H | apply queue_teardown]. }
    set (s3 := set_isUnmountedRef false (set_isEnabledRef b s2)).
    change (one_utterance
              (if b && isSupported s3 then initializeVoiceMode s3 else s3)).
    destruct (b && isSupported s3); [| exact H2].
    apply (one_utterance_kept s3); [exact H2 |].
    apply queue_initializeVoiceMode.
  - (* PermissionGranted *)
    unfold permissionGranted. destruct (pendingInit s); [exact H |].
    eapply one_utterance_kept; [| apply queue_kept_start]. exact H.
  - (* PermissionDenied *)
    unfold permissionDenied. destruct (pendingInit s); exact H.
  - (* Speak *)
    unfold speak. destruct (negb (synthRef s) || is_empty text);
      [exact H |].
    unfold one_utterance. cbn. lia.
  - (* StopSpeaking *)
    unfold stopSpeaking.
    apply (one_utterance_either s); [exact H |].
    destruct (synthRef s); [left | right]; reflexivity.
  - (* PauseListening *)
    apply (one_utterance_kept s); [exact H | apply queue_kept_pauseListening].
  - (* ResumeListening *)
    apply (one_utterance_kept s);
      [exact H | apply queue_kept_resumeListening].
  - (* StartListening *)
    apply (one_utterance_kept s);
      [exact H | apply queue_initializeVoiceMode].
  - (* StopListening *)
    unfold stopListening. destruct (recognitionRef s); exact H.
  - (* Unmount *)
    unfold unmount.
    set (s1 := if negb (isEnabled s) then teardown s else s).
    assert (H1 : one_utterance s1).
    { unfold s1. destruct (negb (isEnabled s)); [| exact H].
      apply (one_utterance_either s); [exact H | apply queue_teardown]. }
    set (s2 := set_isUnmountedRef true s1).
    set (s3 := match recognitionRef s2 with
               | Some r => recognition_abort r s2
               | None => s2
               end).
    assert (H3 : one_utterance s3).
    { unfold s3. destruct (recognitionRef s2); exact H1. }
    apply (one_utterance_either s3); [exact H3 | apply queue_after_cancel].
  - (* RecOnStart *)
    repeat case_match; exact H.
  - (* RecOnResult *)
    destruct (nth_error (recognitions s) r) as [rec|]; [| exact H].
    destruct (rstate rec); try exact H.
    apply (one_utterance_kept s); [exact H | apply queue_kept_onresult].
  - (* RecOnError *)
    destruct (nth_error (recognitions s) r); [| exact H].
    unfold onerror. repeat case_match; exact H.
  - (* RecOnEnd *)
    destruct (nth_error (recognitions s) r) as [rec|]; [| exact H].
    destruct (rstate rec); try exact H;
      (eapply one_utterance_kept; [| apply queue_kept_onend]; exact H).
  - (* UttOnBoundary *)
    destruct (nth_error (utterances s) u) as [ut|]; [| exact H].
    destruct (terminated ut); [exact H |].
    unfold onboundary. case_match; exact H.
  - (* UttOnEnd *)
    destruct (nth_error (utterances s) u) as [ut|]; [| exact H].
    destruct (terminated ut); [exact H |].
    unfold one_utterance in *. unfold utterance_onend, setTimeout,
      speech_over. destruct (hasBoundary ut); cbn;
      pose proof (filter_length_le (fun v => negb (v =? u)) (synthQueue s));
      lia.
  - (* UttOnError *)
    destruct (nth_error (utterances s) u) as [ut|]; [| exact H].
    destruct (terminated ut); [exact H |].
    unfold utterance_onerror.
    eapply one_utterance_kept; [| apply queue_kept_resumeListening].
    unfold one_utterance in *. unfold speech_over.
    destruct (hasBoundary ut); cbn;
      pose proof (filter_length_le (fun v => negb (v =? u)) (synthQueue s));
      lia.
  - (* Elapse *)
    unfold elapse.
    apply (one_utterance_kept s); [exact H |].
    apply (queue_kept_run_timers (List.length (timers s)) (now s + d) s).
Qed.

Lemma run_one_utterance (es : list Event) (s : Hook) :
  one_utterance s -> Forall one_utterance (visited es s).
Proof.
  revert s. induction es as [|e es IH]; intros s H; simpl.
  - constructor; [exact H | constructor].
  - constructor; [exact H |]. apply IH, step_one_utterance, H.
Qed.

Lemma mount_one_utterance (supported enabled : bool) :
  one_utterance (mount supported enabled).
Proof.
  unfold one_utterance, mount.
  destruct supported, enabled; cbn; lia.
Qed.

(** ** What [speak] gives to the synthesizer *)

(** C9.  For a non-empty text and a browser with speech synthesis,
    [speak] cancels what the synthesizer holds and then gives it one
    utterance, whose text is the input after the passes of [sanitize]:
    superscript and subscript elements are replaced by the phrases
    " raised to the power of " and " base " followed by their content,
    markdown images and raw URLs are removed, every remaining tag is
    replaced by a space (no tag is left), and white space is normalized
    (single spaces, none at the ends).  Along every sequence of events
    the synthesizer holds at most one utterance. *)
Theorem speak_synthesizes_sanitized_text (s : Hook) (text : string)
  (onBoundary : bool) :
  synthRef s = true ->
  is_empty text = false ->
  let u := List.length (utterances s) in
  let s' := speak text onBoundary s in
  (* the calls, in order: abort of capture, cancel, speak *)
  log s'
  = (log s
     ++ match recognitionRef s with
        | Some r => [(now s, RecognitionAbort r)]
        | None => []
        end
     ++ [(now s, SynthCancel); (now s, SynthSpeak u (sanitize text))])%list
  /\ nth_error (utterances s') u
     = Some (mkUtterance (sanitize text) onBoundary false)
  /\ synthQueue s' = [u]
  (* the passes, in order *)
  /\ sanitize text
     = trim (replace_all match_spaces
               (replace_all match_tag
                  (replace_all match_url
                     (replace_all match_image
                        (replace_all match_sub
                           (replace_all match_sup text))))))
  /\ has_tag (sanitize text) = false
  /\ normalized (sanitize text) = true
  (* what each pass does to the first piece of markup of a text *)
  /\ (forall a x rest,
        without "<" a = true -> without "<" x = true ->
        all_chars (fun c => negb (is_line_terminator c)) x = true ->
        replace_all match_sup (a ++ "<sup>" ++ x ++ "</sup>" ++ rest)
        = a ++ " raised to the power of " ++ x ++ " "
            ++ replace_all match_sup rest)
  /\ (forall a x rest,
        without "<" a = true -> without "<" x = true ->
        all_chars (fun c => negb (is_line_terminator c)) x = true ->
        replace_all match_sub (a ++ "<sub>" ++ x ++ "</sub>" ++ rest)
        = a ++ " base " ++ x ++ " " ++ replace_all match_sub rest)
  /\ (forall a alt url rest,
        without "!" a = true -> without "]" alt = true ->
        without ")" url = true -> url <> EmptyString ->
        replace_all match_image
          (a ++ "![" ++ alt ++ "](" ++ url ++ ")" ++ rest)
        = a ++ replace_all match_image rest)
  /\ (forall a scheme w rest,
        scheme = "http://" \/ scheme = "https://" ->
        without ":" a = true -> w <> EmptyString ->
        all_chars not_ws w = true -> stops not_ws rest ->
        replace_all match_url (a ++ scheme ++ w ++ rest)
        = a ++ replace_all match_url rest)
  /\ (forall a t rest,
        without "<" a = true -> without ">" t = true ->
        replace_all match_tag (a ++ "<" ++ t ++ ">" ++ rest)
        = a ++ " " ++ replace_all match_tag rest)
  (* at most one utterance at a time *)
  /\ (forall supported enabled es,
        Forall one_utterance (visited es (mount supported enabled))).
Proof.
  intros Hsynth Htext. cbv zeta.
  assert (E : speak text onBoundary s
              = synth_speak (List.length (utterances s)) (sanitize text)
                  (set_utterances
                     (utterances s
                      ++ [mkUtterance (sanitize text) onBoundary false])
                     (synth_cancel
                        (pauseListening
                           (set_isSpeaking true
                              (set_isSpeakingRef true s)))))).
  { unfold speak. rewrite Hsynth, Htext. reflexivity. }
  rewrite E. clear E.
  split; [| split; [| split; [| split; [| split; [| split]]]]].
  - unfold pauseListening. cbn. destruct (recognitionRef s); cbn;
      rewrite <- ?app_assoc; reflexivity.
  - unfold pauseListening. cbn. destruct (recognitionRef s); cbn;
      apply nth_error_app_length.
  - reflexivity.
  - reflexivity.
  - apply sanitize_has_no_tag.
  - apply sanitize_normalized.
  - split; [exact replace_sup |]. split; [exact replace_sub |].
    split; [exact remove_image |]. split; [exact remove_url |].
    split; [exact strip_tag |].
    intros supported enabled es.
    apply run_one_utterance, mount_one_utterance.
Qed.

Lemma speak_synthesizes_sanitized_text_witness :
  log (speak "x<sup>2</sup> is <b>big</b>, see https://a.org/b now" false
         listening)
  = (log listening
     ++ [(0, RecognitionAbort 0); (0, SynthCancel);
         (0, SynthSpeak 0 "x raised to the power of 2 is big , see now")])
    %list.
Proof.
  exact (proj1 (speak_synthesizes_sanitized_text listening
                  "x<sup>2</sup> is <b>big</b>, see https://a.org/b now"
                  false eq_refl eq_refl)).
Defined.


(* ===================================================================== *)
(** * Further properties of the voice chat hook *)
(* ===================================================================== *)

(** ** A browser without speech support *)

(** The hook in a browser without speech support: nothing of the host is
    held, nothing has been called, and the error says so. *)
Definition inert (s : Hook) : Prop :=
  isListening s = false /\ isSpeaking s = false
  /\ error s = Some unsupported_message
  /\ isSupported s = false /\ recognitionRef s = None
  /\ synthRef s = false /\ isSpeakingRef s = false
  /\ recognitions s = [] /\ utterances s = [] /\ synthQueue s = []
  /\ pendingInit s = 0 /\ timers s = [] /\ log s = [].

Lemma step_inert (e : Event) (s : Hook) : inert s -> inert (step e s).
Proof.
  destruct s as [en li sp er su rr sy um er' sr rs us q p n ts nt l].
  unfold inert. cbn.
  intros (-> & -> & -> & -> & -> & -> & -> & -> & -> & -> & -> & -> & ->).
  destruct e as [b | | message | text onBoundary | | | | | |
                 | r | r results | r err | r | u name charIndex | u | u
                 | d].
  - unfold step, setEnabled. cbn.
    destruct (Bool.eqb b en); [cbn; repeat split |].
    destruct en; cbn; rewrite ?andb_false_r; cbn; repeat split.
  - cbn. repeat split.
  - cbn. repeat split.
  - cbn. repeat split.
  - cbn. repeat split.
  - cbn. repeat split.
  - cbn. repeat split.
  - cbn. repeat split.
  - cbn. repeat split.
  - unfold step, unmount. destruct en; cbn; repeat split.
  - cbn. destruct r; cbn; repeat split.
  - cbn. destruct r; cbn; repeat split.
  - cbn. destruct r; cbn; repeat split.
  - cbn. destruct r; cbn; repeat split.
  - cbn. destruct u; cbn; repeat split.
  - cbn. destruct u; cbn; repeat split.
  - cbn. destruct u; cbn; repeat split.
  - cbn. repeat split.
Qed.

(** X12.  In a browser without speech recognition or synthesis the hook
    never touches the host: whatever is called and whatever happens, it
    makes no call to a recognition object or to the synthesizer, hands no
    transcript over, sets no timer, stays neither listening nor speaking,
    and keeps reporting that voice chat is not supported. *)
Theorem unsupported_browser_is_never_used (enabled : bool)
  (es : list Event) :
  let s := run es (mount false enabled) in
  log s = [] /\ recognitions s = [] /\ utterances s = [] /\ timers s = []
  /\ isListening s = false /\ isSpeaking s = false
  /\ error s = Some unsupported_message.
Proof.
  assert (G : forall s, inert s -> inert (run es s)).
  { induction es as [|e es IH]; intros s H; [exact H |].
    apply IH, step_inert, H. }
  destruct (G (mount false enabled)) as
    (A & B & C & D & E & F & I & J & K & L & M & N & O).
  - unfold inert. cbn. repeat split.
  - cbv zeta. auto 10.
Qed.


(** ** The silence timer and the transcripts handed over *)

(** The transcripts given to [onTranscript], in a log. *)
Definition transcripts (l : list (nat * Effect)) : list (string * bool) :=
  flat_map (fun entry =>
              match snd entry with
              | OnTranscript text isFinal => [(text, isFinal)]
              | _ => []
              end) l.

(** The pending silence timers of recognition object [r]. *)
Definition silence_timers (r : nat) (ts : list Timer) : list Timer :=
  filter (fun t => match action t with
                   | SilenceElapsed r' => r' =? r
                   | ResumeLater => false
                   end) ts.

(** The two variables the handlers of a recognition object close over. *)
Definition buffer (rec : Recognition) : string * option nat :=
  (currentTranscript rec, silenceTimer rec).

Definition buffers (s : Hook) : list (string * option nat) :=
  map buffer (recognitions s).

(** Every pending silence timer is the one its recognition object holds
    in [silenceTimer], and the buffer of that object is not blank. *)
Definition armed (s : Hook) : Prop :=
  forall t r,
    In t (timers s) -> action t = SilenceElapsed r ->
    exists current,
      nth_error (buffers s) r = Some (current, Some (tid t))
      /\ is_empty (trim current) = false.

(** No transcript handed over is empty, and each one is trimmed. *)
Definition heard (s : Hook) : Prop :=
  Forall (fun p => is_empty (fst p) = false /\ trim (fst p) = fst p)
         (transcripts (log s)).

(** Timer ids are not reused. *)
Definition ids_fresh (s : Hook) : Prop :=
  NoDup (map tid (timers s))
  /\ forall t, In t (timers s) -> tid t < nextTimer s.

Definition debounced (s : Hook) : Prop :=
  armed s /\ heard s /\ ids_fresh s.

(** A transition that leaves the timers and the transcripts alone, and
    the buffers of the recognition objects there are. *)
Definition ear_kept (s s' : Hook) : Prop :=
  timers s' = timers s /\ nextTimer s' = nextTimer s
  /\ transcripts (log s') = transcripts (log s)
  /\ exists extra, buffers s' = (buffers s ++ extra)%list.

Lemma ear_kept_refl (s : Hook) : ear_kept s s.
Proof.
  repeat split. exists []. rewrite app_nil_r. reflexivity.
Qed.

Lemma ear_kept_trans (s1 s2 s3 : Hook) :
  ear_kept s1 s2 -> ear_kept s2 s3 -> ear_kept s1 s3.
Proof.
  intros (A1 & B1 & C1 & [x1 D1]) (A2 & B2 & C2 & [x2 D2]).
  repeat split; try congruence.
  exists (x1 ++ x2)%list. rewrite D2, D1, app_assoc. reflexivity.
Qed.

Lemma debounced_kept (s s' : Hook) :
  debounced s -> ear_kept s s' -> debounced s'.
Proof.
  intros (A & H & [N F]) (T & I & L & [extra B]).
  split; [| split; [| split]].
  - intros t r Hin Ha. rewrite T in Hin.
    destruct (A t r Hin Ha) as [current [E K]].
    exists current. split; [| exact K].
    rewrite B. rewrite nth_error_app1; [exact E |].
    apply nth_error_Some. congruence.
  - unfold heard. rewrite L. exact H.
  - rewrite T. exact N.
  - rewrite T, I. exact F.
Qed.

Lemma transcripts_app (a b : list (nat * Effect)) :
  transcripts (a ++ b) = (transcripts a ++ transcripts b)%list.
Proof. unfold transcripts. apply flat_map_app. Qed.

Lemma buffers_update_nth (r : nat) (f : Recognition -> Recognition)
  (l : list Recognition) :
  (forall rec, buffer (f rec) = buffer rec) ->
  map buffer (update_nth r f l) = map buffer l.
Proof.
  intros H. revert r. induction l as [|x l IH]; intros [|r]; simpl;
    rewrite ?H, ?IH; reflexivity.
Qed.

(** A state that differs from [s] in fields the silence timers and the
    transcripts do not depend on. *)
Lemma ear_kept_frame (s s' : Hook) :
  timers s' = timers s -> nextTimer s' = nextTimer s ->
  transcripts (log s') = transcripts (log s) ->
  buffers s' = buffers s ->
  ear_kept s s'.
Proof.
  intros A B C D. repeat split; try assumption.
  exists []. rewrite app_nil_r. exact D.
Qed.

Lemma ear_kept_start (r : nat) (s : Hook) : ear_kept s (recognition_start r s).
Proof.
  unfold recognition_start.
  destruct (nth_error (recognitions s) r) as [rec|]; [| apply ear_kept_refl].
  destruct (rstate rec); apply ear_kept_frame; cbn;
    rewrite ?transcripts_app, ?app_nil_r; try reflexivity.
  unfold buffers. cbn. apply buffers_update_nth. reflexivity.
Qed.

Lemma ear_kept_abort (r : nat) (s : Hook) : ear_kept s (recognition_abort r s).
Proof.
  apply ear_kept_frame; cbn; rewrite ?transcripts_app, ?app_nil_r;
    try reflexivity.
  unfold buffers. cbn. apply buffers_update_nth.
  intros rec. destruct (rstate rec); reflexivity.
Qed.

Lemma ear_kept_if (b : bool) (s x y : Hook) :
  ear_kept s x -> ear_kept s y -> ear_kept s (if b then x else y).
Proof. destruct b; auto. Qed.

Lemma ear_kept_resumeListening (s : Hook) : ear_kept s (resumeListening s).
Proof.
  unfold resumeListening.
  destruct (recognitionRef s); [| apply ear_kept_refl].
  apply ear_kept_if; [apply ear_kept_start | apply ear_kept_refl].
Qed.

Lemma ear_kept_pauseListening (s : Hook) : ear_kept s (pauseListening s).
Proof.
  unfold pauseListening.
  destruct (recognitionRef s); [apply ear_kept_abort | apply ear_kept_refl].
Qed.

Lemma ear_kept_initializeVoiceMode (s : Hook) :
  ear_kept s (initializeVoiceMode s).
Proof.
  unfold initializeVoiceMode.
  repeat apply ear_kept_if; try apply ear_kept_refl.
  apply ear_kept_frame; reflexivity.
Qed.

Lemma ear_kept_teardown (s : Hook) : ear_kept s (teardown s).
Proof.
  unfold teardown.
  set (s1 := match recognitionRef s with
             | Some r => recognition_abort r s
             | None => s
             end).
  assert (H1 : ear_kept s s1)
    by (unfold s1; destruct (recognitionRef s);
        [apply ear_kept_abort | apply ear_kept_refl]).
  apply (ear_kept_trans s s1); [exact H1 |].
  destruct (synthRef s1); apply ear_kept_frame; cbn;
    rewrite ?transcripts_app, ?app_nil_r; reflexivity.
Qed.

Lemma ear_kept_speech_over (u : nat) (ut : Utterance) (s : Hook) :
  ear_kept s (speech_over u ut s).
Proof.
  unfold speech_over.
  destruct (hasBoundary ut); apply ear_kept_frame; cbn;
    rewrite ?transcripts_app, ?app_nil_r; reflexivity.
Qed.

(** ** Timers *)

Lemma next_due_In (target : nat) (ts : list Timer) (t : Timer) :
  next_due target ts = Some t -> In t ts.
Proof.
  induction ts as [|x ts IH]; simpl; [discriminate |].
  destruct (next_due target ts) as [t'|].
  - destruct ((due x <=? target) && before x t'); intros H;
      injection H as <-; [left; reflexivity | right; apply IH; reflexivity].
  - destruct (due x <=? target); [| discriminate].
    intros H. injection H as <-. left. reflexivity.
Qed.

Lemma In_clear (id : nat) (ts : list Timer) (t : Timer) :
  In t (filter (fun t => negb (tid t =? id)) ts) <-> In t ts /\ tid t <> id.
Proof.
  rewrite filter_In, negb_true_iff, Nat.eqb_neq. reflexivity.
Qed.

Lemma NoDup_clear (id : nat) (ts : list Timer) :
  NoDup (map tid ts) ->
  NoDup (map tid (filter (fun t => negb (tid t =? id)) ts)).
Proof.
  induction ts as [|x ts IH]; simpl; intros H; [constructor |].
  inversion H as [|? ? N D]; subst.
  destruct (negb (tid x =? id)); simpl; [| apply IH, D].
  constructor; [| apply IH, D].
  intros K. apply N. apply in_map_iff in K. destruct K as [y [E Hy]].
  apply in_map_iff. exists y. split; [exact E |].
  apply filter_In in Hy. apply Hy.
Qed.

Lemma ids_fresh_clear (id : nat) (s : Hook) :
  ids_fresh s -> ids_fresh (clearTimeout id s).
Proof.
  intros [N F]. split; cbn.
  - apply NoDup_clear, N.
  - intros t H. apply In_clear in H. apply F, H.
Qed.

Lemma ids_fresh_setTimeout (a : TimerAction) (delay : nat) (s : Hook) :
  ids_fresh s -> ids_fresh (fst (setTimeout a delay s)).
Proof.
  intros [N F]. split; cbn.
  - rewrite map_app. cbn. apply NoDup_app; [exact N | | ].
    + constructor; [intros [] | constructor].
    + intros x Hx [<- | []]. apply in_map_iff in Hx.
      destruct Hx as [t [E Ht]]. specialize (F t Ht). lia.
  - intros t H. apply in_app_or in H. destruct H as [H | [<- | []]].
    + specialize (F t H). lia.
    + cbn. lia.
Qed.

Lemma armed_clear (id : nat) (s : Hook) :
  armed s -> armed (clearTimeout id s).
Proof.
  intros A t r Hin Ha. cbn in Hin. apply In_clear in Hin.
  destruct (A t r (proj1 Hin) Ha) as [current [E K]].
  exists current. split; [exact E | exact K].
Qed.

Lemma debounced_clear (id : nat) (s : Hook) :
  debounced s -> debounced (clearTimeout id s).
Proof.
  intros (A & H & I). split; [apply armed_clear, A |].
  split; [exact H | apply ids_fresh_clear, I].
Qed.


(** ** Blank strings *)

(** The string has a character that is not white space. *)
Fixpoint has_ink (s : string) : bool :=
  match s with
  | EmptyString => false
  | String c s' => negb (is_ws c) || has_ink s'
  end.

Lemma trimEnd_blank (s : string) : is_empty (trimEnd s) = negb (has_ink s).
Proof.
  induction s as [|c s IH]; simpl; [reflexivity |].
  destruct (is_ws c); simpl; [| reflexivity].
  destruct (is_empty (trimEnd s)); simpl; rewrite <- IH; reflexivity.
Qed.

Lemma has_ink_trimStart (s : string) : has_ink (trimStart s) = has_ink s.
Proof.
  induction s as [|c s IH]; simpl; [reflexivity |].
  destruct (is_ws c) eqn:W; simpl; [exact IH | rewrite W; reflexivity].
Qed.

Lemma trim_blank (s : string) : is_empty (trim s) = negb (has_ink s).
Proof. unfold trim. rewrite trimEnd_blank, has_ink_trimStart. reflexivity. Qed.

Lemma has_ink_app (a b : string) : has_ink (a ++ b) = has_ink a || has_ink b.
Proof.
  induction a as [|c a IH]; simpl; [reflexivity |].
  rewrite IH, orb_assoc. reflexivity.
Qed.

Lemma nonblank_append (a b : string) :
  is_empty (trim a) = false -> is_empty (trim (a ++ b)) = false.
Proof.
  rewrite !trim_blank, has_ink_app. intros H.
  apply negb_false_iff in H. rewrite H. reflexivity.
Qed.

Lemma trimStart_id (s : string) : starts_ws s = false -> trimStart s = s.
Proof. destruct s as [|c s]; simpl; [reflexivity |]. intros ->. reflexivity. Qed.

Lemma trimEnd_id (s : string) : ends_ws s = false -> trimEnd s = s.
Proof.
  induction s as [|c s IH]; [reflexivity |].
  destruct s as [|d s].
  - simpl. intros ->. reflexivity.
  - intros H. change (ends_ws (String d s) = false) in H.
    specialize (IH H).
    change (trimEnd (String c (String d s)))
      with (let r := trimEnd (String d s) in
            if is_ws c && is_empty r then EmptyString else String c r).
    rewrite IH. cbn. rewrite andb_false_r. reflexivity.
Qed.

Lemma trim_idempotent (s : string) : trim (trim s) = trim s.
Proof.
  assert (S : starts_ws (trim s) = false)
    by (apply starts_ws_trimEnd, starts_ws_trimStart).
  assert (E : ends_ws (trim s) = false) by apply ends_ws_trimEnd.
  unfold trim at 1. rewrite (trimStart_id _ S). apply trimEnd_id, E.
Qed.

(** ** The handlers that touch the silence timer *)

Lemma nth_error_buffers (s : Hook) (r : nat) (rec : Recognition) :
  nth_error (recognitions s) r = Some rec ->
  nth_error (buffers s) r = Some (buffer rec).
Proof. intros H. unfold buffers. rewrite nth_error_map, H. reflexivity. Qed.

Lemma buffers_update_eq (r : nat) (f : Recognition -> Recognition)
  (l : list Recognition) (rec : Recognition) :
  nth_error l r = Some rec ->
  nth_error (map buffer (update_nth r f l)) r = Some (buffer (f rec)).
Proof.
  intros H. rewrite nth_error_map, nth_error_update_nth_eq, H. reflexivity.
Qed.

Lemma buffers_update_ne (r r' : nat) (f : Recognition -> Recognition)
  (l : list Recognition) :
  r <> r' ->
  nth_error (map buffer (update_nth r f l)) r'
  = nth_error (map buffer l) r'.
Proof.
  intros H. rewrite !nth_error_map, nth_error_update_nth_ne by exact H.
  reflexivity.
Qed.

(** The buffer after [onresult] is not blank when the one before is
    not. *)
Lemma onresult_debounced (r : nat) (rec : Recognition)
  (results : list (string * bool)) (s : Hook) :
  nth_error (recognitions s) r = Some rec ->
  debounced s -> debounced (onresult r rec results s).
Proof.
  intros Hr (A & H & I). unfold onresult.
  destruct (collect results (EmptyString, EmptyString)) as [interim final].
  set (current := if negb (is_empty final)
                  then currentTranscript rec ++ final
                  else currentTranscript rec).
  set (s1 := update_rec r (set_currentTranscript current) s).
  set (s2 := if negb (is_empty (trim (current ++ interim)))
             then emit (OnTranscript (trim (current ++ interim)) false) s1
             else s1).
  set (s3 := match silenceTimer rec with
             | Some id => clearTimeout id s2
             | None => s2
             end).
  assert (T2 : timers s2 = timers s /\ nextTimer s2 = nextTimer s
               /\ recognitions s2 = recognitions s1)
    by (unfold s2; destruct (negb (is_empty (trim (current ++ interim))));
        repeat split; reflexivity).
  destruct T2 as (T2 & N2 & R2).
  (* the pending timers of other objects stay armed; [r] has none left *)
  assert (T3 : forall t, In t (timers s3) ->
                 In t (timers s)
                 /\ forall id, silenceTimer rec = Some id -> tid t <> id).
  { intros t Hin. unfold s3 in Hin.
    destruct (silenceTimer rec) as [id|] eqn:S.
    - cbn in Hin. apply In_clear in Hin. destruct Hin as [Hin N].
      rewrite T2 in Hin.
      split; [assumption |]. intros id' E. injection E as <-. exact N.
    - rewrite T2 in Hin. split; [exact Hin | discriminate]. }
  assert (B3 : buffers s3
               = map buffer
                   (update_nth r (set_currentTranscript current)
                      (recognitions s))).
  { unfold buffers.
    replace (recognitions s3) with (recognitions s2)
      by (unfold s3; destruct (silenceTimer rec); reflexivity).
    rewrite R2. reflexivity. }
  assert (A3 : forall t r', In t (timers s3) ->
                 action t = SilenceElapsed r' ->
                 r' <> r
                 /\ exists current',
                      nth_error (buffers s3) r'
                      = Some (current', Some (tid t))
                      /\ is_empty (trim current') = false).
  { intros t r' Hin Ha. destruct (T3 t Hin) as [Hin0 N].
    destruct (A t r' Hin0 Ha) as [c [E K]].
    assert (D : r' <> r).
    { intros ->. rewrite (nth_error_buffers s r rec Hr) in E.
      injection E as _ E. exact (N _ E eq_refl). }
    split; [exact D |]. exists c. split; [| exact K].
    rewrite B3, buffers_update_ne by congruence. exact E. }
  assert (H3 : heard s3).
  { unfold heard.
    replace (transcripts (log s3)) with (transcripts (log s2))
      by (unfold s3; destruct (silenceTimer rec); reflexivity).
    unfold s2. destruct (is_empty (trim (current ++ interim))) eqn:E; cbn.
    - exact H.
    - rewrite transcripts_app. apply Forall_app. split; [exact H |].
      cbn. constructor; [| constructor].
      split; [exact E | apply trim_idempotent]. }
  assert (I3 : ids_fresh s3).
  { assert (I2 : ids_fresh s2)
      by (unfold ids_fresh; rewrite T2, N2; exact I).
    unfold s3. destruct (silenceTimer rec);
      [apply ids_fresh_clear, I2 | exact I2]. }
  change (debounced
            (if negb (is_empty (trim current))
             then let '(s4, id) := setTimeout (SilenceElapsed r) 1200 s3 in
                  update_rec r (set_silenceTimer (Some id)) s4
             else s3)).
  destruct (is_empty (trim current)) eqn:C; cbn [negb].
  - split; [| split; assumption].
    intros t r' Hin Ha. apply (A3 t r' Hin Ha).
  - split; [| split].
    + intros t r' Hin Ha. cbn in Hin.
      apply in_app_or in Hin. destruct Hin as [Hin | [<- | []]].
      * destruct (A3 t r' Hin Ha) as [D [c [E K]]].
        exists c. split; [| exact K].
        unfold buffers. cbn.
        rewrite buffers_update_ne by congruence. exact E.
      * cbn in Ha. injection Ha as <-. exists current.
        split; [| exact C]. unfold buffers. cbn.
        assert (R3 : nth_error (recognitions s3) r
                     = Some (set_currentTranscript current rec)).
        { replace (recognitions s3) with (recognitions s2)
            by (unfold s3; destruct (silenceTimer rec); reflexivity).
          rewrite R2. unfold s1. cbn. rewrite nth_error_update_nth_eq, Hr.
          reflexivity. }
        rewrite (buffers_update_eq r _ _ _ R3). reflexivity.
    + unfold heard. cbn. exact H3.
    + destruct (ids_fresh_setTimeout (SilenceElapsed r) 1200 s3 I3)
        as [N F].
      split; [exact N | exact F].
Qed.

(** The silence callback of object [r], when the timer that runs it has
    been taken out of the pending ones. *)
Lemma silence_callback_debounced (t : Timer) (r : nat) (s : Hook) :
  In t (timers s) -> action t = SilenceElapsed r ->
  debounced s ->
  debounced (silence_callback r (set_now (due t) (clearTimeout (tid t) s))).
Proof.
  intros Hin Ha (A & H & I).
  destruct (A t r Hin Ha) as [current [E K]].
  unfold buffers in E. rewrite nth_error_map in E.
  destruct (nth_error (recognitions s) r) as [rec|] eqn:Hr;
    [| discriminate].
  cbn in E. injection E as Ec Et.
  unfold silence_callback. cbn [recognitions set_now clearTimeout set_timers].
  rewrite Hr. split; [| split].
  - intros t' r' Hin' Ha'. cbn in Hin'. apply In_clear in Hin'.
    destruct Hin' as [Hin' N].
    destruct (A t' r' Hin' Ha') as [c [E' K']].
    assert (D : r' <> r).
    { intros ->. rewrite (nth_error_buffers s r rec Hr) in E'.
      injection E' as _ E'. congruence. }
    exists c. split; [| exact K'].
    unfold buffers. cbn. rewrite buffers_update_ne by congruence. exact E'.
  - unfold heard. cbn. rewrite transcripts_app.
    apply Forall_app. split; [exact H |].
    cbn. constructor; [| constructor]. cbn. rewrite Ec.
    split; [exact K | apply trim_idempotent].
  - destruct (ids_fresh_clear (tid t) s I) as [N F].
    split; [exact N | exact F].
Qed.

Lemma fire_debounced (t : Timer) (s : Hook) :
  In t (timers s) -> debounced s -> debounced (fire t s).
Proof.
  intros Hin D. unfold fire.
  destruct (action t) as [|r] eqn:Ha.
  - apply (debounced_kept (set_now (due t) (clearTimeout (tid t) s))).
    + apply (debounced_kept (clearTimeout (tid t) s));
        [apply debounced_clear, D | apply ear_kept_frame; reflexivity].
    + apply ear_kept_resumeListening.
  - apply silence_callback_debounced; assumption.
Qed.

Lemma run_timers_debounced (fuel target : nat) (s : Hook) :
  debounced s -> debounced (run_timers fuel target s).
Proof.
  revert s. induction fuel as [|fuel IH]; intros s D; simpl; [exact D |].
  destruct (next_due target (timers s)) as [t|] eqn:N; [| exact D].
  apply IH, fire_debounced; [eapply next_due_In, N | exact D].
Qed.

Lemma onend_debounced (r : nat) (rec : Recognition) (s : Hook) :
  debounced s -> debounced (onend r rec s).
Proof.
  intros D. unfold onend.
  set (s1 := match silenceTimer rec with
             | Some id => clearTimeout id s
             | None => s
             end).
  assert (D1 : debounced s1)
    by (unfold s1; destruct (silenceTimer rec);
        [apply debounced_clear, D | exact D]).
  apply (debounced_kept s1); [exact D1 |].
  apply ear_kept_if; [apply ear_kept_start |].
  apply ear_kept_frame; reflexivity.
Qed.

Lemma utterance_onend_debounced (u : nat) (ut : Utterance) (s : Hook) :
  debounced s -> debounced (utterance_onend u ut s).
Proof.
  intros D. unfold utterance_onend.
  assert (D1 : debounced (speech_over u ut s))
    by (apply (debounced_kept s); [exact D | apply ear_kept_speech_over]).
  destruct D1 as (A & H & I).
  split; [| split].
  - intros t r Hin Ha. cbn in Hin.
    apply in_app_or in Hin. destruct Hin as [Hin | [<- | []]];
      [| discriminate Ha].
    destruct (A t r Hin Ha) as [c [E K]]. exists c. split; assumption.
  - exact H.
  - apply ids_fresh_setTimeout, I.
Qed.


Lemma step_debounced (e : Event) (s : Hook) :
  debounced s -> debounced (step e s).
Proof.
  intros D.
  destruct e as [b | | message | text onBoundary | | | | | |
                 | r | r results | r err | r | u name charIndex | u | u
                 | d]; cbn [step].
  - (* SetEnabled *)
    apply (debounced_kept s); [exact D |].
    unfold setEnabled. apply ear_kept_if; [apply ear_kept_refl |].
    set (s1 := set_isEnabled b s).
    set (s2 := if negb (isEnabled s) then teardown s1 else s1).
    assert (H2 : ear_kept s s2).
    { apply (ear_kept_trans s s1); [apply ear_kept_frame; reflexivity |].
      unfold s2. apply ear_kept_if;
        [apply ear_kept_teardown | apply ear_kept_refl]. }
    set (s3 := set_isUnmountedRef false (set_isEnabledRef b s2)).
    assert (H3 : ear_kept s s3).
    { apply (ear_kept_trans s s2); [exact H2 |].
      apply ear_kept_frame; reflexivity. }
    change (ear_kept s
              (if b && isSupported s3 then initializeVoiceMode s3 else s3)).
    apply ear_kept_if; [| exact H3].
    apply (ear_kept_trans s s3);
      [exact H3 | apply ear_kept_initializeVoiceMode].
  - (* PermissionGranted *)
    apply (debounced_kept s); [exact D |].
    unfold permissionGranted. destruct (pendingInit s) as [|n];
      [apply ear_kept_refl |].
    match goal with
    | |- ear_kept s (recognition_start ?r ?x) =>
        apply (ear_kept_trans s x); [| apply ear_kept_start]
    end.
    repeat split. unfold buffers. cbn. rewrite map_app. eexists.
    reflexivity.
  - (* PermissionDenied *)
    apply (debounced_kept s); [exact D |].
    unfold permissionDenied. destruct (pendingInit s);
      [apply ear_kept_refl | apply ear_kept_frame; reflexivity].
  - (* Speak *)
    apply (debounced_kept s); [exact D |].
    unfold speak. apply ear_kept_if; [apply ear_kept_refl |].
    set (s1 := set_isSpeaking true (set_isSpeakingRef true s)).
    apply (ear_kept_trans s (pauseListening s1)).
    + apply (ear_kept_trans s s1); [apply ear_kept_frame; reflexivity |].
      apply ear_kept_pauseListening.
    + apply ear_kept_frame; cbn; rewrite ?transcripts_app, ?app_nil_r;
        reflexivity.
  - (* StopSpeaking *)
    apply (debounced_kept s); [exact D |].
    unfold stopSpeaking. destruct (synthRef s); apply ear_kept_frame; cbn;
      rewrite ?transcripts_app, ?app_nil_r; reflexivity.
  - (* PauseListening *)
    apply (debounced_kept s); [exact D | apply ear_kept_pauseListening].
  - (* ResumeListening *)
    apply (debounced_kept s); [exact D | apply ear_kept_resumeListening].
  - (* StartListening *)
    apply (debounced_kept s); [exact D | apply ear_kept_initializeVoiceMode].
  - (* StopListening *)
    apply (debounced_kept s); [exact D |].
    unfold stopListening.
    set (s1 := match recognitionRef s with
               | Some r => recognition_abort r s
               | None => s
               end).
    apply (ear_kept_trans s s1).
    + unfold s1. destruct (recognitionRef s);
        [apply ear_kept_abort | apply ear_kept_refl].
    + apply ear_kept_frame; reflexivity.
  - (* Unmount *)
    apply (debounced_kept s); [exact D |].
    unfold unmount.
    set (s1 := if negb (isEnabled s) then teardown s else s).
    assert (H1 : ear_kept s s1)
      by (unfold s1; apply ear_kept_if;
          [apply ear_kept_teardown | apply ear_kept_refl]).
    set (s2 := set_isUnmountedRef true s1).
    set (s3 := match recognitionRef s2 with
               | Some r => recognition_abort r s2
               | None => s2
               end).
    assert (H3 : ear_kept s s3).
    { apply (ear_kept_trans s s2).
      - apply (ear_kept_trans s s1); [exact H1 |].
        apply ear_kept_frame; reflexivity.
      - unfold s3. destruct (recognitionRef s2);
          [apply ear_kept_abort | apply ear_kept_refl]. }
    apply (ear_kept_trans s s3); [exact H3 |].
    destruct (synthRef s3); apply ear_kept_frame; cbn;
      rewrite ?transcripts_app, ?app_nil_r; reflexivity.
  - (* RecOnStart *)
    apply (debounced_kept s); [exact D |].
    destruct (nth_error (recognitions s) r) as [rec|];
      [| apply ear_kept_refl].
    destruct (rstate rec); try apply ear_kept_refl.
    apply ear_kept_frame; reflexivity.
  - (* RecOnResult *)
    destruct (nth_error (recognitions s) r) as [rec|] eqn:Hr; [| exact D].
    destruct (rstate rec); try exact D.
    apply onresult_debounced; assumption.
  - (* RecOnError *)
    apply (debounced_kept s); [exact D |].
    destruct (nth_error (recognitions s) r); [| apply ear_kept_refl].
    unfold onerror. repeat apply ear_kept_if; try apply ear_kept_refl.
    apply ear_kept_frame; reflexivity.
  - (* RecOnEnd *)
    destruct (nth_error (recognitions s) r) as [rec|]; [| exact D].
    assert (D1 : debounced (update_rec r (set_rstate RecIdle) s)).
    { apply (debounced_kept s); [exact D |].
      apply ear_kept_frame; try reflexivity.
      unfold buffers. cbn. apply buffers_update_nth. reflexivity. }
    destruct (rstate rec); try exact D; apply onend_debounced, D1.
  - (* UttOnBoundary *)
    apply (debounced_kept s); [exact D |].
    destruct (nth_error (utterances s) u) as [ut|]; [| apply ear_kept_refl].
    apply ear_kept_if; [apply ear_kept_refl |].
    unfold onboundary. apply ear_kept_if; [| apply ear_kept_refl].
    apply ear_kept_frame; cbn; rewrite ?transcripts_app, ?app_nil_r;
      reflexivity.
  - (* UttOnEnd *)
    destruct (nth_error (utterances s) u) as [ut|]; [| exact D].
    destruct (terminated ut); [exact D |].
    apply utterance_onend_debounced.
    apply (debounced_kept s); [exact D | apply ear_kept_frame; reflexivity].
  - (* UttOnError *)
    destruct (nth_error (utterances s) u) as [ut|]; [| exact D].
    destruct (terminated ut); [exact D |].
    apply (debounced_kept s); [exact D |].
    unfold utterance_onerror.
    match goal with
    | |- ear_kept s (resumeListening (speech_over u ut ?x)) =>
        apply (ear_kept_trans s (speech_over u ut x));
          [apply (ear_kept_trans s x);
             [apply ear_kept_frame; reflexivity
             | apply ear_kept_speech_over]
          | apply ear_kept_resumeListening]
    end.
  - (* Elapse *)
    unfold elapse.
    apply (debounced_kept
             (run_timers (List.length (timers s)) (now s + d) s));
      [apply run_timers_debounced, D | apply ear_kept_frame; reflexivity].
Qed.

Lemma mount_debounced (supported enabled : bool) :
  debounced (mount supported enabled).
Proof.
  assert (E : timers (mount supported enabled) = []
              /\ transcripts (log (mount supported enabled)) = []).
  { destruct supported, enabled; split; reflexivity. }
  destruct E as [T L]. unfold debounced, armed, heard, ids_fresh.
  rewrite T, L. split; [intros t r [] |].
  split; [constructor |]. split; [constructor | intros t []].
Qed.

Lemma one_silence_timer (r : nat) (s : Hook) :
  armed s -> ids_fresh s ->
  List.length (silence_timers r (timers s)) <= 1.
Proof.
  intros A [N _].
  assert (S : forall t t', In t (silence_timers r (timers s)) ->
                           In t' (silence_timers r (timers s)) ->
                           tid t = tid t').
  { intros t t' H H'. unfold silence_timers in H, H'.
    apply filter_In in H. apply filter_In in H'.
    destruct H as [H K], H' as [H' K'].
    destruct (action t) as [|x] eqn:E; [discriminate |].
    destruct (action t') as [|x'] eqn:E'; [discriminate |].
    apply Nat.eqb_eq in K. apply Nat.eqb_eq in K'. subst x x'.
    destruct (A t r H E) as [c [B _]].
    destruct (A t' r H' E') as [c' [B' _]]. congruence. }
  assert (M : NoDup (map tid (silence_timers r (timers s)))).
  { unfold silence_timers. clear S A.
    induction (timers s) as [|x ts IH]; simpl; [constructor |].
    inversion N as [|? ? K D]; subst.
    destruct (match action x with
              | SilenceElapsed r' => r' =? r
              | ResumeLater => false
              end); simpl; [| apply IH, D].
    constructor; [| apply IH, D].
    intros J. apply K. apply in_map_iff in J. destruct J as [y [E Hy]].
    apply in_map_iff. exists y. split; [exact E |].
    apply filter_In in Hy. apply Hy. }
  destruct (silence_timers r (timers s)) as [|a [|b l]]; simpl; try lia.
  exfalso. inversion M as [|? ? K _]; subst. apply K.
  left. symmetry. apply S; simpl; auto.
Qed.

(** X13.  The debounce of the hook. Along every sequence of events a
    recognition object has at most one silence timer pending, because each
    result clears the pending one before it sets the next; and every
    transcript handed to [onTranscript], interim or final, is trimmed and
    not empty: the timer is set only on a buffer that is not blank, and the
    buffer is emptied only by the callback of that timer. *)
Theorem one_silence_timer_and_no_empty_transcript (supported enabled : bool)
  (es : list Event) :
  let s := run es (mount supported enabled) in
  (forall r, List.length (silence_timers r (timers s)) <= 1)
  /\ Forall (fun p => fst p <> EmptyString /\ trim (fst p) = fst p)
            (transcripts (log s)).
Proof.
  assert (G : forall s, debounced s -> debounced (run es s)).
  { induction es as [|e es IH]; intros s D; [exact D |].
    apply IH, step_debounced, D. }
  destruct (G _ (mount_debounced supported enabled)) as (A & H & I).
  split.
  - intros r. apply one_silence_timer; assumption.
  - eapply Forall_impl; [| exact H].
    intros [text f] [E T]. cbn in *. split; [| exact T].
    intros ->. discriminate E.
Qed.


(** ** Turning voice chat off and on *)

(** The events the host raises, as opposed to the calls the component
    makes. *)
Definition host_event (e : Event) : bool :=
  match e with
  | PermissionGranted | PermissionDenied _
  | RecOnStart _ | RecOnResult _ _ | RecOnError _ _ | RecOnEnd _
  | UttOnBoundary _ _ _ | UttOnEnd _ | UttOnError _ | Elapse _ => true
  | _ => false
  end.

(** A transition that starts no capture and changes neither the enabled
    ref nor the number of initialisations in flight. *)
Definition off_kept (s s' : Hook) : Prop :=
  isEnabledRef s' = isEnabledRef s
  /\ pendingInit s' = pendingInit s
  /\ capture_starts (log s') = capture_starts (log s)
  /\ (capturing s' = true -> capturing s = true).

Lemma off_kept_refl (s : Hook) : off_kept s s.
Proof. repeat split; auto. Qed.

Lemma off_kept_trans (s1 s2 s3 : Hook) :
  off_kept s1 s2 -> off_kept s2 s3 -> off_kept s1 s3.
Proof.
  intros (A1 & B1 & C1 & D1) (A2 & B2 & C2 & D2).
  repeat split; try congruence. auto.
Qed.

Lemma capture_starts_app (a b : list (nat * Effect)) :
  capture_starts (a ++ b) = capture_starts a + capture_starts b.
Proof. unfold capture_starts. rewrite filter_app, length_app. reflexivity. Qed.

Lemma off_kept_frame (s s' : Hook) :
  isEnabledRef s' = isEnabledRef s -> pendingInit s' = pendingInit s ->
  capture_starts (log s') = capture_starts (log s) ->
  recognitionRef s' = recognitionRef s -> recognitions s' = recognitions s ->
  off_kept s s'.
Proof.
  intros A B C D E. repeat split; try assumption.
  unfold capturing. rewrite D, E. auto.
Qed.

Lemma off_kept_emit (e : Effect) (s : Hook) :
  (forall r, e <> RecognitionStart r) -> off_kept s (emit e s).
Proof.
  intros N. apply off_kept_frame; try reflexivity.
  unfold emit, set_log. cbn [log]. rewrite capture_starts_app.
  unfold capture_starts at 2.
  destruct e; cbn; try lia. exfalso. eapply N. reflexivity.
Qed.

Lemma off_kept_update_rec (r : nat) (f : Recognition -> Recognition)
  (s : Hook) :
  (forall rec, rstate (f rec) = RecActive -> rstate rec = RecActive) ->
  off_kept s (update_rec r f s).
Proof.
  intros Hf. repeat split. apply capturing_update_rec, Hf.
Qed.

Lemma off_kept_if (b : bool) (s x y : Hook) :
  off_kept s x -> off_kept s y -> off_kept s (if b then x else y).
Proof. destruct b; auto. Qed.

Lemma off_kept_resumeListening (s : Hook) :
  isEnabledRef s = false -> off_kept s (resumeListening s).
Proof.
  intros E. unfold resumeListening. rewrite E, andb_false_r.
  destruct (recognitionRef s); apply off_kept_refl.
Qed.

Lemma off_kept_clearTimeout (id : nat) (s : Hook) :
  off_kept s (clearTimeout id s).
Proof. apply off_kept_frame; reflexivity. Qed.

Lemma off_kept_onresult (r : nat) (rec : Recognition)
  (results : list (string * bool)) (s : Hook) :
  off_kept s (onresult r rec results s).
Proof.
  unfold onresult.
  destruct (collect results (EmptyString, EmptyString)) as [interim final].
  set (current := if negb (is_empty final)
                  then currentTranscript rec ++ final
                  else currentTranscript rec).
  set (s1 := update_rec r (set_currentTranscript current) s).
  assert (H1 : off_kept s s1)
    by (apply off_kept_update_rec; intros x H; exact H).
  set (s2 := if negb (is_empty (trim (current ++ interim)))
             then emit (OnTranscript (trim (current ++ interim)) false) s1
             else s1).
  assert (H2 : off_kept s s2).
  { apply (off_kept_trans s s1); [exact H1 |].
    unfold s2. apply off_kept_if; [| apply off_kept_refl].
    apply off_kept_emit. discriminate. }
  set (s3 := match silenceTimer rec with
             | Some id => clearTimeout id s2
             | None => s2
             end).
  assert (H3 : off_kept s s3).
  { apply (off_kept_trans s s2); [exact H2 |].
    unfold s3. destruct (silenceTimer rec);
      [apply off_kept_clearTimeout | apply off_kept_refl]. }
  change (off_kept s
            (if negb (is_empty (trim current))
             then let '(s4, id) := setTimeout (SilenceElapsed r) 1200 s3 in
                  update_rec r (set_silenceTimer (Some id)) s4
             else s3)).
  apply off_kept_if; [| exact H3].
  apply (off_kept_trans s s3); [exact H3 |].
  unfold setTimeout.
  match goal with
  | |- off_kept s3 (update_rec r ?f ?x) =>
      apply (off_kept_trans s3 x);
        [apply off_kept_frame; reflexivity
        | apply off_kept_update_rec; intros y H; exact H]
  end.
Qed.

Lemma off_kept_silence_callback (r : nat) (s : Hook) :
  off_kept s (silence_callback r s).
Proof.
  unfold silence_callback.
  destruct (nth_error (recognitions s) r) as [rec|]; [| apply off_kept_refl].
  match goal with
  | |- off_kept s (update_rec r ?f ?x) =>
      apply (off_kept_trans s x);
        [apply off_kept_emit; discriminate
        | apply off_kept_update_rec; intros y H; exact H]
  end.
Qed.

Lemma off_kept_fire (t : Timer) (s : Hook) :
  isEnabledRef s = false -> off_kept s (fire t s).
Proof.
  intros E. unfold fire.
  set (s1 := set_now (due t) (clearTimeout (tid t) s)).
  assert (H1 : off_kept s s1) by (apply off_kept_frame; reflexivity).
  destruct (action t) as [|r].
  - apply (off_kept_trans s s1); [exact H1 |].
    apply off_kept_resumeListening. exact E.
  - apply (off_kept_trans s s1); [exact H1 |].
    apply off_kept_silence_callback.
Qed.

Lemma off_kept_run_timers (fuel target : nat) (s : Hook) :
  isEnabledRef s = false -> off_kept s (run_timers fuel target s).
Proof.
  revert s. induction fuel as [|fuel IH]; intros s E; simpl;
    [apply off_kept_refl |].
  destruct (next_due target (timers s)) as [t|]; [| apply off_kept_refl].
  pose proof (off_kept_fire t s E) as F.
  apply (off_kept_trans s (fire t s)); [exact F |].
  apply IH. destruct F as [F _]. exact (eq_trans F E).
Qed.

Lemma off_kept_speech_over (u : nat) (ut : Utterance) (s : Hook) :
  off_kept s (speech_over u ut s).
Proof.
  unfold speech_over.
  set (s1 := set_isSpeaking false (set_isSpeakingRef false s)).
  assert (H1 : off_kept s (emit (SpeakingEnded u) s1)).
  { apply (off_kept_trans s s1); [apply off_kept_frame; reflexivity |].
    apply off_kept_emit. discriminate. }
  apply off_kept_if; [| exact H1].
  apply (off_kept_trans s _ _ H1). apply off_kept_emit. discriminate.
Qed.

Lemma off_kept_utterance_onend (u : nat) (ut : Utterance) (s : Hook) :
  off_kept s (utterance_onend u ut s).
Proof.
  unfold utterance_onend, setTimeout. cbn [fst].
  apply (off_kept_trans s (speech_over u ut s));
    [apply off_kept_speech_over | apply off_kept_frame; reflexivity].
Qed.

Lemma off_kept_utterance_onerror (u : nat) (ut : Utterance) (s : Hook) :
  isEnabledRef s = false -> off_kept s (utterance_onerror u ut s).
Proof.
  intros E. unfold utterance_onerror.
  pose proof (off_kept_speech_over u ut s) as K.
  apply (off_kept_trans s _ _ K). apply off_kept_resumeListening.
  destruct K as [K _]. exact (eq_trans K E).
Qed.

(** While the enabled ref is clear and no initialisation is in flight,
    an event of the host starts no capture. *)
Lemma off_kept_host (e : Event) (s : Hook) :
  host_event e = true ->
  isEnabledRef s = false -> pendingInit s = 0 ->
  off_kept s (step e s).
Proof.
  intros Hh E P.
  destruct e as [b | | message | text onBoundary | | | | | |
                 | r | r results | r err | r | u name charIndex | u | u
                 | d]; try discriminate Hh; cbn [step].
  - unfold permissionGranted. rewrite P. apply off_kept_refl.
  - unfold permissionDenied. rewrite P. apply off_kept_refl.
  - destruct (nth_error (recognitions s) r) as [rec|];
      [| apply off_kept_refl].
    destruct (rstate rec); try apply off_kept_refl.
    apply off_kept_frame; reflexivity.
  - destruct (nth_error (recognitions s) r) as [rec|];
      [| apply off_kept_refl].
    destruct (rstate rec); try apply off_kept_refl.
    apply off_kept_onresult.
  - destruct (nth_error (recognitions s) r); [| apply off_kept_refl].
    unfold onerror. repeat apply off_kept_if; try apply off_kept_refl.
    apply off_kept_frame; reflexivity.
  - destruct (nth_error (recognitions s) r) as [rec|];
      [| apply off_kept_refl].
    assert (H1 : off_kept s (update_rec r (set_rstate RecIdle) s))
      by (apply off_kept_update_rec; intros x H; discriminate H).
    assert (H2 : off_kept s (onend r rec (update_rec r (set_rstate RecIdle) s))).
    { apply (off_kept_trans s _ _ H1). unfold onend.
      set (s1 := update_rec r (set_rstate RecIdle) s).
      set (s2 := match silenceTimer rec with
                 | Some id => clearTimeout id s1
                 | None => s1
                 end).
      assert (K : off_kept s1 s2)
        by (unfold s2; destruct (silenceTimer rec);
            [apply off_kept_clearTimeout | apply off_kept_refl]).
      assert (E2 : isEnabledRef s2 = false)
        by (destruct K as [K _]; exact (eq_trans K E)).
      change (off_kept s1
                (if negb (isSpeakingRef s2) && isEnabledRef s2
                    && negb (isUnmountedRef s2)
                 then recognition_start r s2
                 else set_isListening false s2)).
      rewrite E2, andb_false_r. cbn [andb].
      apply (off_kept_trans s1 s2); [exact K |].
      apply off_kept_frame; reflexivity. }
    destruct (rstate rec); [apply off_kept_refl | exact H2 | exact H2].
  - destruct (nth_error (utterances s) u) as [ut|]; [| apply off_kept_refl].
    apply off_kept_if; [apply off_kept_refl |].
    unfold onboundary. apply off_kept_if; [| apply off_kept_refl].
    apply off_kept_emit. discriminate.
  - destruct (nth_error (utterances s) u) as [ut|]; [| apply off_kept_refl].
    apply off_kept_if; [apply off_kept_refl |].
    match goal with
    | |- off_kept s (utterance_onend u ut ?x) =>
        apply (off_kept_trans s x);
          [apply off_kept_frame; reflexivity
          | apply off_kept_utterance_onend]
    end.
  - destruct (nth_error (utterances s) u) as [ut|]; [| apply off_kept_refl].
    apply off_kept_if; [apply off_kept_refl |].
    match goal with
    | |- off_kept s (utterance_onerror u ut ?x) =>
        apply (off_kept_trans s x);
          [apply off_kept_frame; reflexivity
          | apply off_kept_utterance_onerror; exact E]
    end.
  - unfold elapse.
    apply (off_kept_trans s
             (run_timers (List.length (timers s)) (now s + d) s));
      [apply off_kept_run_timers, E | apply off_kept_frame; reflexivity].
Qed.

Lemma off_kept_run (es : list Event) (s : Hook) :
  forallb host_event es = true ->
  isEnabledRef s = false -> pendingInit s = 0 ->
  off_kept s (run es s).
Proof.
  revert s. induction es as [|e es IH]; intros s H E P;
    [apply off_kept_refl |].
  simpl in H. apply andb_prop in H. destruct H as [He Hes].
  pose proof (off_kept_host e s He E P) as K.
  apply (off_kept_trans s (step e s)); [exact K |].
  destruct K as (K1 & K2 & _).
  apply IH; [exact Hes | exact (eq_trans K1 E) | exact (eq_trans K2 P)].
Qed.

Lemma capturing_abort (s : Hook) :
  capturing (match recognitionRef s with
             | Some r => recognition_abort r s
             | None => s
             end) = false.
Proof.
  unfold capturing.
  destruct (recognitionRef s) as [r|] eqn:R; [| rewrite R; reflexivity].
  cbn. rewrite R, nth_error_update_nth_eq.
  destruct (nth_error (recognitions s) r) as [rec|]; [| reflexivity].
  cbn. destruct (rstate rec) eqn:E; cbn; rewrite ?E; reflexivity.
Qed.

(** X14.  The voice button turns voice chat off for good. Clicked while
    voice chat is on, it aborts the recognition object in use, empties the
    synthesizer and clears the listening and speaking flags; and as long as
    no request for the microphone is in flight, nothing the host does
    afterwards (the [end] of the aborted object, the [error] of the
    cancelled utterance, a pending timer) starts capture again. *)
Theorem voice_button_turns_capture_off (s : Hook) (es : list Event) :
  isEnabled s = true ->
  synthRef s = true ->
  pendingInit s = 0 ->
  forallb host_event es = true ->
  let off := toggleVoice s in
  isListening off = false /\ isSpeaking off = false
  /\ synthQueue off = [] /\ capturing off = false
  /\ capturing (run es off) = false
  /\ capture_starts (log (run es off)) = capture_starts (log off).
Proof.
  intros En Sy P Hes. cbv zeta.
  unfold toggleVoice. rewrite En. cbn [voice_button run fold_left step].
  unfold stopSpeaking. rewrite Sy.
  set (s1 := set_isSpeaking false (set_isSpeakingRef false (synth_cancel s))).
  unfold stopListening.
  set (s2 := match recognitionRef s1 with
             | Some r => recognition_abort r s1
             | None => s1
             end).
  assert (C2 : capturing s2 = false) by apply capturing_abort.
  assert (Q2 : synthQueue s2 = [] /\ isSpeaking s2 = false
               /\ pendingInit s2 = 0 /\ isEnabled s2 = true).
  { unfold s2. destruct (recognitionRef s1); cbn; auto. }
  destruct Q2 as (Q2 & S2 & P2 & E2).
  set (s3 := set_isListening false s2).
  unfold setEnabled.
  replace (isEnabled s3) with true by (symmetry; exact E2).
  cbn [Bool.eqb negb andb].
  set (off := set_isUnmountedRef false (set_isEnabledRef false
                                          (set_isEnabled false s3))).
  assert (C : capturing off = false) by exact C2.
  destruct (off_kept_run es off Hes eq_refl P2) as (_ & _ & L & K).
  repeat split; try assumption; try reflexivity.
  destruct (capturing (run es off)); [| reflexivity].
  rewrite <- C. symmetry. apply K. reflexivity.
Qed.

Lemma voice_button_turns_capture_off_witness :
  capturing listening = true
  /\ capturing (run [RecOnEnd 0; Elapse 2000] (toggleVoice listening))
     = false.
Proof.
  split; [reflexivity |].
  exact (proj1 (proj2 (proj2 (proj2 (proj2
           (voice_button_turns_capture_off listening
              [RecOnEnd 0; Elapse 2000]
              eq_refl eq_refl eq_refl eq_refl)))))).
Defined.

Lemma length_update_nth {A : Type} (i : nat) (f : A -> A) (l : list A) :
  List.length (update_nth i f l) = List.length l.
Proof.
  revert i. induction l as [|x l IH]; intros [|i]; simpl; auto.
Qed.

Lemma capturing_started (n : nat) (g : Hook) (rec : Recognition) :
  recognitionRef g = Some n ->
  nth_error (recognitions g) n = Some rec ->
  capturing (emit (RecognitionStart n)
               (update_rec n (set_rstate RecActive) g)) = true.
Proof.
  intros R H. unfold capturing, emit, set_log, update_rec, set_recognitions.
  cbn [recognitionRef recognitions]. rewrite R, nth_error_update_nth_eq, H.
  reflexivity.
Qed.

(** X15.  The voice button turns voice chat on through the effect of the
    hook, not through its own call: [startListening()] in the click handler
    runs while the enabled ref is still clear and returns at once, so the
    microphone is requested once, by the effect of the render that follows.
    When the request is granted a new recognition object becomes the one in
    use and starts capturing. *)
Theorem voice_button_requests_the_microphone_once (s : Hook) :
  isSupported s = true ->
  isEnabled s = false ->
  isEnabledRef s = false ->
  let on := toggleVoice s in
  step StartListening s = s
  /\ pendingInit on = S (pendingInit s)
  /\ isEnabledRef on = true
  /\ capture_starts (log on) = capture_starts (log s)
  /\ let granted := step PermissionGranted on in
     recognitionRef granted = Some (List.length (recognitions s))
     /\ capturing granted = true
     /\ capture_starts (log granted) = capture_starts (log s) + 1.
Proof.
  intros Su En Er. cbv zeta.
  assert (S0 : step StartListening s = s).
  { cbn [step]. unfold initializeVoiceMode. rewrite Su, Er. reflexivity. }
  split; [exact S0 |].
  unfold toggleVoice. rewrite En. cbn [voice_button run fold_left].
  rewrite S0. cbn [step]. unfold setEnabled. rewrite En.
  cbn [Bool.eqb negb andb].
  set (s1 := teardown (set_isEnabled true s)).
  assert (F1 : isSupported s1 = true /\ pendingInit s1 = pendingInit s
               /\ capture_starts (log s1) = capture_starts (log s)
               /\ List.length (recognitions s1)
                  = List.length (recognitions s)).
  { unfold s1, teardown. cbn [recognitionRef set_isEnabled].
    destruct (recognitionRef s) as [r|]; cbn; destruct (synthRef s); cbn;
      unfold capture_starts;
      rewrite ?filter_app, ?length_app, ?length_update_nth; cbn;
      repeat split; try assumption; try lia. }
  destruct F1 as (Su1 & P1 & L1 & N1).
  set (s2 := set_isUnmountedRef false (set_isEnabledRef true s1)).
  replace (isSupported s2) with true by (symmetry; exact Su1).
  unfold initializeVoiceMode.
  replace (isSupported s2) with true by (symmetry; exact Su1).
  cbn [negb isEnabledRef isUnmountedRef s2 set_isUnmountedRef
       set_isEnabledRef orb].
  set (on := set_pendingInit (S (pendingInit s2)) s2).
  assert (Pn : pendingInit on = S (pendingInit s1)) by reflexivity.
  split; [rewrite Pn, P1; reflexivity |]. split; [reflexivity |].
  split; [exact L1 |].
  unfold permissionGranted. rewrite Pn.
  set (g := set_recognitionRef (Some (List.length (recognitions on)))
              (set_recognitions
                 (recognitions on ++ [mkRecognition RecIdle EmptyString None])
                 (set_pendingInit (pendingInit s1) on))).
  change (recognitionRef (recognition_start (List.length (recognitions on)) g)
          = Some (List.length (recognitions s))
          /\ capturing (recognition_start (List.length (recognitions on)) g)
             = true
          /\ capture_starts
               (log (recognition_start (List.length (recognitions on)) g))
             = capture_starts (log s) + 1).
  assert (Hn : nth_error (recognitions g) (List.length (recognitions on))
               = Some (mkRecognition RecIdle EmptyString None))
    by apply nth_error_app_length.
  unfold recognition_start. rewrite Hn. cbn [rstate].
  split; [exact (f_equal Some N1) |]. split.
  - apply (capturing_started _ g _ eq_refl Hn).
  - unfold emit, set_log. cbn [log]. rewrite capture_starts_app.
    change (capture_starts (log s1) + 1 = capture_starts (log s) + 1).
    rewrite L1. reflexivity.
Qed.

Lemma voice_button_requests_the_microphone_once_witness :
  pendingInit (toggleVoice (mount true false)) = 1
  /\ capturing (step PermissionGranted (toggleVoice (mount true false)))
     = true.
Proof.
  pose proof (voice_button_requests_the_microphone_once (mount true false)
                eq_refl eq_refl eq_refl) as H.
  cbv zeta in H. destruct H as (_ & P & _ & _ & _ & C & _).
  split; [exact P | exact C].
Defined.


(** ** Text without markup *)

Lemma has_char_split (x : ascii) (a1 : string) (c : ascii) (a2 : string) :
  has_char x (a1 ++ String c a2) = false -> Ascii.eqb c x = false.
Proof.
  induction a1 as [|a a1 IH]; simpl; intros H;
    apply orb_false_elim in H; destruct H as [H K]; [exact H | exact (IH K)].
Qed.

Lemma includes_split (needle a1 s : string) :
  includes (a1 ++ s) needle = false -> prefix needle s = false.
Proof.
  induction a1 as [|a a1 IH]; simpl; intros H.
  - destruct s; simpl in H; apply orb_false_elim in H; apply H.
  - apply orb_false_elim in H. apply IH, H.
Qed.

Lemma squeeze_single_spaced (s : string) :
  single_spaced s = true -> replace_all match_spaces s = s.
Proof.
  induction s as [|c s IH]; [reflexivity |].
  simpl. intros H. apply andb_prop in H. destruct H as [H K].
  destruct (is_ws c) eqn:W.
  - apply andb_prop in H. destruct H as [E N].
    apply Ascii.eqb_eq in E. subst c.
    rewrite squeeze_ws by exact W.
    assert (Z : span is_ws s = 0).
    { destruct s as [|d s]; [reflexivity |]. simpl in N.
      apply negb_true_iff in N. simpl. rewrite N. reflexivity. }
    rewrite Z. cbn [substring_from]. rewrite (IH K). reflexivity.
  - rewrite squeeze_other by exact W. rewrite (IH K). reflexivity.
Qed.

Lemma trim_normalized (s : string) : normalized s = true -> trim s = s.
Proof.
  unfold normalized, trim. intros H.
  apply andb_prop in H. destruct H as [H E].
  apply andb_prop in H. destruct H as [_ S].
  apply negb_true_iff in E, S.
  rewrite (trimStart_id s S). apply trimEnd_id, E.
Qed.

(** X16.  A text without markup is spoken as it is: when it has no opening
    angle bracket, no image syntax, no http or https address, and its white
    space is already single spaces with none at the ends, the six passes of
    [speak] leave it unchanged. *)
Theorem plain_text_is_spoken_unchanged (text : string) :
  has_char "<" text = false ->
  includes text "![" = false ->
  includes text "http://" = false ->
  includes text "https://" = false ->
  normalized text = true ->
  sanitize text = text.
Proof.
  intros A I H1 H2 N. unfold sanitize.
  assert (Sup : replace_all match_sup text = text).
  { apply replace_all_unmatched. intros a1 c a2 ->.
    apply match_element_head. eapply has_char_split, A. }
  rewrite Sup.
  assert (Sub : replace_all match_sub text = text).
  { apply replace_all_unmatched. intros a1 c a2 ->.
    apply match_element_head. eapply has_char_split, A. }
  rewrite Sub.
  assert (Img : replace_all match_image text = text).
  { apply replace_all_unmatched. intros a1 c a2 ->.
    unfold match_image. rewrite (includes_split _ _ _ I). reflexivity. }
  rewrite Img.
  assert (Url : replace_all match_url text = text).
  { apply replace_all_unmatched. intros a1 c a2 ->.
    unfold match_url.
    rewrite (includes_split _ _ _ H1), (includes_split _ _ _ H2).
    reflexivity. }
  rewrite Url.
  assert (Tag : replace_all match_tag text = text).
  { apply replace_all_unmatched. intros a1 c a2 ->.
    apply match_tag_other. eapply has_char_split, A. }
  rewrite Tag.
  assert (S : single_spaced text = true).
  { unfold normalized in N. apply andb_prop in N. destruct N as [N _].
    apply andb_prop in N. apply N. }
  rewrite (squeeze_single_spaced text S). apply trim_normalized, N.
Qed.

Lemma plain_text_is_spoken_unchanged_witness :
  sanitize "Well done! 2 + 2 = 4." = "Well done! 2 + 2 = 4.".
Proof.
  exact (plain_text_is_spoken_unchanged "Well done! 2 + 2 = 4."
           eq_refl eq_refl eq_refl eq_refl eq_refl).
Defined.


(** ** Recognition that ends while an utterance is buffered *)

Lemma held_after_end (s : Hook) (r id : nat) (rec : Recognition)
  (t : Timer) :
  nth_error (recognitions s) r = Some rec ->
  rstate rec = RecActive ->
  silenceTimer rec = Some id ->
  timers s = [t] -> tid t = id ->
  isSpeakingRef s = false -> isEnabledRef s = true ->
  isUnmountedRef s = false ->
  let held := step (RecOnEnd r) s in
  timers held = []
  /\ now held = now s
  /\ log held = (log s ++ [(now s, RecognitionStart r)])%list
  /\ nth_error (recognitions held) r
     = Some (mkRecognition RecActive (currentTranscript rec) (Some id)).
Proof.
  intros Hrec Hact Hsil Htim Hid Hsp Hen Hun. cbv zeta.
  cbn [step]. rewrite Hrec, Hact. unfold onend. rewrite Hsil.
  cbn [isSpeakingRef isEnabledRef isUnmountedRef clearTimeout update_rec
       set_timers set_recognitions].
  rewrite Hsp, Hen, Hun. cbn [negb andb].
  unfold recognition_start.
  cbn [recognitions set_timers set_recognitions].
  rewrite nth_error_update_nth_eq, Hrec.
  cbn [option_map set_rstate rstate].
  cbn [timers now log recognitions emit update_rec set_log set_recognitions
       set_timers].
  rewrite Htim. cbn [filter]. rewrite Hid, Nat.eqb_refl. cbn [negb].
  repeat split.
  rewrite nth_error_update_nth_eq, nth_error_update_nth_eq, Hrec.
  cbn. rewrite Hsil. reflexivity.
Qed.

(** X17.  What was said before recognition ended is neither submitted nor
    lost. When a recognition object ends on its own while a finalized buffer
    waits for its silence timer, the handler clears the timer and restarts
    the object without submitting the buffer: silence alone, however long,
    then submits nothing. The buffer is submitted with the next result event
    of the object, 1200 ms after it, in front of what that event finalizes. *)
Theorem buffered_speech_waits_for_the_next_result (s : Hook) (r id : nat)
  (rec : Recognition) (t : Timer) (gap g : nat)
  (results : list (string * bool)) :
  nth_error (recognitions s) r = Some rec ->
  rstate rec = RecActive ->
  is_empty (trim (currentTranscript rec)) = false ->
  silenceTimer rec = Some id ->
  timers s = [t] -> tid t = id ->
  isSpeakingRef s = false -> isEnabledRef s = true ->
  isUnmountedRef s = false ->
  1200 <= g ->
  let held := step (RecOnEnd r) s in
  final_utterances (log held) = final_utterances (log s)
  /\ timers held = []
  /\ final_utterances (log (step (Elapse g) held))
     = final_utterances (log s)
  /\ final_utterances
       (log (run [Elapse gap; RecOnResult r results; Elapse g] held))
     = (final_utterances (log s)
        ++ [(now s + gap + 1200,
             trim (currentTranscript rec
                   ++ utterance_buffer (finalized_of results)))])%list.
Proof.
  intros Hrec Hact Hbuf Hsil Htim Hid Hsp Hen Hun Hg.
  destruct (held_after_end s r id rec t Hrec Hact Hsil Htim Hid Hsp Hen Hun)
    as (T & N & L & R).
  cbv zeta. set (held := step (RecOnEnd r) s) in *.
  assert (F : final_utterances (log held) = final_utterances (log s)).
  { rewrite L, final_utterances_app. apply app_nil_r. }
  split; [exact F |]. split; [exact T |]. split.
  - change (step (Elapse g) held) with (elapse g held).
    rewrite (elapse_no_timer g held T). exact F.
  - unfold run. cbn [fold_left].
    change (step (Elapse gap) held) with (elapse gap held).
    rewrite (elapse_no_timer gap held T).
    set (s1 := set_now (now held + gap) held).
    set (rec1 := mkRecognition RecActive (currentTranscript rec) (Some id)).
    assert (R1 : nth_error (recognitions s1) r = Some rec1) by exact R.
    change (step (RecOnResult r results) s1)
      with (match nth_error (recognitions s1) r with
            | Some rec =>
                match rstate rec with
                | RecActive => onresult r rec results s1
                | _ => s1
                end
            | None => s1
            end).
    rewrite R1. cbn [rstate rec1].
    set (s2 := onresult r rec1 results s1).
    assert (B : is_empty (trim (buffer_after rec1 results)) = false)
      by (apply nonblank_append; exact Hbuf).
    destruct (onresult_recognition r rec1 results s1 R1)
      as (rec2 & R2 & _ & C2 & _).
    pose proof (onresult_timers r rec1 results s1) as T2.
    rewrite B in T2.
    assert (Tc : timers_cleared rec1 s1 = []).
    { unfold timers_cleared. cbn [silenceTimer rec1].
      change (timers s1) with (timers held). rewrite T. reflexivity. }
    rewrite Tc in T2. cbn [app] in T2.
    pose proof (onresult_now r rec1 results s1) as N2.
    fold s2 in R2, T2, N2. rewrite <- N2 in T2.
    destruct (elapse_silence g s2 _ r rec2 T2 Hg R2) as (L3 & _ & _).
    change (step (Elapse g) s2) with (elapse g s2).
    rewrite L3, final_utterances_app.
    unfold s2 at 1. rewrite onresult_finals.
    change (final_utterances (log s1)) with (final_utterances (log held)).
    rewrite F, C2, N2. cbn [final_utterances flat_map app].
    change (now s1) with (now held + gap). rewrite N. reflexivity.
Qed.

Lemma buffered_speech_waits_for_the_next_result_witness :
  let s := run [RecOnResult 0 [("hello", true)]] listening in
  final_utterances
    (log (run [Elapse 3000; RecOnResult 0 [("world", true)]; Elapse 1200]
            (step (RecOnEnd 0) s)))
  = (final_utterances (log s) ++ [(4200, "hello world")])%list.
Proof.
  cbv zeta.
  exact (proj2 (proj2 (proj2
           (buffered_speech_waits_for_the_next_result
              (run [RecOnResult 0 [("hello", true)]] listening) 0 0
              (mkRecognition RecActive "hello " (Some 0))
              (mkTimer 0 1200 (SilenceElapsed 0)) 3000 1200
              [("world", true)]
              eq_refl eq_refl eq_refl eq_refl eq_refl eq_refl eq_refl
              eq_refl eq_refl (le_n 1200))))).
Defined.


(** ** The microphone is refused *)

(** The calls and events that do not initialise voice mode again. *)
Definition no_init (e : Event) : bool :=
  match e with
  | SetEnabled _ | StartListening => false
  | _ => true
  end.

(** No recognition object exists, none is being created, and the hook is
    not listening. *)
Definition deaf (s : Hook) : Prop :=
  recognitions s = [] /\ recognitionRef s = None /\ pendingInit s = 0
  /\ isListening s = false.

(** No capture is started and no transcript handed over. *)
Definition quiet_log (s s' : Hook) : Prop :=
  capture_starts (log s') = capture_starts (log s)
  /\ transcripts (log s') = transcripts (log s).

Ltac quiet_log_done :=
  unfold quiet_log, capture_starts, transcripts; cbn;
  rewrite ?filter_app, ?flat_map_app, ?length_app; cbn;
  rewrite ?app_nil_r; split; try lia; reflexivity.

Lemma fire_deaf (t : Timer) (s : Hook) :
  deaf s -> deaf (fire t s) /\ quiet_log s (fire t s).
Proof.
  intros (R & F & P & L). unfold fire.
  destruct (action t) as [|r]; cbn; rewrite ?F, ?R.
  - split; [repeat split; assumption | quiet_log_done].
  - destruct r; cbn; (split; [repeat split; assumption | quiet_log_done]).
Qed.

Lemma run_timers_deaf (fuel target : nat) (s : Hook) :
  deaf s ->
  deaf (run_timers fuel target s) /\ quiet_log s (run_timers fuel target s).
Proof.
  revert s. induction fuel as [|fuel IH]; intros s D; simpl.
  - split; [exact D | split; reflexivity].
  - destruct (next_due target (timers s)) as [t|];
      [| split; [exact D | split; reflexivity]].
    destruct (fire_deaf t s D) as [D1 [A1 B1]].
    destruct (IH (fire t s) D1) as [D2 [A2 B2]].
    split; [exact D2 |]. split; [exact (eq_trans A2 A1) |].
    exact (eq_trans B2 B1).
Qed.

Lemma step_deaf (e : Event) (s : Hook) :
  no_init e = true -> deaf s -> deaf (step e s) /\ quiet_log s (step e s).
Proof.
  intros N D.
  destruct e as [b | | message | text onBoundary | | | | | |
                 | r | r results | r err | r | u name charIndex | u | u
                 | d]; try discriminate N; clear N.
  16: { destruct (run_timers_deaf (List.length (timers s)) (now s + d) s D)
          as [D1 Q1].
        split; [exact D1 | exact Q1]. }
  all: destruct D as (R & F & P & L).
  all: destruct s as [en li sp er su rr sy um er' sr rs us q p n ts nt l].
  all: cbn in R, F, P, L; subst rs rr p li.
  - cbn. split; [repeat split | quiet_log_done].
  - cbn. split; [repeat split | quiet_log_done].
  - cbn. destruct (negb sy || is_empty text); cbn;
      (split; [repeat split | quiet_log_done]).
  - unfold step, stopSpeaking. cbn. destruct sy; cbn;
      (split; [repeat split | quiet_log_done]).
  - cbn. split; [repeat split | quiet_log_done].
  - cbn. split; [repeat split | quiet_log_done].
  - cbn. split; [repeat split | quiet_log_done].
  - unfold step, unmount, teardown. cbn.
    destruct en, sy; cbn; (split; [repeat split | quiet_log_done]).
  - cbn. destruct r; cbn; (split; [repeat split | quiet_log_done]).
  - cbn. destruct r; cbn; (split; [repeat split | quiet_log_done]).
  - cbn. destruct r; cbn; (split; [repeat split | quiet_log_done]).
  - cbn. destruct r; cbn; (split; [repeat split | quiet_log_done]).
  - cbn. destruct (nth_error us u) as [ut|]; cbn;
      [| split; [repeat split | quiet_log_done]].
    destruct (terminated ut); cbn;
      [split; [repeat split | quiet_log_done] |].
    unfold onboundary.
    destruct (hasBoundary ut && String.eqb name "word"); cbn;
      (split; [repeat split | quiet_log_done]).
  - cbn. destruct (nth_error us u) as [ut|]; cbn;
      [| split; [repeat split | quiet_log_done]].
    destruct (terminated ut); cbn;
      [split; [repeat split | quiet_log_done] |].
    destruct (hasBoundary ut); cbn;
      (split; [repeat split | quiet_log_done]).
  - cbn. destruct (nth_error us u) as [ut|]; cbn;
      [| split; [repeat split | quiet_log_done]].
    destruct (terminated ut); cbn;
      [split; [repeat split | quiet_log_done] |].
    destruct (hasBoundary ut); cbn;
      (split; [repeat split | quiet_log_done]).
Qed.

(** X18.  When the request for the microphone is refused on the first
    initialisation of voice mode, the hook reports it and listens to
    nothing: the error is "Failed to start: " followed by the message of the
    rejection, no recognition object is created, and whatever happens
    afterwards short of a new initialisation (speech, its events, timers,
    the other calls of the hook), no capture is started, no transcript is
    handed over and [isListening] stays false. *)
Theorem refused_microphone_leaves_the_hook_deaf (s : Hook)
  (message : string) (es : list Event) :
  recognitions s = [] ->
  recognitionRef s = None ->
  pendingInit s = 1 ->
  forallb no_init es = true ->
  let refused := step (PermissionDenied message) s in
  error refused = Some ("Failed to start: " ++ message)
  /\ isListening refused = false
  /\ recognitions (run es refused) = []
  /\ isListening (run es refused) = false
  /\ capture_starts (log (run es refused)) = capture_starts (log s)
  /\ transcripts (log (run es refused)) = transcripts (log s).
Proof.
  intros R F P N. cbv zeta. cbn [step]. unfold permissionDenied.
  rewrite P.
  set (refused := set_isListening false
                    (set_error (Some ("Failed to start: " ++ message))
                       (set_pendingInit 0 s))).
  assert (D : deaf refused) by (repeat split; assumption).
  assert (G : forall es x, forallb no_init es = true -> deaf x ->
                deaf (run es x) /\ quiet_log x (run es x)).
  { clear. induction es as [|e es IH]; intros x N D.
    - split; [exact D | split; reflexivity].
    - simpl in N. apply andb_prop in N. destruct N as [Ne Nes].
      destruct (step_deaf e x Ne D) as [D1 [A1 B1]].
      destruct (IH (step e x) Nes D1) as [D2 [A2 B2]].
      split; [exact D2 |]. split; [exact (eq_trans A2 A1) |].
      exact (eq_trans B2 B1). }
  destruct (G es refused N D) as [(R' & _ & _ & L') [A B]].
  repeat split; assumption.
Qed.

Lemma refused_microphone_leaves_the_hook_deaf_witness :
  error (step (PermissionDenied "Permission denied")
           (toggleVoice (mount true false)))
  = Some "Failed to start: Permission denied"
  /\ capture_starts
       (log (run [Speak "Hello" false; UttOnEnd 0; Elapse 100]
               (step (PermissionDenied "Permission denied")
                  (toggleVoice (mount true false))))) = 0.
Proof.
  destruct (refused_microphone_leaves_the_hook_deaf
              (toggleVoice (mount true false)) "Permission denied"
              [Speak "Hello" false; UttOnEnd 0; Elapse 100]
              eq_refl eq_refl eq_refl eq_refl) as (E & _ & _ & _ & C & _).
  split; [exact E | exact C].
Defined.

(* ===================================================================== *)
(** * Properties of the streamed reply consumer *)
(* ===================================================================== *)

Import ChatInterface.

(** The lines the consumer sees: each chunk is split on its own. *)
Definition lines_seen (chunks : list string) : list string :=
  flat_map (split "010") chunks.

(** A line that is not blank. *)
Definition nonblank (line : string) : bool := negb (is_empty (trim line)).


Section ConsumerFacts.

Variable JSON_parse : string -> option StreamData.
Variable currentSessionId : option string.

Lemma read_loop_lines (chunks : list string) (st : Chat) :
  read_loop JSON_parse currentSessionId chunks st
  = fold_left (fun acc line => handle_line JSON_parse currentSessionId line acc)
              (lines_seen chunks) st.
Proof.
  unfold read_loop, lines_seen. revert st.
  induction chunks as [|chunk chunks IH]; intros st; [reflexivity |].
  simpl. rewrite fold_left_app. apply IH.
Qed.




End ConsumerFacts.








(** ** Failure of the request *)










Section FailureFacts.

Variable JSON_parse : string -> option StreamData.
Variable currentSessionId : option string.






End FailureFacts.





(* ===================================================================== *)
(** * Further properties of the streamed reply consumer *)
(* ===================================================================== *)

(** ** Chunks that end at the end of a line *)








(** ** The messages already there, and what is spoken *)







Section Replies.

Variable JSON_parse : string -> option StreamData.
Variable currentSessionId : option string.
Variable earlier : list Message.
Variable user : Message.
Variable spokenBefore : list string.
Hypothesis user_role : role user = "user".




End Replies.



(** ** The session id *)

(** The session ids the stream announces, in order: those of its
    [session_info] events whose [session_id] is truthy. *)
Definition announced (JSON_parse : string -> option StreamData)
  (lines : list string) : list (option string) :=
  flat_map (fun line =>
              if nonblank line then
                match JSON_parse line with
                | Some (SessionInfo sid) => if truthy sid then [sid] else []
                | _ => []
                end
              else []) lines.

Lemma last_cons {A : Type} (x d : A) (l : list A) :
  last (x :: l) d = last l x.
Proof.
  revert x d. induction l as [|y l IH]; intros x d; [reflexivity |].
  change (last (x :: y :: l) d) with (last (y :: l) d).
  rewrite !IH. reflexivity.
Qed.

Lemma last_append {A : Type} (a b : list A) (d : A) :
  last (a ++ b) d = last b (last a d).
Proof.
  revert d. induction a as [|x a IH]; intros d; [reflexivity |].
  change ((x :: a) ++ b)%list with (x :: (a ++ b))%list.
  rewrite !last_cons. apply IH.
Qed.

Lemma announced_cons (JSON_parse : string -> option StreamData)
  (line : string) (lines : list string) :
  announced JSON_parse (line :: lines)
  = (announced JSON_parse [line] ++ announced JSON_parse lines)%list.
Proof. unfold announced. cbn [flat_map]. rewrite app_nil_r. reflexivity. Qed.

Lemma handle_line_sessionId (JSON_parse : string -> option StreamData)
  (currentSessionId : option string) (line : string) (st : Chat) :
  sessionId (handle_line JSON_parse currentSessionId line st)
  = if truthy currentSessionId then sessionId st
    else last (announced JSON_parse [line]) (sessionId st).
Proof.
  unfold handle_line, announced, nonblank. cbn [flat_map].
  destruct (is_empty (trim line)); cbn [negb];
    [destruct (truthy currentSessionId); reflexivity |].
  destruct (JSON_parse line) as [data|];
    [| destruct (truthy currentSessionId); reflexivity].
  destruct data as [sid | text | [newData|] | |]; cbn;
    try (destruct (truthy currentSessionId); reflexivity).
  - destruct (truthy sid), (truthy currentSessionId); reflexivity.
  - destruct (quiz newData), (schedule_msg newData) as [msg|]; cbn;
      try (destruct (truthy currentSessionId); reflexivity);
      destruct (is_empty msg); cbn;
      destruct (truthy currentSessionId); reflexivity.
Qed.

Lemma lines_sessionId (JSON_parse : string -> option StreamData)
  (currentSessionId : option string) (lines : list string) (st : Chat) :
  sessionId
    (fold_left
       (fun acc line => handle_line JSON_parse currentSessionId line acc)
       lines st)
  = if truthy currentSessionId then sessionId st
    else last (announced JSON_parse lines) (sessionId st).
Proof.
  revert st. induction lines as [|l lines IH]; intros st.
  - destruct (truthy currentSessionId); reflexivity.
  - cbn [fold_left]. rewrite IH, handle_line_sessionId.
    destruct (truthy currentSessionId); [reflexivity |].
    rewrite (announced_cons JSON_parse l lines), last_append. reflexivity.
Qed.

Lemma on_failure_sessionId (st : Chat) :
  sessionId (on_failure st) = sessionId st.
Proof.
  unfold on_failure. cbn.
  destruct (List.rev (messages st)) as [|m rest]; [reflexivity |].
  destruct (_ && _); reflexivity.
Qed.

(** X21.  A session in use is never replaced. [handleVoiceInput] changes the
    session id only for a final transcript outside a quiz, when no session
    is in use and the server answers with a body; the session id is then the
    one of the last [session_info] event of the body that carries one, and
    stays as it is when there is none. *)
Theorem session_id_is_adopted_only_when_none_is_in_use
  (JSON_parse : string -> option StreamData) (transcript : string)
  (isFinal : bool) (reply : Reply) (st : Chat) :
  sessionId (handleVoiceInput JSON_parse transcript isFinal reply st)
  = if showQuiz st || negb isFinal || truthy (sessionId st)
    then sessionId st
    else match reply with
         | Body chunks _ =>
             last (announced JSON_parse (lines_seen chunks)) (sessionId st)
         | _ => sessionId st
         end.
Proof.
  unfold handleVoiceInput.
  destruct (showQuiz st); [reflexivity |].
  destruct isFinal; [| reflexivity]. cbn [orb negb]. cbv zeta.
  set (st0 := setCurrentCharIndex (-1)
                (setMessages
                   (fun prev =>
                      (prev ++ [mkMessage "user" transcript false])%list)
                   (setLoading true
                      (setInterimTranscript EmptyString st)))).
  change (sessionId st0) with (sessionId st).
  assert (G : forall x, sessionId (setLoading false x) = sessionId x)
    by reflexivity.
  rewrite G.
  destruct reply as [| errorText | chunks [|]];
    rewrite ?on_failure_sessionId, ?read_loop_lines, ?lines_sessionId;
    destruct (truthy (sessionId st)); reflexivity.
Qed.
